(** * Horizon storefront theme: upsell matching, hide conditions, cart glue

    A shallow embedding of the browser-side logic of the theme
    ([assets/upsell-products.js], [assets/product-form.js],
    [assets/cart-upsell.js] and the UdoPaintsEditor integration utility)
    together with the properties the specification states about it.

    Modelling conventions.
    - A JavaScript string is a Rocq [string]; [toLowerCase] and [trim] act on
      the ASCII range (letters A-Z, the six ASCII white-space characters).
    - A plain object used as a dictionary ([Object.<string, string>]) is a
      [gmap string _]; only own properties are modelled.  An object whose
      enumeration order matters (the submitted form data) is the list of its
      [Object.entries].
    - A JavaScript number that holds a count or a ratio of counts is an exact
      rational ([Qc]): the quotients [matchScore / totalOptions * 100] are
      correctly rounded from small integers, so their order and their
      equality with integers agree with the exact values.
    - [undefined]/[null] are [None]; truthiness is written out ([truthy]).
    - DOM state, session storage and promises are explicit state. *)

From Stdlib Require Import ZArith QArith Qcanon Lia List Ascii String.
From Stdlib Require Import Numbers.DecimalString.
From stdpp Require Import base option list gmap strings numbers.

Open Scope string_scope.
Open Scope list_scope.

(** ** JavaScript string primitives *)

Module JS.

(** Truthiness of a string value: every string but the empty one. *)
Definition truthy (s : string) : bool :=
  match s with
  | EmptyString => false
  | String _ _ => true
  end.

(** Truthiness of a possibly undefined string. *)
Definition truthy_opt (o : option string) : bool :=
  match o with
  | Some s => truthy s
  | None => false
  end.

Definition is_upper (c : ascii) : bool :=
  (65 <=? nat_of_ascii c)%nat && (nat_of_ascii c <=? 90)%nat.

Definition lower_char (c : ascii) : ascii :=
  if is_upper c then ascii_of_nat (nat_of_ascii c + 32) else c.

(** [String.prototype.toLowerCase]. *)
Fixpoint toLowerCase (s : string) : string :=
  match s with
  | EmptyString => EmptyString
  | String c s' => String (lower_char c) (toLowerCase s')
  end.

(** White space as [trim] sees it: TAB, LF, VT, FF, CR and SPACE. *)
Definition is_space (c : ascii) : bool :=
  let n := nat_of_ascii c in
  ((9 <=? n)%nat && (n <=? 13)%nat) || (n =? 32)%nat.

Fixpoint trimStart (s : string) : string :=
  match s with
  | EmptyString => EmptyString
  | String c s' => if is_space c then trimStart s' else s
  end.

Fixpoint trimEnd (s : string) : string :=
  match s with
  | EmptyString => EmptyString
  | String c s' =>
      match trimEnd s' with
      | EmptyString => if is_space c then EmptyString else String c EmptyString
      | t => String c t
      end
  end.

(** [String.prototype.trim]. *)
Definition trim (s : string) : string := trimEnd (trimStart s).

(** [s.split(sep)] for a one-character separator; the empty string splits
    into one empty piece. *)
Fixpoint split (sep : ascii) (s : string) : list string :=
  match s with
  | EmptyString => [EmptyString]
  | String c s' =>
      if Ascii.eqb c sep then EmptyString :: split sep s'
      else match split sep s' with
           | piece :: pieces => String c piece :: pieces
           | [] => [String c EmptyString]
           end
  end.

(** [s.startsWith(p)]. *)
Definition startsWith (p s : string) : bool := String.prefix p s.

(** The characters of [s] from position [n] on ([s.slice(n)]). *)
Fixpoint drop (n : nat) (s : string) : string :=
  match n, s with
  | O, _ => s
  | S n', EmptyString => EmptyString
  | S n', String _ s' => drop n' s'
  end.

(** Whether character [c] occurs in [s]. *)
Fixpoint occurs (c : ascii) (s : string) : bool :=
  match s with
  | EmptyString => false
  | String d s' => Ascii.eqb d c || occurs c s'
  end.

(** [Array.prototype.forEach] / [reduce] with the element index. *)
Fixpoint reduce_indexed {A B : Type} (f : B -> A -> nat -> B)
    (i : nat) (l : list A) (acc : B) : B :=
  match l with
  | [] => acc
  | x :: l' => reduce_indexed f (S i) l' (f acc x i)
  end.

End JS.

(** ** Variant matching ([VariantMatcher] in [upsell-products.js]) *)

(** [@typedef Variant]. *)
Record Variant := mkVariant {
  v_id : string;
  v_name : string;
  v_title : string;
  v_options : list string;
  v_price : Z;
  v_compare_at_price : option Z
}.

(** [@typedef Option]: [position] is the 1-based place of the option. *)
Record ProductOption := mkOption {
  o_name : string;
  o_position : Z;
  o_values : list string
}.

Module VariantMatcher.
Import JS.

(** The pair [(matchScore, totalOptions)] the loop of
    [calculateMatchScore] accumulates. *)
Definition counters : Type := nat * nat.

(** The body of the [forEach] callback of [calculateMatchScore]. *)
Definition score_step (upsellVariant : Variant)
    (mainProductVariants : gmap string string)
    (acc : counters) (optionName : string) (optionIndex : nat) : counters :=
  let '(matchScore, totalOptions) := acc in
  let upsellOptionValue := v_options upsellVariant !! optionIndex in
  let mainValue := mainProductVariants !! optionName in
  if truthy_opt upsellOptionValue && truthy_opt mainValue then
    if bool_decide (toLowerCase <$> upsellOptionValue = toLowerCase <$> mainValue)
    then (S matchScore, S totalOptions)
    else (matchScore, S totalOptions)
  else acc.

Definition score_counters (upsellVariant : Variant)
    (upsellProductOptions : list string)
    (mainProductVariants : gmap string string) : counters :=
  reduce_indexed (score_step upsellVariant mainProductVariants)
    0 upsellProductOptions (0, 0)%nat.

Definition Qc_of_nat (n : nat) : Qc := Q2Qc (inject_Z (Z.of_nat n)).

(** [totalOptions > 0 ? (matchScore / totalOptions) * 100 : 0]. *)
Definition ratio (c : counters) : Qc :=
  let '(matchScore, totalOptions) := c in
  if (0 <? totalOptions)%nat
  then (Qc_of_nat matchScore / Qc_of_nat totalOptions * Qc_of_nat 100)%Qc
  else Qc_of_nat 0.

Definition calculateMatchScore (upsellVariant : Variant)
    (upsellProductOptions : list string)
    (mainProductVariants : gmap string string) : Qc :=
  ratio (score_counters upsellVariant upsellProductOptions mainProductVariants).

(** The objects [{ variantId, matchScore }] built by the [map] of
    [findBestMatchingUpsellVariant]; the seed of the [reduce] has
    [variantId: null]. *)
Record Scored := mkScored {
  variantId : option string;
  matchScore : Qc
}.

(** The [reduce] callback: [current.matchScore > best.matchScore ? current : best]. *)
Definition better (best current : Scored) : Scored :=
  if bool_decide (matchScore best < matchScore current)%Qc then current else best.

Definition findBestMatchingUpsellVariant
    (mainProductVariants : gmap string string)
    (upsellProductId : option string)
    (upsellVariants : gmap string (list Variant))
    (upsellOptions : gmap string (list string)) : option string :=
  match upsellProductId with
  | None => None
  | Some pid =>
      if negb (truthy pid) then None
      else
        let upsellProductVariants := default [] (upsellVariants !! pid) in
        let upsellProductOptions := default [] (upsellOptions !! pid) in
        if (length upsellProductVariants =? 0)%nat then None
        else
          variantId
            (fold_left better
               (map (fun variant =>
                       {| variantId := Some (v_id variant);
                          matchScore :=
                            calculateMatchScore variant upsellProductOptions
                              mainProductVariants |})
                    upsellProductVariants)
               {| variantId := None; matchScore := Qc_of_nat 0 |})
  end.

(** [bestMatchVariant || currentUpsellVariants?.[0] || null]: a variant
    object is always truthy. *)
Definition findBestMatchVariant
    (mainProductVariants : gmap string string)
    (upsellProductId : option string)
    (upsellVariants : gmap string (list Variant))
    (upsellOptions : gmap string (list string)) : option Variant :=
  match upsellProductId with
  | None => None
  | Some pid =>
      if negb (truthy pid) then None
      else
        let bestMatchVariantId :=
          findBestMatchingUpsellVariant mainProductVariants upsellProductId
            upsellVariants upsellOptions in
        let currentUpsellVariants := upsellVariants !! pid in
        let bestMatchVariant :=
          currentUpsellVariants ≫=
            List.find (fun variant =>
                         bool_decide (Some (v_id variant) = bestMatchVariantId)) in
        match bestMatchVariant with
        | Some variant => Some variant
        | None => currentUpsellVariants ≫= head
        end
  end.

(** [mainProductVariant.options[option.position - 1] || '']. *)
Definition option_value (mainProductVariant : Variant) (position : Z) : string :=
  let index := (position - 1)%Z in
  let value :=
    if (0 <=? index)%Z then v_options mainProductVariant !! Z.to_nat index
    else None in
  match value with
  | Some s => s
  | None => EmptyString
  end.

(** The [reduce] callback of [mapMainProductVariants]. *)
Definition map_step (mainProductVariant : Variant)
    (acc : gmap string string) (option : ProductOption) : gmap string string :=
  if negb (truthy (o_name option)) then acc
  else <[o_name option := option_value mainProductVariant (o_position option)]> acc.

(** [variant.id == variantId] with an id that may be [undefined]. *)
Definition mapMainProductVariants (variantId : option string)
    (mainProductOptions : list ProductOption)
    (mainProductVariants : list Variant) : gmap string string :=
  match List.find (fun variant => bool_decide (Some (v_id variant) = variantId))
          mainProductVariants with
  | None => ∅
  | Some mainProductVariant =>
      fold_left (map_step mainProductVariant) mainProductOptions ∅
  end.

End VariantMatcher.

(** ** Hide conditions ([HideConditionManager] in [upsell-products.js]) *)

(** [@typedef HideCondition]. *)
Record HideCondition := mkHideCondition {
  optionName : string;
  optionValue : string;
  upsellProducts : list string
}.

Module HideConditionManager.
Import JS.

(** [span stop s]: the longest prefix of [s] free of the character [stop]
    and, when [stop] occurs, what follows its first occurrence. *)
Fixpoint span (stop : ascii) (s : string) : string * option string :=
  match s with
  | EmptyString => (EmptyString, None)
  | String c s' =>
      if Ascii.eqb c stop then (EmptyString, Some s')
      else let '(prefix, rest) := span stop s' in (String c prefix, rest)
  end.

(** [/^([^:]+):([^[]+)\[([^\]]+)\]$/.exec(condition)], giving the three
    captured groups.  Each group is a greedy run of characters other than
    the delimiter that follows it, so the run ends at the first occurrence
    of that delimiter and no shorter run can match: the match is found
    without backtracking.  [$] is the end of the input (no [m] flag). *)
Definition regex_exec (condition : string) : option (string * string * string) :=
  match span ":" condition with
  | (group1, Some after_colon) =>
      if negb (truthy group1) then None
      else
        match span "[" after_colon with
        | (group2, Some after_open) =>
            if negb (truthy group2) then None
            else
              match span "]" after_open with
              | (group3, Some EmptyString) =>
                  if negb (truthy group3) then None
                  else Some (group1, group2, group3)
              | _ => None
              end
        | _ => None
        end
  | _ => None
  end.

(** [upsellProductNames.split(',').map(name => name.trim())
      .filter(name => name.length > 0)]. *)
Definition product_names (upsellProductNames : string) : list string :=
  List.filter (fun name => (0 <? String.length name)%nat)
    (map trim (split "," upsellProductNames)).

(** The warnings written to the console are not part of the result. *)
Definition parseSingleCondition (condition : string) : option HideCondition :=
  match regex_exec condition with
  | None => None
  | Some (optionName, optionValue, upsellProductNames) =>
      if negb (truthy optionName) || negb (truthy optionValue)
         || negb (truthy upsellProductNames)
      then None
      else Some {| optionName := toLowerCase (trim optionName);
                   optionValue := toLowerCase (trim optionValue);
                   upsellProducts := product_names upsellProductNames |}
  end.

(** [.filter(condition => condition !== null)]. *)
Fixpoint filter_non_null {A : Type} (l : list (option A)) : list A :=
  match l with
  | [] => []
  | Some x :: l' => x :: filter_non_null l'
  | None :: l' => filter_non_null l'
  end.

Definition parseHideConditions (hideConditionsString : option string)
    : list HideCondition :=
  match hideConditionsString with
  | None => []
  | Some s =>
      if negb (truthy s) || String.eqb (trim s) "" then []
      else filter_non_null (map parseSingleCondition (split ";" s))
  end.

End HideConditionManager.


(** ** Visibility of upsell items ([UpsellProducts] in [upsell-products.js]) *)

(** An [.upsell-product__item] element, as far as hiding and showing touch
    it: the display its style sheets give it, its inline [style.display]
    (empty when not set) and the [checked] flag of the first
    [.upsell-product__checkbox-input] inside it, if there is one. *)
Record Item := mkItem {
  sheet_display : string;
  style_display : string;
  checkbox : option bool
}.

(** The component: the DOM elements it reaches (an element handle is an index
    into [items], so that two references to one element alias), the
    checkboxes it iterates with their [data-upsell-id] and closest item, its
    private fields [#hiddenUpsellProducts] and [#originalDisplayValue], and
    the events dispatched so far as pairs (item of the target checkbox,
    event type). *)
Record Component := mkComponent {
  items : list Item;
  checkboxes : list (option string * option nat);
  hiddenUpsellProducts : gset string;
  originalDisplayValue : option string;
  dispatched : list (nat * string)
}.

Module UpsellProducts.
Import JS.

(** [window.getComputedStyle(item).display]: the inline value when one is
    set, the style sheets' value otherwise. *)
Definition computed_display (item : Item) : string :=
  if truthy (style_display item) then style_display item else sheet_display item.

Definition set_style_display (value : string) (item : Item) : Item :=
  {| sheet_display := sheet_display item;
     style_display := value;
     checkbox := checkbox item |}.

Definition set_checked (value : bool) (item : Item) : Item :=
  {| sheet_display := sheet_display item;
     style_display := style_display item;
     checkbox := Some value |}.

(** The element behind a handle; [null] and dangling handles give [None]. *)
Definition element (c : Component) (item : option nat) : option (nat * Item) :=
  item ≫= fun h => (fun it => (h, it)) <$> items c !! h.

Definition hideUpsellProduct (upsellId : option string) (item : option nat)
    (c : Component) : Component :=
  match element c item, upsellId with
  | Some (h, it), Some id =>
      if negb (truthy id) then c
      else
        let currentDisplay := computed_display it in
        let original :=
          if negb (String.eqb currentDisplay "none") then Some currentDisplay
          else originalDisplayValue c in
        let hidden := {[ id ]} ∪ hiddenUpsellProducts c in
        let it_hidden := set_style_display "none" it in
        match checkbox it with
        | Some true =>
            {| items := <[h := set_checked false it_hidden]> (items c);
               checkboxes := checkboxes c;
               hiddenUpsellProducts := hidden;
               originalDisplayValue := original;
               dispatched := dispatched c ++ [(h, "change")] |}
        | _ =>
            {| items := <[h := it_hidden]> (items c);
               checkboxes := checkboxes c;
               hiddenUpsellProducts := hidden;
               originalDisplayValue := original;
               dispatched := dispatched c |}
        end
  | _, _ => c
  end.

Definition showUpsellProduct (upsellId : option string) (item : option nat)
    (c : Component) : Component :=
  match element c item with
  | Some (h, it) =>
      let restored :=
        match originalDisplayValue c with
        | Some value => if truthy value then value else "block"
        | None => "block"
        end in
      {| items := <[h := set_style_display restored it]> (items c);
         checkboxes := checkboxes c;
         hiddenUpsellProducts := hiddenUpsellProducts c ∖ {[ default "" upsellId ]};
         originalDisplayValue := originalDisplayValue c;
         dispatched := dispatched c |}
  | None => c
  end.

Definition hideAllUpsellProducts (c : Component) : Component :=
  fold_left (fun acc '(upsellId, item) => hideUpsellProduct upsellId item acc)
    (checkboxes c) c.

Definition showAllUpsellProducts (c : Component) : Component :=
  fold_left (fun acc '(upsellId, item) => showUpsellProduct upsellId item acc)
    (checkboxes c) c.

End UpsellProducts.


(** ** Upsell detection in the submitted form ([product-form.js]) *)

(** A JavaScript value as the form data and the editor's results hold them:
    a string (a field value), a boolean, or a nested object such as
    [properties]. *)
#[warnings="-register-all"] Inductive JVal :=
| VStr (s : string)
| VBool (b : bool)
| VObj (entries : list (string * JVal)).

(** An object as the list of its [Object.entries], keys pairwise distinct.
    (Keys that are array indices, which JavaScript enumerates before the
    others, do not occur among the field names of the form.) *)
Definition JObject : Type := list (string * JVal).

(** [@typedef UpsellProduct]: a line item of the cart request. *)
Record UpsellProduct := mkUpsellProduct {
  up_id : string;
  up_title : JVal;
  up_quantity : Z;
  up_properties : JObject
}.

Module ProductForm.
Import JS.

(** [UPSELL_PRODUCT_PREFIX], exported by [upsell-products.js]. *)
Definition UPSELL_PRODUCT_PREFIX : string := "_upsell_variant_".

(** [o[key]]. *)
Fixpoint get (key : string) (o : JObject) : option JVal :=
  match o with
  | [] => None
  | (k, v) :: o' => if String.eqb k key then Some v else get key o'
  end.

(** [o[key] = value]: an existing key keeps its place, a new one goes last. *)
Fixpoint set (key : string) (value : JVal) (o : JObject) : JObject :=
  match o with
  | [] => [(key, value)]
  | (k, v) :: o' =>
      if String.eqb k key then (key, value) :: o' else (k, v) :: set key value o'
  end.

(** [Object.fromEntries(entries)]. *)
Definition fromEntries (entries : list (string * JVal)) : JObject :=
  fold_left (fun acc kv => set (fst kv) (snd kv) acc) entries [].

Definition truthy_val (v : option JVal) : bool :=
  match v with
  | Some (VStr s) => truthy s
  | Some (VBool b) => b
  | Some (VObj _) => true
  | None => false
  end.

(** The own enumerable properties [{...value}] copies: those of an object,
    the indexed characters of a string, none of [undefined]. *)
Fixpoint chars_from (i : nat) (s : string) : JObject :=
  match s with
  | EmptyString => []
  | String c s' =>
      (NilEmpty.string_of_uint (Nat.to_uint i), VStr (String c EmptyString))
        :: chars_from (S i) s'
  end.

Definition spread (v : option JVal) : JObject :=
  match v with
  | Some (VObj entries) => entries
  | Some (VStr s) => chars_from 0 s
  | Some (VBool _) => []
  | None => []
  end.

(** [key.replace(pattern, '')]: the first occurrence of [pattern] is cut out. *)
Fixpoint remove_first (pattern key : string) : string :=
  if startsWith pattern key then drop (String.length pattern) key
  else match key with
       | EmptyString => EmptyString
       | String c key' => String c (remove_first pattern key')
       end.

Definition is_upsell_key (key : string) : bool :=
  startsWith UPSELL_PRODUCT_PREFIX key.

(** [#detectUpsellProducts(formJsonData)], giving
    [{ cleanFormJsonData, upsellProducts }].  The report sent to the editor
    when the product title is missing does not change the result. *)
Definition detectUpsellProducts (formJsonData : JObject)
    : JObject * list UpsellProduct :=
  let upsellProductsFormData :=
    List.filter (fun kv => is_upsell_key (fst kv)) formJsonData in
  if (length upsellProductsFormData =? 0)%nat then (formJsonData, [])
  else
    let productTitle := get "product-title" formJsonData in
    if negb (truthy_val productTitle) then (formJsonData, [])
    else
      let upsellProducts :=
        map (fun kv =>
               {| up_id := remove_first UPSELL_PRODUCT_PREFIX (fst kv);
                  up_title := snd kv;
                  up_quantity := 1;
                  up_properties := [("Product", default (VStr "") productTitle)] |})
            (List.filter (fun kv => is_upsell_key (fst kv)) formJsonData) in
      let cleanFormJsonData :=
        fromEntries
          (List.filter (fun kv => negb (is_upsell_key (fst kv))) formJsonData) in
      let formDataProperties :=
        fromEntries (spread (get "properties" cleanFormJsonData)
                     ++ fromEntries upsellProductsFormData) in
      (set "properties" (VObj formDataProperties) cleanFormJsonData,
       upsellProducts).

End ProductForm.


(** ** The editor bridge (the UdoPaintsEditor integration utility) *)

(** The methods of [window.UdoPaintsEditor] the manager wraps with a result
    ([onError] and [onStateChange], which return nothing, are left out). *)
Inductive Method := onAddToCart | afterAddToCart | isReadyToExport | uploadImage.

(** What awaiting a call of one of these methods gives: a result; an
    exception (thrown by the call or carried by a rejected promise) whose
    value is an object or a primitive, with the string it has as [message],
    if any; an exception whose value is [null] or [undefined], on which
    reading [message] throws again; or nothing yet. *)
Inductive Outcome :=
| Fulfils (result : JVal)
| Throws (message : option string)
| ThrowsNullish
| Pends.

(** The state of a promise returned to a caller. *)
Inductive Promise :=
| Pending
| Resolved (value : JVal)
| Rejected (reason : string).

(** [window.UdoPaintsEditor] (absent until the app block has loaded) and the
    manager: its [isReady] flag, its queue [readyCallbacks] (each callback is
    the closure of one wrapper call: the promise it resolves and the method it
    calls), whether its polling timer is armed, and the promises handed out
    so far, a promise being known by its index.  [type_error m] is the
    message of the [TypeError] the engine raises when method [m] is called
    on a missing editor; its wording is the engine's. *)
Record Bridge := mkBridge {
  type_error : Method -> string;
  editor : option (Method -> Outcome);
  isReady : bool;
  readyCallbacks : list (nat * Method);
  timer_armed : bool;
  promises : list Promise
}.

Module UdoPaintsEditorManager.
Import JS ProductForm.

Definition method_name (m : Method) : string :=
  match m with
  | onAddToCart => "onAddToCart"
  | afterAddToCart => "afterAddToCart"
  | isReadyToExport => "isReadyToExport"
  | uploadImage => "uploadImage"
  end.

(** [error.message || 'Failed to call <method>']. *)
Definition error_text (m : Method) (message : option string) : string :=
  match message with
  | Some text => if truthy text then text else ("Failed to call " ++ method_name m)%string
  | None => ("Failed to call " ++ method_name m)%string
  end.

(** The object literal of the [catch] branch of a wrapper; [uploadImage]
    adds [feature: '']. *)
Definition failure (m : Method) (message : option string) : JVal :=
  match m with
  | uploadImage =>
      VObj [ ("success", VBool false); ("feature", VStr "");
             ("error", VStr (error_text m message)) ]
  | _ => VObj [ ("success", VBool false); ("error", VStr (error_text m message)) ]
  end.

Definition resolve (p : nat) (value : JVal) (ps : list Promise) : list Promise :=
  match ps !! p with
  | Some Pending => <[p := Resolved value]> ps
  | _ => ps
  end.

(** Running the callback a wrapper hands to [onReady]:
    [try { resolve(await window.UdoPaintsEditor.m(..)) } catch (error) { resolve({..}) }],
    taken up to the point where the awaited call has settled.  With the
    editor missing the call itself raises the engine's [TypeError].  When
    the caught value is [null] or [undefined], reading [error.message] in
    the [catch] throws, [resolve] is not reached and the promise is left as
    it is. *)
Definition run_callback (type_error : Method -> string)
    (ed : option (Method -> Outcome)) (ps : list Promise)
    (callback : nat * Method) : list Promise :=
  let '(p, m) := callback in
  match ed with
  | None => resolve p (failure m (Some (type_error m))) ps
  | Some methods =>
      match methods m with
      | Fulfils result => resolve p result ps
      | Throws message => resolve p (failure m message) ps
      | ThrowsNullish => ps
      | Pends => ps
      end
  end.

(** [checkAvailability()]: one run of the poll. *)
Definition checkAvailability (b : Bridge) : Bridge :=
  match editor b with
  | Some _ =>
      {| type_error := type_error b; editor := editor b;
         isReady := true;
         readyCallbacks := [];
         timer_armed := false;
         promises := fold_left (run_callback (type_error b) (editor b))
                       (readyCallbacks b) (promises b) |}
  | None =>
      {| type_error := type_error b; editor := editor b;
         isReady := isReady b;
         readyCallbacks := readyCallbacks b;
         timer_armed := true;
         promises := promises b |}
  end.

(** [new UdoPaintsEditorManager()] in a window whose editor is [ed]. *)
Definition create (type_error : Method -> string)
    (ed : option (Method -> Outcome)) : Bridge :=
  checkAvailability
    {| type_error := type_error; editor := ed; isReady := false;
       readyCallbacks := []; timer_armed := false; promises := [] |}.

(** [onReady(callback)]. *)
Definition onReady (callback : nat * Method) (b : Bridge) : Bridge :=
  if isReady b then
    {| type_error := type_error b; editor := editor b; isReady := isReady b;
       readyCallbacks := readyCallbacks b; timer_armed := timer_armed b;
       promises := run_callback (type_error b) (editor b) (promises b) callback |}
  else
    {| type_error := type_error b; editor := editor b; isReady := isReady b;
       readyCallbacks := readyCallbacks b ++ [callback];
       timer_armed := timer_armed b; promises := promises b |}.

(** A call of the wrapper of method [m]: a new promise, and the callback
    that resolves it handed to [onReady].  The promise is returned by its
    index. *)
Definition call (m : Method) (b : Bridge) : Bridge * nat :=
  let p := length (promises b) in
  (onReady (p, m)
     {| type_error := type_error b; editor := editor b; isReady := isReady b;
        readyCallbacks := readyCallbacks b; timer_armed := timer_armed b;
        promises := promises b ++ [Pending] |},
   p).

(** The timer fires: [checkAvailability] runs again if it is armed. *)
Definition tick (b : Bridge) : Bridge :=
  if timer_armed b then checkAvailability b else b.

(** The app block loads (or is taken away): [window.UdoPaintsEditor] changes. *)
Definition set_editor (ed : option (Method -> Outcome)) (b : Bridge) : Bridge :=
  {| type_error := type_error b; editor := ed; isReady := isReady b;
     readyCallbacks := readyCallbacks b;
     timer_armed := timer_armed b; promises := promises b |}.


End UdoPaintsEditorManager.

(** ** Waiting for the manager ([UdoPaintsEditorManager] in [upsell-products.js]) *)

(** How the promise of [waitForManager] stands. *)
Inductive WaitStatus := Polling | Available | Unavailable.

(** The closure of [waitForManager]: the counter [attempts], the timers set
    so far, and the state of the promise. *)
Record Wait := mkWait {
  attempts : nat;
  timers : nat;
  status : WaitStatus
}.

Module EditorWait.

Definition maxAttempts : nat := 50.
Definition attemptInterval : nat := 100.

(** One run of [checkManager]; [ready k] is what
    [window.UdoPaintsEditorManager?.isReady] gives at the [k]-th check. *)
Definition checkManager (maxAttempts : nat) (ready : nat -> bool) (w : Wait) : Wait :=
  let attempts := S (attempts w) in
  if ready attempts then
    {| attempts := attempts; timers := timers w; status := Available |}
  else if (maxAttempts <=? attempts)%nat then
    {| attempts := attempts; timers := timers w; status := Unavailable |}
  else
    {| attempts := attempts; timers := S (timers w); status := Polling |}.

(** [waitForManager()] followed through at most [fuel] runs of
    [checkManager]: the first run is immediate, each later one is a timer
    firing. *)
Fixpoint poll (fuel : nat) (maxAttempts : nat) (ready : nat -> bool) (w : Wait) : Wait :=
  match fuel with
  | O => w
  | S fuel' =>
      match status w with
      | Polling => poll fuel' maxAttempts ready (checkManager maxAttempts ready w)
      | _ => w
      end
  end.

Definition waitForManager (fuel : nat) (ready : nat -> bool) : Wait :=
  poll fuel maxAttempts ready {| attempts := 0; timers := 0; status := Polling |}.

(** The time spent waiting, in milliseconds. *)
Definition waited (w : Wait) : nat := (timers w * attemptInterval)%nat.

(** [checkReadyToExport()]: [managerReady] is
    [window.UdoPaintsEditorManager?.isReady], [reply] the promise of the
    manager's [isReadyToExport] once settled.  The result is the new
    [#isReady] and the returned boolean; without a ready manager [#isReady]
    keeps its value [current]. *)
Definition checkReadyToExport (current managerReady : bool) (reply : Promise)
    : option (bool * bool) :=
  if negb managerReady then Some (current, false)
  else
    match reply with
    | Pending => None
    | Resolved (VObj o) =>
        let ready :=
          match ProductForm.get "success" o with
          | Some (VBool true) => true
          | _ => false
          end in
        Some (ready, ready)
    | Resolved _ => Some (false, false)
    | Rejected _ => Some (false, false)
    end.

End EditorWait.


(** ** Dismissed products of the cart upsell ([cart-upsell.js]) *)

(** What session storage holds under the key [cart-upsell-dismissed]:
    nothing, the JSON text of an array of product ids (the only thing the
    component writes there), or text that does not parse. *)
Inductive Stored :=
| Absent
| Json (ids : list string)
| Garbage.

(** The session as the component sees it: the stored item, whether
    [sessionStorage.setItem] throws (storage full or disabled), and the
    [data-dismissed-products] attribute of the flag element when that
    element is in the DOM. *)
Record Session := mkSession {
  stored : Stored;
  storage_full : bool;
  flag : option (list string)
}.

Module CartUpsellComponent.

(** [JSON.parse(sessionStorage.getItem(STORAGE_KEY) || '[]')], and [[]]
    when parsing throws. *)
Definition getDismissedProducts (s : Session) : list string :=
  match stored s with
  | Json ids => ids
  | Absent => []
  | Garbage => []
  end.

(** [sessionStorage.setItem(STORAGE_KEY, JSON.stringify(dismissed))]; an
    exception is caught and logged. *)
Definition setDismissedProducts (dismissed : list string) (s : Session) : Session :=
  if storage_full s then s
  else {| stored := Json dismissed; storage_full := storage_full s; flag := flag s |}.

Definition updateFlagElement (s : Session) : Session :=
  match flag s with
  | Some _ =>
      {| stored := stored s; storage_full := storage_full s;
         flag := Some (getDismissedProducts s) |}
  | None => s
  end.

Definition saveDismissedState (productId : string) (s : Session) : Session :=
  let dismissed := getDismissedProducts s in
  if bool_decide (productId ∈ dismissed) then s
  else updateFlagElement (setDismissedProducts (dismissed ++ [productId]) s).

Definition isDismissed (productId : string) (s : Session) : bool :=
  bool_decide (productId ∈ getDismissedProducts s).

Definition clearDismissedStates (s : Session) : Session :=
  updateFlagElement
    {| stored := Absent; storage_full := storage_full s; flag := flag s |}.

End CartUpsellComponent.


(** ** Evaluating hide conditions ([upsell-products.js]) *)

Module HideConditionCheck.
Import JS.

(** [HideConditionManager.normalizeOptions(options)]:
    [Object.fromEntries(Object.entries(options).map(([key, value]) =>
       [key.toLowerCase(), value.toLowerCase()]))].
    The argument is given by its [Object.entries]; of two entries whose keys
    agree up to case the later one wins. *)
Definition normalizeOptions (entries : list (string * string)) : gmap string string :=
  fold_left (fun acc kv => <[toLowerCase (fst kv) := toLowerCase (snd kv)]> acc)
    entries ∅.

(** The test of [#checkIndividualHideConditions]:
    [optionValue && optionValue == condition.optionValue] with
    [optionValue = normalizedOptions[condition.optionName]]. *)
Definition triggered (normalizedOptions : gmap string string)
    (condition : HideCondition) : bool :=
  match normalizedOptions !! optionName condition with
  | Some value => truthy value && String.eqb value (optionValue condition)
  | None => false
  end.

End HideConditionCheck.

(** ** Hiding by product name ([UpsellProducts] in [upsell-products.js]) *)

Module UpsellVisibility.
Import JS UpsellProducts HideConditionCheck.

(** [elementText === targetName] in [#hideUpsellProductByName]: the text of
    the item's heading, trimmed and lower-cased, against the lower-cased
    product name. *)
Definition names_item (text upsellProductName : string) : bool :=
  String.eqb (toLowerCase (trim text)) (toLowerCase upsellProductName).

(** One turn of the loop of [#hideUpsellProductByName].  [productName h] is
    the text of the heading [.upsell-product__content h4] of item [h], if the
    item has one.  A checkbox outside any item makes [item.querySelector]
    throw a [TypeError]: the result is then [None]. *)
Definition hide_if_named (productName : nat -> option string)
    (upsellProductName : string) (acc : option Component)
    (entry : option string * option nat) : option Component :=
  match acc with
  | None => None
  | Some c =>
      match element c (snd entry) with
      | None => None
      | Some (h, _) =>
          match productName h with
          | None => Some c
          | Some text =>
              if names_item text upsellProductName
              then Some (hideUpsellProduct (fst entry) (Some h) c)
              else Some c
          end
      end
  end.

Definition hideUpsellProductByName (productName : nat -> option string)
    (upsellProductName : string) (c : Component) : option Component :=
  fold_left (hide_if_named productName upsellProductName) (checkboxes c) (Some c).

(** The second loop of [#checkIndividualHideConditions], for one condition. *)
Definition apply_condition (productName : nat -> option string)
    (normalizedOptions : gmap string string) (acc : option Component)
    (condition : HideCondition) : option Component :=
  if triggered normalizedOptions condition then
    fold_left (fun acc' upsellProductName =>
                 acc' ≫= hideUpsellProductByName productName upsellProductName)
      (upsellProducts condition) acc
  else acc.

(** [#checkIndividualHideConditions(normalizedOptions)]: every item is
    shown, then the triggered conditions hide the items they name. *)
Definition checkIndividualHideConditions (productName : nat -> option string)
    (hideConditions : list HideCondition) (normalizedOptions : gmap string string)
    (c : Component) : option Component :=
  fold_left (apply_condition productName normalizedOptions) hideConditions
    (Some (showAllUpsellProducts c)).

(** [#checkHideConditions(mappedMainVariant)]; [editorReady] is
    [this.#udoPaintsEditor.isReady], the mapping is given by its entries. *)
Definition checkHideConditions (editorReady : bool)
    (productName : nat -> option string) (hideConditions : list HideCondition)
    (mappedMainVariant : list (string * string)) (c : Component) : option Component :=
  if negb editorReady then Some (hideAllUpsellProducts c)
  else checkIndividualHideConditions productName hideConditions
         (normalizeOptions mappedMainVariant) c.

(** [clearCheckedUpsellProducts()]: every checked checkbox is unchecked and
    gets a [checkbox-unchecked] event.  A checkbox is reached through its
    item, of which it is the checkbox. *)
Definition uncheck (c : Component) (entry : option string * option nat) : Component :=
  match element c (snd entry) with
  | Some (h, it) =>
      match checkbox it with
      | Some true =>
          {| items := <[h := set_checked false it]> (items c);
             checkboxes := checkboxes c;
             hiddenUpsellProducts := hiddenUpsellProducts c;
             originalDisplayValue := originalDisplayValue c;
             dispatched := dispatched c ++ [(h, "checkbox-unchecked")] |}
      | _ => c
      end
  | None => c
  end.

Definition clearCheckedUpsellProducts (c : Component) : Component :=
  fold_left uncheck (checkboxes c) c.

End UpsellVisibility.

(** ** Hidden form fields of the selected upsells ([upsell-products.js]) *)

(** An element of the add-to-cart form that carries a [name]: its name, its
    value, and whether it contributes an entry to [new FormData(form)] (a
    control that is enabled and, for a checkbox, checked). *)
Record Control := mkControl {
  c_name : string;
  c_value : string;
  c_submits : bool
}.

(** An element of [#bestMatchUpsellVariants] as the form handling reads it:
    [checkbox.checked], [checkbox.dataset.upsellId] and the matched variant. *)
Record Selection := mkSelection {
  sel_checked : bool;
  sel_upsellId : option string;
  sel_variant : option Variant
}.

Module UpsellForm.
Import JS ProductForm.

(** The [<input type="hidden">] made for a variant. *)
Definition hidden_input (variant : Variant) : Control :=
  {| c_name := (UPSELL_PRODUCT_PREFIX ++ v_id variant)%string;
     c_value := v_name variant;
     c_submits := true |}.

(** The filter of [#setHiddenUpsellInputs]:
    [upsell.checkbox.checked && !hidden.has(upsell.checkbox.dataset.upsellId || '')]. *)
Definition selected (hidden : gset string) (upsell : Selection) : bool :=
  sel_checked upsell && negb (bool_decide (default "" (sel_upsellId upsell) ∈ hidden)).

(** [#removeExistingUpsellInputs()]; the form may be missing. *)
Definition removeExistingUpsellInputs (form : option (list Control))
    : option (list Control) :=
  List.filter (fun control => negb (is_upsell_key (c_name control))) <$> form.

(** [#setHiddenUpsellInputs()]. *)
Definition setHiddenUpsellInputs (hidden : gset string) (best : list Selection)
    (form : option (list Control)) : option (list Control) :=
  fold_left (fun acc variant =>
               match variant, acc with
               | Some v, Some controls => Some (controls ++ [hidden_input v])
               | _, _ => acc
               end)
    (map sel_variant (List.filter (selected hidden) best)) form.

(** [#resetHiddenUpsellInputs()]. *)
Definition resetHiddenUpsellInputs (hidden : gset string) (best : list Selection)
    (form : option (list Control)) : option (list Control) :=
  setHiddenUpsellInputs hidden best (removeExistingUpsellInputs form).

(** The entries of [new FormData(form)]: one per submitting control with a
    non-empty name, in document order. *)
Definition form_entries (controls : list Control) : list (string * JVal) :=
  map (fun control => (c_name control, VStr (c_value control)))
    (List.filter (fun control => c_submits control && truthy (c_name control))
       controls).

(** [getFormDataAsObject()]. *)
Definition getFormDataAsObject (form : option (list Control)) : JObject :=
  match form with
  | None => []
  | Some controls => fromEntries (form_entries controls)
  end.

(** The object [handleSubmit] of [product-form.js] hands to
    [#detectUpsellProducts]: the form data with the appended [sections]
    entry, turned into an object, with the line item properties assigned. *)
Definition formDataAsJson (controls : list Control) (sections : string)
    (lineItemProperties : JObject) : JObject :=
  set "properties" (VObj lineItemProperties)
    (fromEntries (form_entries controls ++ [("sections", VStr sections)])).

End UpsellForm.


(** ** Items of the cart upsell ([cart-upsell.js]) *)

(** An element carrying [data-upsell-dismiss]: the value of the attribute
    and the item [button.closest('.cart-upsell__item')] finds, if any. *)
Record DismissButton := mkDismissButton {
  db_product : string;
  db_item : option nat
}.

(** The cart upsell component: for each [.cart-upsell__item], in document
    order, whether its style attribute contains [display: none]; the
    elements carrying [data-upsell-dismiss]; whether the component's own
    [style.display] is ['none']; and the session. *)
Record CartUpsell := mkCartUpsell {
  cu_items : list bool;
  cu_buttons : list DismissButton;
  cu_hidden : bool;
  cu_session : Session
}.

Module CartUpsellItems.
Import JS CartUpsellComponent.

(** [checkAndHideComponent()]: the selector
    [.cart-upsell__item:not([style*="display: none"])] finds nothing. *)
Definition checkAndHideComponent (c : CartUpsell) : CartUpsell :=
  if forallb id (cu_items c) then
    {| cu_items := cu_items c; cu_buttons := cu_buttons c;
       cu_hidden := true; cu_session := cu_session c |}
  else c.

(** [hideItem(item)]; setting [item.style.display = 'none'] makes the style
    attribute read [display: none;]. *)
Definition hideItem (item : nat) (c : CartUpsell) : CartUpsell :=
  checkAndHideComponent
    {| cu_items := <[item := true]> (cu_items c); cu_buttons := cu_buttons c;
       cu_hidden := cu_hidden c; cu_session := cu_session c |}.

(** The body of the [forEach] of [hideDismissedItems]. *)
Definition hide_if_dismissed (c : CartUpsell) (button : DismissButton) : CartUpsell :=
  if truthy (db_product button) && isDismissed (db_product button) (cu_session c) then
    match db_item button with
    | Some item => hideItem item c
    | None => c
    end
  else c.

Definition hideDismissedItems (c : CartUpsell) : CartUpsell :=
  checkAndHideComponent (fold_left hide_if_dismissed (cu_buttons c) c).

(** [ensureFlagElement()]: the flag element is created when missing, then
    given the dismissed products. *)
Definition ensureFlagElement (s : Session) : Session :=
  updateFlagElement
    match flag s with
    | Some _ => s
    | None => {| stored := stored s; storage_full := storage_full s; flag := Some [] |}
    end.

(** [connectedCallback()], the observer apart. *)
Definition connectedCallback (c : CartUpsell) : CartUpsell :=
  hideDismissedItems
    {| cu_items := cu_items c; cu_buttons := cu_buttons c;
       cu_hidden := cu_hidden c; cu_session := ensureFlagElement (cu_session c) |}.

Definition save (productId : string) (c : CartUpsell) : CartUpsell :=
  {| cu_items := cu_items c; cu_buttons := cu_buttons c;
     cu_hidden := cu_hidden c;
     cu_session := saveDismissedState productId (cu_session c) |}.

(** [handleDismiss(event)]: [productId] is the clicked element's
    [data-upsell-dismiss] attribute, [item] its closest item. *)
Definition handleDismiss (productId : option string) (item : option nat)
    (c : CartUpsell) : CartUpsell :=
  match item, productId with
  | Some i, Some id => if truthy id then save id (hideItem i c) else c
  | _, _ => c
  end.

(** [processAddToCart(button, productId, variantId, item)]; [added] tells
    whether [addToCart] went through (the request answered with an OK
    status and a JSON body).  The button's state is not modelled. *)
Definition processAddToCart (added : bool) (productId : string) (item : nat)
    (c : CartUpsell) : CartUpsell :=
  if added then save productId (hideItem item c) else c.

(** [handleAddToCart(event)]: the attributes [data-product-id] and
    [data-variant-id] of the clicked element, and its closest item. *)
Definition handleAddToCart (added : bool) (productId variantId : option string)
    (item : option nat) (c : CartUpsell) : CartUpsell :=
  if negb (truthy_opt productId) || negb (truthy_opt variantId) then c
  else
    match item, productId with
    | Some i, Some id => processAddToCart added id i c
    | _, _ => c
    end.

End CartUpsellItems.


(** ** The app block at submit time ([product-form.js]) *)

Module AppBlock.
Import JS ProductForm.







End AppBlock.


(** ** The specification's wording of the match score

    The score as the specification words it, kept apart from the code's
    [calculateMatchScore] so that the two can be compared: one denominator
    unit per upsell option position whose option name is present in the main
    option mapping, one numerator unit when the candidate's value at that
    position and the mapped value agree case-insensitively. *)

Module Worded.
Import JS VariantMatcher.

Definition worded_step (candidate : Variant) (mainOptionMap : gmap string string)
    (acc : counters) (optionName : string) (position : nat) : counters :=
  let '(numerator, denominator) := acc in
  match mainOptionMap !! optionName with
  | Some mainValue =>
      if bool_decide (toLowerCase <$> (v_options candidate !! position)
                      = Some (toLowerCase mainValue))
      then (S numerator, S denominator)
      else (numerator, S denominator)
  | None => acc
  end.

Definition scoreVariant (candidate : Variant) (upsellOptionNames : list string)
    (mainOptionMap : gmap string string) : Qc :=
  ratio (reduce_indexed (worded_step candidate mainOptionMap) 0
           upsellOptionNames (0, 0)%nat).

End Worded.

(** ** What the loop of [calculateMatchScore] counts *)

Module Counting.
Import JS VariantMatcher.

(** Position [i] is comparable: the candidate carries a non-empty value
    there and the option name at [i] has a non-empty value in the main
    option mapping. *)
Definition comparable (candidate : Variant) (names : list string)
    (main : gmap string string) (i : nat) : bool :=
  match names !! i with
  | Some optionName =>
      truthy_opt (v_options candidate !! i) && truthy_opt (main !! optionName)
  | None => false
  end.

(** Position [i] is comparable and the two values agree up to case. *)
Definition agrees (candidate : Variant) (names : list string)
    (main : gmap string string) (i : nat) : bool :=
  match names !! i with
  | Some optionName =>
      comparable candidate names main i
      && bool_decide (toLowerCase <$> (v_options candidate !! i)
                      = toLowerCase <$> (main !! optionName))
  | None => false
  end.

Definition denominator (candidate : Variant) (names : list string)
    (main : gmap string string) : nat :=
  length (List.filter (comparable candidate names main) (seq 0 (length names))).

Definition numerator (candidate : Variant) (names : list string)
    (main : gmap string string) : nat :=
  length (List.filter (agrees candidate names main) (seq 0 (length names))).

End Counting.

(** ** The vocabulary of the properties

    The predicates and functions in which the properties below are stated. *)

Section Vocabulary.
Import JS VariantMatcher HideConditionManager UpsellProducts ProductForm.
Import UdoPaintsEditorManager.

(** [v], at index [i] of [vs], has the highest score, and every earlier
    candidate scores strictly less: the first-encountered best. *)
Definition first_best {A : Type} (score : A -> Qc) (vs : list A)
    (i : nat) (v : A) : Prop :=
  vs !! i = Some v
  /\ (forall j w, vs !! j = Some w -> (score w <= score v)%Qc)
  /\ (forall j w, j < i -> vs !! j = Some w -> (score w < score v)%Qc).

(** The variant list of upsell product [pid]: [upsellVariants[pid] || []]. *)
Definition candidates (upsellVariants : gmap string (list Variant))
    (pid : string) : list Variant :=
  default [] (upsellVariants !! pid).

(** The score [findBestMatchingUpsellVariant] gives a candidate of [pid]. *)
Definition score_of (main : gmap string string)
    (upsellOptions : gmap string (list string)) (pid : string)
    (v : Variant) : Qc :=
  calculateMatchScore v (default [] (upsellOptions !! pid)) main.

(** The last option of the list that carries the name [name]: a later
    assignment to [acc[option.name]] overwrites an earlier one. *)
Fixpoint last_named (name : string) (options : list ProductOption)
    : option ProductOption :=
  match options with
  | [] => None
  | o :: rest =>
      match last_named name rest with
      | Some o' => Some o'
      | None => if bool_decide (o_name o = name) then Some o else None
      end
  end.

(** The [name:value[list]] shape of one entry, with its three parts: a
    non-empty name free of [:], a non-empty value free of the opening
    bracket, a non-empty list free of the closing bracket, which ends the
    entry.  This is the language of the regular expression of
    [parseSingleCondition]. *)
Definition shape (entry name value names : string) : Prop :=
  entry = (name ++ ":" ++ value ++ "[" ++ names ++ "]")%string
  /\ name <> "" /\ occurs ":" name = false
  /\ value <> "" /\ occurs "[" value = false
  /\ names <> "" /\ occurs "]" names = false.

(** The record an entry of that shape stands for. *)
Definition condition_of (name value names : string) : HideCondition :=
  {| optionName := toLowerCase (trim name);
     optionValue := toLowerCase (trim value);
     upsellProducts := product_names names |}.

(** The records a list of entries stands for: one per entry that has the
    shape, in order; the other entries are passed over. *)
Inductive parses_to : list string -> list HideCondition -> Prop :=
| parses_done : parses_to [] []
| parses_entry entry name value names entries conditions :
    shape entry name value names ->
    parses_to entries conditions ->
    parses_to (entry :: entries) (condition_of name value names :: conditions)
| parses_skip entry entries conditions :
    (forall name value names, ~ shape entry name value names) ->
    parses_to entries conditions ->
    parses_to (entry :: entries) conditions.

(** What can happen to the upsell items: the component hides or shows one,
    or the shopper clicks the checkbox of an item that is displayed (an item
    with display [none] cannot be clicked). *)
Inductive Action :=
| Hide (upsellId : option string) (item : option nat)
| Show (upsellId : option string) (item : option nat)
| Click (item : nat).

Definition click (h : nat) (c : Component) : Component :=
  match items c !! h with
  | Some it =>
      match checkbox it with
      | Some checked =>
          if String.eqb (computed_display it) "none" then c
          else {| items := <[h := set_checked (negb checked) it]> (items c);
                  checkboxes := checkboxes c;
                  hiddenUpsellProducts := hiddenUpsellProducts c;
                  originalDisplayValue := originalDisplayValue c;
                  dispatched := dispatched c ++ [(h, "change")] |}
      | None => c
      end
  | None => c
  end.

Definition act (c : Component) (a : Action) : Component :=
  match a with
  | Hide upsellId item => hideUpsellProduct upsellId item c
  | Show upsellId item => showUpsellProduct upsellId item c
  | Click h => click h c
  end.

(** No item with display [none] is checked, and the display kept for
    restoring is not [none]. *)
Definition hidden_unchecked (c : Component) : Prop :=
  originalDisplayValue c <> Some "none"
  /\ forall h it, items c !! h = Some it ->
       style_display it = "none" -> checkbox it <> Some true.

(** The keys of an object, in enumeration order. *)
Definition keys (o : JObject) : list string := map fst o.

(** The line item made from a prefixed field with suffix [suffix] and value
    [value], for a main product titled [title]. *)
Definition line_item (title : JVal) (suffix : string) (value : JVal) : UpsellProduct :=
  {| up_id := suffix;
     up_title := value;
     up_quantity := 1;
     up_properties := [("Product", title)] |}.

(** Whether a field with the upsell prefix occurs in a value, at its top
    level or inside a nested object. *)
Fixpoint carries_upsell_field (v : JVal) : bool :=
  match v with
  | VStr _ => false
  | VBool _ => false
  | VObj entries =>
      (fix scan (l : list (string * JVal)) : bool :=
         match l with
         | [] => false
         | (k, v') :: l' => is_upsell_key k || carries_upsell_field v' || scan l'
         end) entries
  end.

(** The extraction as the specification states it, for one form-data
    object: every prefixed field has its line item, and the primary payload
    carries no prefixed field any more. *)
Definition extracted_and_stripped (form : JObject) : Prop :=
  (forall suffix value,
      ((UPSELL_PRODUCT_PREFIX ++ suffix)%string, value) ∈ form ->
      exists item, item ∈ snd (detectUpsellProducts form)
                   /\ up_id item = suffix /\ up_title item = value
                   /\ up_quantity item = 1%Z)
  /\ carries_upsell_field (VObj (fst (detectUpsellProducts form))) = false.

(** The queue of a manager is sound: its callbacks resolve pairwise distinct
    promises, all of them still pending. *)
Definition queue_sound (b : Bridge) : Prop :=
  NoDup (fst <$> readyCallbacks b)
  /\ forall q m, (q, m) ∈ readyCallbacks b -> promises b !! q = Some Pending.

End Vocabulary.

(** ** Sample data

    The concrete products, forms and sessions the examples run on. *)

Section Samples.
Import JS VariantMatcher HideConditionManager UpsellProducts ProductForm.
Import UdoPaintsEditorManager.

Definition sample_variant (id : string) (options : list string) : Variant :=
  mkVariant id id id options 1000 None.

Definition main_large_red : gmap string string :=
  <["Size" := "Large"]> (<["Color" := "Red"]> ∅).

Definition gift_variants : list Variant :=
  [ sample_variant "g1" ["large"; "Blue"];
    sample_variant "g2" ["LARGE"; "red"];
    sample_variant "g3" ["Large"; "Red"] ].

Definition gift_upsellVariants : gmap string (list Variant) :=
  <["gift" := gift_variants]> (<["none" := []]> ∅).

Definition gift_upsellOptions : gmap string (list string) :=
  <["gift" := ["Size"; "Color"]]> ∅.

Definition shirt_options : list ProductOption :=
  [ mkOption "Size" 1 ["Small"; "Large"]; mkOption "Color" 2 ["Red"; "Blue"] ].

Definition shirt_variants : list Variant :=
  [ sample_variant "40" ["Small"; "Blue"]; sample_variant "41" ["Large"; "Red"] ].

Definition sample_conditions : string :=
  "Size:Large[Gift Wrap, Extra Brush]; Color:Red[Gift Wrap]".

Definition flex_item_checked : Item := mkItem "flex" "" (Some true).

Definition grid_item : Item := mkItem "grid" "" (Some false).

Definition two_items : Component :=
  {| items := [flex_item_checked; grid_item];
     checkboxes := [(Some "u1", Some 0%nat); (Some "u2", Some 1%nat)];
     hiddenUpsellProducts := ∅;
     originalDisplayValue := None;
     dispatched := [] |}.

Definition form_without_title : JObject :=
  [ ("id", VStr "41"); ("quantity", VStr "1");
    ("_upsell_variant_77", VStr "Gift Wrap") ].

Definition form_with_title : JObject :=
  [ ("id", VStr "41"); ("product-title", VStr "Canvas");
    ("_upsell_variant_77", VStr "Gift Wrap");
    ("properties", VObj [("_feature", VStr "editor")]);
    ("_upsell_variant_78", VStr "Extra Brush") ].

Definition throwing_editor (m : Method) : Outcome := Throws (Some "boom").

(** An editor whose methods reject with no value, as [Promise.reject()]. *)
Definition nullish_editor (m : Method) : Outcome := ThrowsNullish.

(** The wording of one engine for a call on a missing editor. *)
Definition sample_type_error (m : Method) : string :=
  ("Cannot read properties of undefined (reading '" ++ method_name m ++ "')")%string.

Definition empty_session : Session :=
  {| stored := Absent; storage_full := false; flag := Some [] |}.

End Samples.

(** ** Further vocabulary

    The terms in which the further properties of the code are stated, and
    the data their examples run on. *)

Section NormalFormsTerms.
Import JS HideConditionManager.

(** A string that does not begin with white space. *)
Definition starts_clean (s : string) : bool :=
  match s with
  | EmptyString => true
  | String c _ => negb (is_space c)
  end.

End NormalFormsTerms.

Section VisibilityStepsTerms.
Import JS UpsellProducts.

(** Item [h] exists and has the inline display [none]. *)
Definition display_none (c : Component) (h : nat) : Prop :=
  exists it, items c !! h = Some it /\ style_display it = "none".

(** Item [h] exists, has the inline display [none] and is not checked. *)
Definition hidden_item (c : Component) (h : nat) : Prop :=
  exists it, items c !! h = Some it /\ style_display it = "none"
             /\ checkbox it <> Some true.

(** Every checkbox of the component lies in an item of the component. *)
Definition all_in_items (c : Component) : Prop :=
  forall entry, entry ∈ checkboxes c ->
    exists h, snd entry = Some h /\ h < length (items c).

(** The display [showUpsellProduct] gives an item: the kept value, or
    [block] when none is kept. *)
Definition restored_display (c : Component) : string :=
  match originalDisplayValue c with
  | Some value => if truthy value then value else "block"
  | None => "block"
  end.

(** [hideUpsellProduct] takes effect: the element exists and the id is
    non-empty. *)
Definition hides (c : Component) (upsellId : option string) (item : option nat)
    (h : nat) : Prop :=
  item = Some h /\ h < length (items c) /\ exists id, upsellId = Some id /\ id <> "".

End VisibilityStepsTerms.

Section ShowStepsTerms.
Import JS UpsellProducts.

(** Whether some entry of the list points at item [h]. *)
Definition listed (entries : list (option string * option nat)) (h : nat) : bool :=
  existsb (fun entry => bool_decide (snd entry = Some h)) entries.

End ShowStepsTerms.

Section HideAllTerms.
Import JS UpsellProducts.


End HideAllTerms.

Section HideAllExamplesTerms.
Import JS UpsellProducts.


End HideAllExamplesTerms.

Section HideByNameTerms.
Import JS UpsellProducts HideConditionCheck UpsellVisibility.

Variable productName : nat -> option string.

(** Entry [entry] is a checkbox with a non-empty upsell id in item [h],
    whose heading names the product [upsellProductName]. *)
Definition entry_names (upsellProductName : string)
    (entry : option string * option nat) (h : nat) : Prop :=
  exists id text, entry = (Some id, Some h) /\ id <> ""
                  /\ productName h = Some text
                  /\ names_item text upsellProductName = true.

(** The state a by-name hide runs in: [n] items, the checkboxes [boxes]. *)
Definition framed (n : nat) (boxes : list (option string * option nat))
    (c : Component) : Prop :=
  length (items c) = n /\ checkboxes c = boxes.

Definition in_item (n : nat) (entry : option string * option nat) : Prop :=
  exists h, snd entry = Some h /\ h < n.

(** Item [h] is named by a product name of condition [condition], which the
    normalized options trigger. *)
Definition condition_hides (normalizedOptions : gmap string string)
    (boxes : list (option string * option nat)) (condition : HideCondition)
    (h : nat) : Prop :=
  triggered normalizedOptions condition = true
  /\ exists upsellProductName, upsellProductName ∈ upsellProducts condition
       /\ exists entry, entry ∈ boxes /\ entry_names upsellProductName entry h.

End HideByNameTerms.

Section HideByNameExamplesTerms.
Import JS UpsellProducts HideConditionManager HideConditionCheck UpsellVisibility.

(** The headings of the two sample items. *)
Definition sample_headings (h : nat) : option string :=
  match h with
  | 0 => Some " Gift Wrap "
  | 1 => Some "Extra Brush"
  | _ => None
  end.

End HideByNameExamplesTerms.

Section HiddenInputsTerms.
Import JS ProductForm UpsellForm.

(** The variants of the selected upsells: checked, not hidden, and matched
    to a variant. *)
Definition selected_variants (hidden : gset string) (best : list Selection)
    : list Variant :=
  omap sel_variant (List.filter (selected hidden) best).

End HiddenInputsTerms.

Section SubmittedUpsellsTerms.
Import JS ProductForm UpsellForm.

(** The form-data entry of the hidden input of a variant. *)
Definition upsell_entry (v : Variant) : string * JVal :=
  ((UPSELL_PRODUCT_PREFIX ++ v_id v)%string, VStr (v_name v)).

End SubmittedUpsellsTerms.

Section SubmittedUpsellsExamplesTerms.
Import JS ProductForm UpsellForm.

Definition sample_selection : list Selection :=
  [ mkSelection true (Some "u1") (Some (sample_variant "g2" ["LARGE"; "red"]));
    mkSelection false (Some "u2") (Some (sample_variant "b1" ["Small"]));
    mkSelection true (Some "u3") (Some (sample_variant "c7" []));
    mkSelection true (Some "u4") None ].

Definition sample_form : list Control :=
  [ mkControl "id" "41" true; mkControl "product-title" "Canvas" true;
    mkControl "_upsell_variant_old" "Stale" true; mkControl "quantity" "1" true ].

End SubmittedUpsellsExamplesTerms.

Section CartUpdateTerms.
Import JS UpsellProducts UpsellVisibility ProductForm UpsellForm.

(** The item with its checkbox unchecked, if it was checked. *)
Definition unchecked (it : Item) : Item :=
  match checkbox it with
  | Some true => set_checked false it
  | _ => it
  end.

(** The listener of [ThemeEvents.cartUpdate]: the checked upsells are
    cleared and the hidden inputs removed. *)
Definition onCartUpdate (state : Component * option (list Control))
    : Component * option (list Control) :=
  (clearCheckedUpsellProducts (fst state), removeExistingUpsellInputs (snd state)).

End CartUpdateTerms.

Section ManagerStatesTerms.
Import JS ProductForm UdoPaintsEditorManager.

(** What can happen to the manager: a wrapper is called, its timer fires,
    or the page changes [window.UdoPaintsEditor]. *)
Inductive BridgeAction :=
| Call (m : Method)
| Tick
| SetEditor (ed : option (Method -> Outcome)).

Definition bridge_act (b : Bridge) (a : BridgeAction) : Bridge :=
  match a with
  | Call m => fst (call m b)
  | Tick => tick b
  | SetEditor ed => set_editor ed b
  end.

(** The two states of a manager: ready, with an empty queue and no timer;
    or waiting, with its timer armed. *)
Definition manager_state (b : Bridge) : Prop :=
  (isReady b = true /\ readyCallbacks b = [] /\ timer_armed b = false)
  \/ (isReady b = false /\ timer_armed b = true).

(** What the callback of a call of [m] resolves its promise to. *)
Definition answer (methods : Method -> Outcome) (m : Method) : Promise :=
  match methods m with
  | Fulfils result => Resolved result
  | Throws message => Resolved (failure m message)
  | ThrowsNullish => Pending
  | Pends => Pending
  end.

End ManagerStatesTerms.

Section ExportCheckTerms.
Import JS ProductForm UdoPaintsEditorManager EditorWait.

(** [checkReadyToExport()] of the upsell component run against the manager
    [b]: the manager's [isReadyToExport] wrapper is called only when the
    manager is ready, and its promise is awaited. *)
Definition checkReadyToExport_on (current : bool) (b : Bridge) : option (bool * bool) :=
  if isReady b then
    let '(b', p) := call isReadyToExport b in
    checkReadyToExport current true (default Pending (promises b' !! p))
  else checkReadyToExport current false Pending.

End ExportCheckTerms.

Section CartUpsellDomTerms.
Import JS CartUpsellComponent CartUpsellItems.

(** A button that makes [hideDismissedItems] hide item [j] in session [s]. *)
Definition hides_item (s : Session) (j : nat) (button : DismissButton) : Prop :=
  truthy (db_product button) = true
  /\ isDismissed (db_product button) s = true
  /\ db_item button = Some j.

Definition sample_cart_upsell : CartUpsell :=
  {| cu_items := [false; false];
     cu_buttons := [ {| db_product := "11"; db_item := Some 0 |};
                     {| db_product := "22"; db_item := Some 1 |} ];
     cu_hidden := false;
     cu_session := empty_session |}.

End CartUpsellDomTerms.

(** * Properties *)

Section MatchScore.
Import JS VariantMatcher Counting.

Lemma lookup_middle_here (pre : list string) (x : string) (l : list string) :
  (pre ++ x :: l) !! length pre = Some x.
Proof. by rewrite list_lookup_middle. Qed.

Lemma score_loop_counts (candidate : Variant) (main : gmap string string)
    (l pre : list string) (m t : nat) :
  reduce_indexed (score_step candidate main) (length pre) l (m, t)
  = (m + length (List.filter (agrees candidate (pre ++ l) main)
                   (seq (length pre) (length l))),
     t + length (List.filter (comparable candidate (pre ++ l) main)
                   (seq (length pre) (length l))))%nat.
Proof.
  revert pre m t. induction l as [|x l IH]; intros pre m t.
  - simpl. f_equal; lia.
  - cbn [reduce_indexed length seq List.filter].
    replace (pre ++ x :: l) with ((pre ++ [x]) ++ l) by (by rewrite <- app_assoc).
    assert (Hlen : S (length pre) = length (pre ++ [x]))
      by (rewrite length_app; simpl; lia).
    assert (Hx : ((pre ++ [x]) ++ l) !! length pre = Some x)
      by (rewrite <- app_assoc; apply lookup_middle_here).
    unfold agrees at 1, comparable at 2. unfold comparable at 1. rewrite Hx.
    unfold score_step at 2.
    destruct (truthy_opt (v_options candidate !! length pre)
              && truthy_opt (main !! x)) eqn:Hc; cbn [andb].
    + destruct (bool_decide _) eqn:Hd; rewrite Hlen, IH; cbn [length]; f_equal; lia.
    + rewrite Hlen, IH. reflexivity.
Qed.

Lemma score_counters_spec (candidate : Variant) (names : list string)
    (main : gmap string string) :
  score_counters candidate names main
  = (numerator candidate names main, denominator candidate names main).
Proof.
  unfold score_counters, numerator, denominator.
  apply (score_loop_counts candidate main names [] 0 0).
Qed.

Lemma agrees_comparable candidate names main i :
  agrees candidate names main i = true -> comparable candidate names main i = true.
Proof.
  unfold agrees. destruct (names !! i); [|done].
  intros H. apply andb_true_iff in H. tauto.
Qed.

Lemma filter_length_le {A : Type} (p q : A -> bool) (l : list A) :
  (forall x, p x = true -> q x = true) ->
  length (List.filter p l) <= length (List.filter q l).
Proof.
  intros Hpq. induction l as [|x l IH]; simpl; [lia|].
  destruct (p x) eqn:Hp.
  - rewrite (Hpq x Hp). simpl. lia.
  - destruct (q x); simpl; lia.
Qed.

Lemma numerator_le_denominator candidate names main :
  numerator candidate names main <= denominator candidate names main.
Proof. apply filter_length_le, agrees_comparable. Qed.

Lemma Qc_of_nat_nonzero (n : nat) : 0 < n -> Qc_of_nat n <> Qc_of_nat 0.
Proof.
  intros Hn Heq. unfold Qc_of_nat in Heq. apply Q2Qc_eq_iff in Heq.
  unfold Qeq in Heq. simpl in Heq. lia.
Qed.

Lemma ratio_full (n : nat) : 0 < n -> ratio (n, n) = Qc_of_nat 100.
Proof.
  intros Hn. unfold ratio.
  destruct (Nat.ltb_spec 0 n) as [_|]; [|lia].
  unfold Qcdiv. rewrite Qcmult_inv_r by (apply Qc_of_nat_nonzero, Hn).
  apply Qcmult_1_l.
Qed.

Lemma ratio_none (t : nat) : ratio (0, t)%nat = Qc_of_nat 0.
Proof.
  unfold ratio. destruct (0 <? t)%nat; [|done].
  unfold Qcdiv. change (Qc_of_nat 0) with 0%Qc. by rewrite !Qcmult_0_l.
Qed.

Lemma ratio_no_options (m : nat) : ratio (m, 0)%nat = Qc_of_nat 0.
Proof. reflexivity. Qed.

Lemma ratio_half : ratio (1, 2)%nat = Qc_of_nat 50.
Proof. apply Qc_is_canon. reflexivity. Qed.

End MatchScore.

Section MatchScoreClaims.
Import JS VariantMatcher Counting.

(** C2 (as amended).  For every candidate variant, list of upsell option
    names and main option mapping, [calculateMatchScore] counts one
    denominator unit per upsell option position at which the candidate
    carries a non-empty value and whose option name has a non-empty value in
    the main option mapping ([denominator]), one numerator unit when these
    two values agree case-insensitively ([numerator]), and returns
    numerator / denominator x 100; that is 100 when every comparable option
    agrees, 50 for 1 of 2, and 0 when none agrees or when the denominator
    is 0. *)
Theorem calculateMatchScore_counts (candidate : Variant) (names : list string)
    (main : gmap string string) :
  numerator candidate names main <= denominator candidate names main
  /\ calculateMatchScore candidate names main
     = (if (0 <? denominator candidate names main)%nat
        then (Qc_of_nat (numerator candidate names main)
              / Qc_of_nat (denominator candidate names main)
              * Qc_of_nat 100)%Qc
        else Qc_of_nat 0)
  /\ (0 < denominator candidate names main ->
      numerator candidate names main = denominator candidate names main ->
      calculateMatchScore candidate names main = Qc_of_nat 100)
  /\ (numerator candidate names main = 1%nat ->
      denominator candidate names main = 2%nat ->
      calculateMatchScore candidate names main = Qc_of_nat 50)
  /\ (numerator candidate names main = 0%nat ->
      calculateMatchScore candidate names main = Qc_of_nat 0)
  /\ (denominator candidate names main = 0%nat ->
      calculateMatchScore candidate names main = Qc_of_nat 0).
Proof.
  unfold calculateMatchScore. rewrite score_counters_spec.
  split; [apply numerator_le_denominator|].
  split; [reflexivity|].
  split; [intros Hpos ->; by apply ratio_full|].
  split; [intros -> ->; apply ratio_half|].
  split; [intros ->; apply ratio_none|].
  intros ->; apply ratio_no_options.
Qed.

Lemma calculateMatchScore_counts_witness :
  calculateMatchScore (sample_variant "v1" ["L"; "Blue"]) ["Size"; "Color"]
    (<["Size" := "l"]> (<["Color" := "Red"]> ∅))
  = Qc_of_nat 50.
Proof.
  apply (calculateMatchScore_counts (sample_variant "v1" ["L"; "Blue"])
           ["Size"; "Color"] (<["Size" := "l"]> (<["Color" := "Red"]> ∅)));
    vm_compute; reflexivity.
Defined.

(** C2 as stated fails: with the option name "Color" present in the main
    mapping, the wording counts two denominator units and gives 50, while
    the code leaves out a position where the candidate has no value, or
    where the mapped value is the empty string, and gives 100. *)
Lemma calculateMatchScore_presence_counterexample :
  calculateMatchScore (sample_variant "v1" ["L"]) ["Size"; "Color"]
    (<["Size" := "L"]> (<["Color" := "Red"]> ∅))
  <> Worded.scoreVariant (sample_variant "v1" ["L"]) ["Size"; "Color"]
       (<["Size" := "L"]> (<["Color" := "Red"]> ∅))
  /\ calculateMatchScore (sample_variant "v1" ["L"; "Red"]) ["Size"; "Color"]
       (<["Size" := "L"]> (<["Color" := ""]> ∅))
     <> Worded.scoreVariant (sample_variant "v1" ["L"; "Red"]) ["Size"; "Color"]
          (<["Size" := "L"]> (<["Color" := ""]> ∅)).
Proof.
  assert (Hdiff : Qc_of_nat 100 <> Qc_of_nat 50).
  { intros H. apply Q2Qc_eq_iff in H. discriminate H. }
  split.
  - replace (calculateMatchScore _ _ _) with (Qc_of_nat 100)
      by (apply Qc_is_canon; vm_compute; reflexivity).
    replace (Worded.scoreVariant _ _ _) with (Qc_of_nat 50)
      by (apply Qc_is_canon; vm_compute; reflexivity).
    exact Hdiff.
  - replace (calculateMatchScore _ _ _) with (Qc_of_nat 100)
      by (apply Qc_is_canon; vm_compute; reflexivity).
    replace (Worded.scoreVariant _ _ _) with (Qc_of_nat 50)
      by (apply Qc_is_canon; vm_compute; reflexivity).
    exact Hdiff.
Qed.

(** The two inputs of the counterexample, evaluated: the code gives 100
    where the wording gives 50. *)
Example score_missing_value :
  calculateMatchScore (sample_variant "v1" ["L"]) ["Size"; "Color"]
    (<["Size" := "L"]> (<["Color" := "Red"]> ∅)) = Qc_of_nat 100
  /\ Worded.scoreVariant (sample_variant "v1" ["L"]) ["Size"; "Color"]
       (<["Size" := "L"]> (<["Color" := "Red"]> ∅)) = Qc_of_nat 50
  /\ calculateMatchScore (sample_variant "v1" ["L"; "Red"]) ["Size"; "Color"]
       (<["Size" := "L"]> (<["Color" := ""]> ∅)) = Qc_of_nat 100
  /\ Worded.scoreVariant (sample_variant "v1" ["L"; "Red"]) ["Size"; "Color"]
       (<["Size" := "L"]> (<["Color" := ""]> ∅)) = Qc_of_nat 50.
Proof. repeat split; apply Qc_is_canon; vm_compute; reflexivity. Qed.

End MatchScoreClaims.

Section BestMatch.
Import JS VariantMatcher.

(** The [reduce] of [findBestMatchingUpsellVariant] either keeps its seed,
    when no element beats it, or ends on the first best element. *)
Lemma reduce_better (l : list Scored) (seed : Scored) :
  (fold_left better l seed = seed
   /\ forall j x, l !! j = Some x -> (matchScore x <= matchScore seed)%Qc)
  \/ (exists i, first_best matchScore l i (fold_left better l seed)
                /\ (matchScore seed < matchScore (fold_left better l seed))%Qc).
Proof.
  revert seed. induction l as [|x l IH]; intros seed.
  - left. split; [done|]. intros j y Hj. by rewrite lookup_nil in Hj.
  - cbn [fold_left].
    destruct (bool_decide (matchScore seed < matchScore x)%Qc) eqn:Hlt.
    + assert (Hb : better seed x = x) by (unfold better; by rewrite Hlt).
      rewrite Hb. apply bool_decide_eq_true in Hlt.
      right. destruct (IH x) as [[Heq Hle]|[i [(Hi & Hmax & Hfirst) Hgt]]].
      * exists 0%nat. rewrite Heq. split; [split; [done|split]|done].
        -- intros [|j] w Hj; simpl in Hj; [injection Hj as <-; apply Qcle_refl|].
           by apply (Hle j).
        -- intros j w Hj. lia.
      * exists (S i). split; [split; [exact Hi|split]|].
        -- intros [|j] w Hj; simpl in Hj; [injection Hj as <-|by apply (Hmax j)].
           by apply Qclt_le_weak.
        -- intros [|j] w Hj Hw; simpl in Hw; [by injection Hw as <-|].
           apply (Hfirst j); [lia|done].
        -- by apply Qclt_trans with (matchScore x).
    + assert (Hb : better seed x = seed) by (unfold better; by rewrite Hlt).
      rewrite Hb. apply bool_decide_eq_false in Hlt. apply Qcnot_lt_le in Hlt.
      destruct (IH seed) as [[Heq Hle]|[i [(Hi & Hmax & Hfirst) Hgt]]].
      * left. split; [done|].
        intros [|j] w Hj; simpl in Hj; [by injection Hj as <-|by apply (Hle j)].
      * right. exists (S i). split; [split; [exact Hi|split]|done].
        -- intros [|j] w Hj; simpl in Hj; [injection Hj as <-|by apply (Hmax j)].
           apply Qclt_le_weak. by apply Qcle_lt_trans with (matchScore seed).
        -- intros [|j] w Hj Hw; simpl in Hw; [injection Hw as <-|].
           ++ by apply Qcle_lt_trans with (matchScore seed).
           ++ apply (Hfirst j); [lia|done].
Qed.

(** With pairwise distinct ids, looking a variant up by its id finds it. *)
Lemma find_by_id (vs : list Variant) (i : nat) (v : Variant) :
  NoDup (v_id <$> vs) -> vs !! i = Some v ->
  List.find (fun w => bool_decide (Some (v_id w) = Some (v_id v))) vs = Some v.
Proof.
  revert i. induction vs as [|w vs IH]; intros i Hnd Hi; [by rewrite lookup_nil in Hi|].
  rewrite fmap_cons in Hnd. apply list.NoDup_cons in Hnd as [Hw Hnd].
  cbn [List.find]. destruct i as [|i]; simpl in Hi.
  - injection Hi as ->. by rewrite bool_decide_eq_true_2.
  - rewrite bool_decide_eq_false_2; [by apply (IH i)|].
    intros Heq. injection Heq as Heq. apply Hw. rewrite Heq.
    apply list_elem_of_fmap. exists v. split; [done|].
    apply list_elem_of_lookup. by exists i.
Qed.

Lemma find_no_id (vs : list Variant) :
  List.find (fun w => bool_decide (Some (v_id w) = None)) vs = None.
Proof. induction vs as [|w vs IH]; [done|]. simpl. exact IH. Qed.

End BestMatch.

Section BestMatchClaim.
Import JS VariantMatcher.

Lemma truthy_nonempty (s : string) : s <> "" -> truthy s = true.
Proof. destruct s; [congruence|reflexivity]. Qed.

Lemma map_is_fmap {A B : Type} (f : A -> B) (l : list A) : map f l = f <$> l.
Proof. induction l as [|x l IH]; [done|]. simpl. by rewrite IH. Qed.

(** C1.  For an upsell product (a non-empty product id whose variants carry
    pairwise distinct ids), [findBestMatchVariant] returns null exactly when
    the product's variant list is empty; when no candidate scores above 0 it
    returns the first variant of the list; otherwise it returns the
    candidate with the highest score, the first-encountered one among
    equals. *)
Theorem findBestMatchVariant_selects (main : gmap string string) (pid : string)
    (upsellVariants : gmap string (list Variant))
    (upsellOptions : gmap string (list string)) :
  pid <> "" ->
  NoDup (v_id <$> candidates upsellVariants pid) ->
  (findBestMatchVariant main (Some pid) upsellVariants upsellOptions = None
   <-> candidates upsellVariants pid = [])
  /\ ((forall v, v ∈ candidates upsellVariants pid ->
                 (score_of main upsellOptions pid v <= Qc_of_nat 0)%Qc) ->
      findBestMatchVariant main (Some pid) upsellVariants upsellOptions
      = head (candidates upsellVariants pid))
  /\ ((exists v, v ∈ candidates upsellVariants pid
                 /\ (Qc_of_nat 0 < score_of main upsellOptions pid v)%Qc) ->
      exists i v,
        findBestMatchVariant main (Some pid) upsellVariants upsellOptions = Some v
        /\ first_best (score_of main upsellOptions pid)
             (candidates upsellVariants pid) i v).
Proof.
  intros Hpid Hnd.
  unfold findBestMatchVariant, findBestMatchingUpsellVariant, candidates in *.
  rewrite (truthy_nonempty pid Hpid). cbn [negb].
  destruct (upsellVariants !! pid) as [vs|] eqn:Hvs; cbn [default from_option id mbind option_bind] in *.
  2:{ split; [done|]. split; [done|]. intros (v & Hv & _). by apply elem_of_nil in Hv. }
  destruct vs as [|v0 vs'] eqn:Hshape.
  { split; [done|]. split; [done|]. intros (v & Hv & _). by apply elem_of_nil in Hv. }
  rewrite <- Hshape in *. replace (length vs =? 0)%nat with false
    by (subst vs; reflexivity).
  match goal with |- context [fold_left better ?l _] => set (scored := l) end.
  set (seed := {| variantId := None; matchScore := Qc_of_nat 0 |}).
  assert (Hscored : forall j w, vs !! j = Some w ->
            scored !! j = Some {| variantId := Some (v_id w);
                                  matchScore := score_of main upsellOptions pid w |}).
  { intros j w Hj. unfold scored. rewrite map_is_fmap, list_lookup_fmap, Hj. done. }
  pose proof (reduce_better scored seed) as Hreduce.
  set (r := fold_left better scored seed) in *. clearbody r.
  destruct Hreduce as [[Heq Hle]|[i [(Hi & Hmax & Hfirst) Hgt]]].
  - rewrite Heq. cbn [variantId]. rewrite find_no_id.
    assert (Hnone : forall v, v ∈ vs -> (score_of main upsellOptions pid v <= Qc_of_nat 0)%Qc).
    { intros v Hv. apply list_elem_of_lookup in Hv as [j Hj].
      apply (Hle j _ (Hscored j v Hj)). }
    split; [subst vs; done|]. split; [done|].
    intros (v & Hv & Hpos). exfalso. by apply (Qcle_not_lt _ _ (Hnone v Hv)).
  - unfold scored in Hi. rewrite map_is_fmap, list_lookup_fmap in Hi.
    destruct (vs !! i) as [v|] eqn:Hv; [|done]. cbn in Hi. injection Hi as Hr.
    subst r. cbn [variantId matchScore] in *.
    change (calculateMatchScore v (default [] (upsellOptions !! pid)) main)
      with (score_of main upsellOptions pid v) in *.
    rewrite (find_by_id vs i v Hnd Hv).
    split; [subst vs; done|]. split.
    + intros Hnone. exfalso. apply (Qcle_not_lt _ _ (Hnone v ltac:(by eapply list_elem_of_lookup_2))).
      exact Hgt.
    + intros _. exists i, v. split; [done|]. split; [done|]. split.
      * intros j w Hj. apply (Hmax j _ (Hscored j w Hj)).
      * intros j w Hlt Hj. apply (Hfirst j _ Hlt (Hscored j w Hj)).
Qed.

End BestMatchClaim.

Section BestMatchExamples.
Import JS VariantMatcher.

Lemma findBestMatchVariant_selects_witness :
  (findBestMatchVariant main_large_red (Some "gift") gift_upsellVariants
     gift_upsellOptions = None
   <-> candidates gift_upsellVariants "gift" = [])
  /\ ((forall v, v ∈ candidates gift_upsellVariants "gift" ->
                 (score_of main_large_red gift_upsellOptions "gift" v
                  <= Qc_of_nat 0)%Qc) ->
      findBestMatchVariant main_large_red (Some "gift") gift_upsellVariants
        gift_upsellOptions
      = head (candidates gift_upsellVariants "gift"))
  /\ ((exists v, v ∈ candidates gift_upsellVariants "gift"
                 /\ (Qc_of_nat 0
                     < score_of main_large_red gift_upsellOptions "gift" v)%Qc) ->
      exists i v,
        findBestMatchVariant main_large_red (Some "gift") gift_upsellVariants
          gift_upsellOptions = Some v
        /\ first_best (score_of main_large_red gift_upsellOptions "gift")
             (candidates gift_upsellVariants "gift") i v).
Proof.
  apply (findBestMatchVariant_selects main_large_red "gift" gift_upsellVariants
           gift_upsellOptions).
  - discriminate.
  - apply (bool_decide_unpack _). vm_compute. exact I.
Defined.

(** Scores 50, 100, 100: the first of the two best candidates is returned. *)
Example bestMatch_tie_first :
  map (score_of main_large_red gift_upsellOptions "gift") gift_variants
  = [Qc_of_nat 50; Qc_of_nat 100; Qc_of_nat 100]
  /\ findBestMatchVariant main_large_red (Some "gift") gift_upsellVariants
       gift_upsellOptions
     = Some (sample_variant "g2" ["LARGE"; "red"]).
Proof.
  split.
  - cbn [map gift_variants]. repeat f_equal; apply Qc_is_canon; vm_compute; reflexivity.
  - vm_compute. reflexivity.
Qed.

(** An empty variant list gives null. *)
Example bestMatch_empty :
  findBestMatchVariant main_large_red (Some "none") gift_upsellVariants
    gift_upsellOptions = None.
Proof. vm_compute. reflexivity. Qed.

(** All candidates score 0: the first variant is the fallback. *)
Example bestMatch_fallback :
  findBestMatchVariant (<["Material" := "Oak"]> ∅) (Some "gift")
    gift_upsellVariants gift_upsellOptions
  = Some (sample_variant "g1" ["large"; "Blue"]).
Proof. vm_compute. reflexivity. Qed.

(** A missing or empty product id gives null whatever the variants are. *)
Example bestMatch_no_id :
  findBestMatchVariant main_large_red None gift_upsellVariants gift_upsellOptions
  = None
  /\ findBestMatchVariant main_large_red (Some "")
       (<["" := gift_variants]> gift_upsellVariants) gift_upsellOptions
     = None.
Proof. split; vm_compute; reflexivity. Qed.

End BestMatchExamples.

Section MainVariantMapping.
Import JS VariantMatcher.

Lemma truthy_true (s : string) : truthy s = true <-> s <> "".
Proof. destruct s; simpl; split; congruence. Qed.

Lemma map_reduce_lookup (v : Variant) (options : list ProductOption)
    (acc : gmap string string) (name : string) :
  fold_left (map_step v) options acc !! name
  = match (if truthy name then last_named name options else None) with
    | Some o => Some (option_value v (o_position o))
    | None => acc !! name
    end.
Proof.
  revert acc. induction options as [|o rest IH]; intros acc.
  - simpl. by destruct (truthy name).
  - cbn [fold_left last_named]. rewrite IH.
    destruct (truthy name) eqn:Hname.
    + destruct (last_named name rest) as [o'|]; [done|].
      unfold map_step. case_bool_decide as Heq.
      * subst name. rewrite Hname. cbn [negb]. by rewrite lookup_insert_eq.
      * destruct (negb (truthy (o_name o))); [done|]. by rewrite lookup_insert_ne.
    + unfold map_step. destruct (truthy (o_name o)) eqn:Ho; cbn [negb]; [|done].
      rewrite lookup_insert_ne; [done|]. intros Heq. congruence.
Qed.

Lemma last_named_unique (name : string) (options : list ProductOption)
    (o : ProductOption) :
  NoDup (o_name <$> options) -> o ∈ options -> o_name o = name ->
  last_named name options = Some o.
Proof.
  induction options as [|p rest IH]; intros Hnd Ho Hname; [by apply elem_of_nil in Ho|].
  rewrite fmap_cons in Hnd. apply list.NoDup_cons in Hnd as [Hp Hnd].
  cbn [last_named]. apply elem_of_cons in Ho as [->|Ho].
  - destruct (last_named (o_name p) rest) as [q|] eqn:Hq.
    + exfalso. apply Hp. subst name. clear -Hq.
      induction rest as [|r rest IH]; [done|]. cbn [last_named] in Hq.
      rewrite fmap_cons. destruct (last_named (o_name p) rest) as [q'|].
      * apply elem_of_cons. right. by apply IH.
      * case_bool_decide as Hr; [|done]. apply elem_of_cons. by left.
    + subst name. rewrite Hq. by rewrite bool_decide_eq_true_2.
  - by rewrite (IH Hnd Ho Hname).
Qed.

Lemma last_named_none (name : string) (options : list ProductOption) :
  (forall o, o ∈ options -> o_name o <> name) -> last_named name options = None.
Proof.
  induction options as [|p rest IH]; intros Hno; [done|]. cbn [last_named].
  rewrite IH by (intros o Ho; apply Hno; apply elem_of_cons; by right).
  rewrite bool_decide_eq_false_2; [done|]. apply Hno. apply elem_of_cons. by left.
Qed.

(** C9.  [mapMainProductVariants] returns the empty mapping when no variant
    has the given id.  Otherwise, for the first variant [v] with that id, it
    maps each (non-empty) option name to [v]'s value at that option's
    1-based position, that is, to [v.options[position - 1]], or to the
    empty string when [v] has no value there; a name no option carries is
    not mapped. *)
Theorem mapMainProductVariants_maps (variantId : option string)
    (options : list ProductOption) (variants : list Variant) :
  ((forall v, v ∈ variants -> Some (v_id v) <> variantId) ->
   mapMainProductVariants variantId options variants = ∅)
  /\ (forall v,
        List.find (fun w => bool_decide (Some (v_id w) = variantId)) variants
        = Some v ->
        (forall name,
            mapMainProductVariants variantId options variants !! name
            = (if truthy name then last_named name options else None)
              ≫= (fun o => Some (option_value v (o_position o))))
        /\ (NoDup (o_name <$> options) ->
            forall o, o ∈ options -> o_name o <> "" ->
              mapMainProductVariants variantId options variants !! o_name o
              = Some (option_value v (o_position o)))
        /\ (forall name, (forall o, o ∈ options -> o_name o <> name) ->
              mapMainProductVariants variantId options variants !! name = None)
        /\ (forall o value, (1 <= o_position o)%Z ->
              v_options v !! Z.to_nat (o_position o - 1) = Some value ->
              option_value v (o_position o) = value)).
Proof.
  unfold mapMainProductVariants. split.
  - intros Hnone.
    destruct (List.find _ variants) as [v|] eqn:Hfind; [|done].
    apply find_some in Hfind as [Hin Hid]. apply bool_decide_eq_true in Hid.
    exfalso. apply (Hnone v); [by apply list_elem_of_In|done].
  - intros v ->.
    assert (Hlookup : forall name,
               fold_left (map_step v) options ∅ !! name
               = (if truthy name then last_named name options else None)
                 ≫= (fun o => Some (option_value v (o_position o)))).
    { intros name. rewrite map_reduce_lookup.
      destruct (if truthy name then last_named name options else None); done. }
    split; [exact Hlookup|]. split; [|split].
    + intros Hnd o Ho Hname. rewrite Hlookup.
      rewrite (proj2 (truthy_true _) Hname).
      by rewrite (last_named_unique (o_name o) options o Hnd Ho eq_refl).
    + intros name Hno. rewrite Hlookup, (last_named_none name options Hno).
      by destruct (truthy name).
    + intros o value Hpos Hvalue. unfold option_value.
      destruct (Z.leb_spec 0 (o_position o - 1)) as [_|]; [|lia].
      by rewrite Hvalue.
Qed.

End MainVariantMapping.

Section MainVariantMappingExamples.
Import JS VariantMatcher.

Lemma mapMainProductVariants_maps_witness :
  mapMainProductVariants (Some "41") shirt_options shirt_variants !! "Color"
  = Some "Red".
Proof.
  destruct (mapMainProductVariants_maps (Some "41") shirt_options shirt_variants)
    as [_ Hfound].
  destruct (Hfound (sample_variant "41" ["Large"; "Red"]) eq_refl)
    as (_ & Hdistinct & _ & _).
  apply (Hdistinct ltac:(apply (bool_decide_unpack _); vm_compute; exact I)
           (mkOption "Color" 2 ["Red"; "Blue"])
           ltac:(apply list_elem_of_lookup_2 with 1%nat; reflexivity)
           ltac:(discriminate)).
Defined.

(** An unknown id gives the empty mapping; a missing value gives [""]; an
    option without a name is left out. *)
Example mapMainProductVariants_edges :
  mapMainProductVariants (Some "99") shirt_options shirt_variants = ∅
  /\ mapMainProductVariants None shirt_options shirt_variants = ∅
  /\ mapMainProductVariants (Some "40")
       [mkOption "Size" 1 []; mkOption "Frame" 3 []; mkOption "" 2 []]
       shirt_variants
     = <["Size" := "Small"]> (<["Frame" := ""]> ∅).
Proof.
  split; [|split].
  - vm_compute. reflexivity.
  - vm_compute. reflexivity.
  - vm_compute. reflexivity.
Qed.

End MainVariantMappingExamples.

Section HideConditions.
Import JS HideConditionManager.

Lemma span_inv (stop : ascii) (s prefix : string) (rest : option string) :
  span stop s = (prefix, rest) ->
  occurs stop prefix = false
  /\ s = (prefix ++ match rest with
                    | Some r => String stop r
                    | None => EmptyString
                    end)%string.
Proof.
  revert prefix rest. induction s as [|c s IH]; intros prefix rest Hspan.
  - simpl in Hspan. by injection Hspan as <- <-.
  - simpl in Hspan. destruct (Ascii.eqb c stop) eqn:Hc.
    + injection Hspan as <- <-. apply Ascii.eqb_eq in Hc as ->. done.
    + destruct (span stop s) as [p r] eqn:Hs. injection Hspan as <- <-.
      destruct (IH p r eq_refl) as [Hocc Heq]. simpl. rewrite Hc, Hocc.
      split; [done|]. by rewrite Heq at 1.
Qed.

Lemma span_app (stop : ascii) (prefix rest : string) :
  occurs stop prefix = false ->
  span stop (prefix ++ String stop rest)%string = (prefix, Some rest).
Proof.
  induction prefix as [|c p IH]; intros Hocc; simpl.
  - by rewrite Ascii.eqb_refl.
  - simpl in Hocc. apply orb_false_iff in Hocc as [Hc Hp].
    by rewrite Hc, (IH Hp).
Qed.

Lemma regex_exec_shape (entry name value names : string) :
  regex_exec entry = Some (name, value, names) <-> shape entry name value names.
Proof.
  unfold regex_exec, shape. split.
  - destruct (span ":" entry) as [g1 [r1|]] eqn:H1; [|done].
    destruct (truthy g1) eqn:T1; [|done]. cbn [negb].
    destruct (span "[" r1) as [g2 [r2|]] eqn:H2; [|done].
    destruct (truthy g2) eqn:T2; [|done]. cbn [negb].
    destruct (span "]" r2) as [g3 [[|c r3]|]] eqn:H3; try done.
    destruct (truthy g3) eqn:T3; [|done]. cbn [negb].
    intros Heq. injection Heq as <- <- <-.
    apply span_inv in H1 as [O1 ->], H2 as [O2 ->], H3 as [O3 ->].
    apply truthy_true in T1, T2, T3. done.
  - intros (-> & N1 & O1 & N2 & O2 & N3 & O3).
    assert (Happ : forall c s, (String c "" ++ s)%string = String c s) by reflexivity.
    rewrite !Happ.
    rewrite (span_app ":" name _ O1), (proj2 (truthy_true name) N1). cbn [negb].
    rewrite (span_app "[" value _ O2), (proj2 (truthy_true value) N2). cbn [negb].
    rewrite (span_app "]" names _ O3), (proj2 (truthy_true names) N3). done.
Qed.

Lemma parseSingleCondition_shape (entry name value names : string) :
  shape entry name value names ->
  parseSingleCondition entry = Some (condition_of name value names).
Proof.
  intros Hshape. unfold parseSingleCondition.
  rewrite (proj2 (regex_exec_shape _ _ _ _) Hshape).
  destruct Hshape as (_ & N1 & _ & N2 & _ & N3 & _).
  by rewrite (proj2 (truthy_true name) N1), (proj2 (truthy_true value) N2),
    (proj2 (truthy_true names) N3).
Qed.

Lemma parseSingleCondition_malformed (entry : string) :
  (forall name value names, ~ shape entry name value names) <->
  parseSingleCondition entry = None.
Proof.
  split.
  - intros Hno. unfold parseSingleCondition.
    destruct (regex_exec entry) as [[[g1 g2] g3]|] eqn:Hexec; [|done].
    exfalso. apply (Hno g1 g2 g3). by apply regex_exec_shape.
  - intros Hnone name value names Hshape.
    by rewrite (parseSingleCondition_shape _ _ _ _ Hshape) in Hnone.
Qed.

Lemma parse_entries (entries : list string) :
  parses_to entries (filter_non_null (map parseSingleCondition entries)).
Proof.
  induction entries as [|entry entries IH]; [constructor|].
  cbn [map filter_non_null].
  destruct (regex_exec entry) as [[[g1 g2] g3]|] eqn:Hexec.
  - apply regex_exec_shape in Hexec.
    rewrite (parseSingleCondition_shape _ _ _ _ Hexec). by apply parses_entry.
  - assert (Hnone : parseSingleCondition entry = None)
      by (unfold parseSingleCondition; by rewrite Hexec).
    rewrite Hnone. apply parses_skip; [|done].
    by apply parseSingleCondition_malformed.
Qed.

End HideConditions.

Section HideConditionsClaim.
Import JS HideConditionManager.

(** The entries determine the records: [parses_to] is the graph of the
    parser's [map]/[filter] pipeline. *)
Lemma parses_to_unique (entries : list string) (conditions : list HideCondition) :
  parses_to entries conditions ->
  conditions = filter_non_null (map parseSingleCondition entries).
Proof.
  induction 1 as [|entry name value names entries conditions Hshape _ IH
                  |entry entries conditions Hno _ IH]; cbn [map filter_non_null].
  - reflexivity.
  - by rewrite (parseSingleCondition_shape _ _ _ _ Hshape), IH.
  - by rewrite (proj1 (parseSingleCondition_malformed entry) Hno).
Qed.

(** C3.  [parseHideConditions] gives the empty list for a missing, empty or
    blank string.  Otherwise it splits the string on [;] and yields, in
    order, one record per entry of the shape [name:value[list]], holding
    the trimmed, lower-cased name and value and the trimmed, non-empty
    product names of the comma-separated list; an entry that fails the
    shape is passed over and the entries after it are still parsed. *)
Theorem parseHideConditions_entries :
  parseHideConditions None = []
  /\ parseHideConditions (Some "") = []
  /\ (forall s, trim s = "" -> parseHideConditions (Some s) = [])
  /\ (forall s, trim s <> "" ->
        parses_to (split ";" s) (parseHideConditions (Some s)))
  /\ (forall name value names,
        optionName (condition_of name value names) = toLowerCase (trim name)
        /\ optionValue (condition_of name value names) = toLowerCase (trim value)
        /\ upsellProducts (condition_of name value names)
           = List.filter (fun n => (0 <? String.length n)%nat)
               (map trim (split "," names))).
Proof.
  split; [reflexivity|]. split; [reflexivity|]. split; [|split].
  - intros s Hblank. unfold parseHideConditions. rewrite Hblank.
    by rewrite orb_true_r.
  - intros s Hblank. unfold parseHideConditions.
    assert (Hs : truthy s = true) by (destruct s; [by simpl in Hblank|done]).
    rewrite Hs, (proj2 (String.eqb_neq _ _) Hblank). apply parse_entries.
  - intros name value names. repeat split.
Qed.

Lemma parseHideConditions_entries_witness :
  parses_to (split ";" sample_conditions)
    (parseHideConditions (Some sample_conditions)).
Proof.
  destruct parseHideConditions_entries as (_ & _ & _ & Hentries & _).
  apply (Hentries sample_conditions). vm_compute. discriminate.
Defined.

(** The example of the specification: two records, lower-cased fields,
    product names split and trimmed. *)
Example parse_two_conditions :
  parseHideConditions (Some sample_conditions)
  = [ mkHideCondition "size" "large" ["Gift Wrap"; "Extra Brush"];
      mkHideCondition "color" "red" ["Gift Wrap"] ].
Proof. vm_compute. reflexivity. Qed.

(** A malformed entry (no brackets) is dropped; its neighbours are kept. *)
Example parse_malformed_dropped :
  parseHideConditions (Some "Size:Large[Gift Wrap];Color:Red;Frame:Oak[Extra Brush]")
  = [ mkHideCondition "size" "large" ["Gift Wrap"];
      mkHideCondition "frame" "oak" ["Extra Brush"] ].
Proof. vm_compute. reflexivity. Qed.

(** The closing bracket must end the entry (white space after it breaks the
    shape), and empty product names are left out. *)
Example parse_edges :
  parseHideConditions (Some "Size:Large[Gift Wrap] ;Color:Red[ , Brush,,]")
  = [ mkHideCondition "color" "red" ["Brush"] ]
  /\ parseHideConditions (Some "   ") = [].
Proof. split; vm_compute; reflexivity. Qed.

End HideConditionsClaim.

Section Visibility.
Import JS UpsellProducts.

(** C4.  Hiding an upsell item (an existing element under a non-empty upsell
    id) whose checkbox is checked leaves the item with display [none] and
    its id in the hidden set, unchecks the checkbox and dispatches one
    [change] event on it, after the events dispatched before; whatever the
    checkbox was, the item is not checked after the hide. *)
Theorem hideUpsellProduct_unchecks (c : Component) (id : string) (h : nat)
    (it : Item) :
  items c !! h = Some it ->
  id <> "" ->
  (exists it',
      items (hideUpsellProduct (Some id) (Some h) c) !! h = Some it'
      /\ computed_display it' = "none"
      /\ checkbox it' <> Some true
      /\ id ∈ hiddenUpsellProducts (hideUpsellProduct (Some id) (Some h) c))
  /\ (checkbox it = Some true ->
      items (hideUpsellProduct (Some id) (Some h) c) !! h
      = Some (set_checked false (set_style_display "none" it))
      /\ dispatched (hideUpsellProduct (Some id) (Some h) c)
         = dispatched c ++ [(h, "change")])
  /\ (checkbox it <> Some true ->
      dispatched (hideUpsellProduct (Some id) (Some h) c) = dispatched c).
Proof.
  intros Hit Hid. unfold hideUpsellProduct, element. cbn [mbind option_bind].
  rewrite Hit. cbn [fmap option_fmap option_map]. rewrite (truthy_nonempty id Hid).
  cbn [negb].
  assert (Hh : h < length (items c)) by (by eapply lookup_lt_Some).
  destruct (checkbox it) as [[|]|] eqn:Hbox; cbn [items dispatched hiddenUpsellProducts].
  - split; [|split; [|done]].
    + eexists. split; [by apply list_lookup_insert_eq|].
      split; [done|]. split; [done|]. set_solver.
    + intros _. split; [by apply list_lookup_insert_eq|done].
  - split; [|split; [done|done]].
    eexists. split; [by apply list_lookup_insert_eq|].
    split; [done|]. split; [cbn; congruence|]. set_solver.
  - split; [|split; [done|done]].
    eexists. split; [by apply list_lookup_insert_eq|].
    split; [done|]. split; [cbn; congruence|]. set_solver.
Qed.

Lemma hideUpsellProduct_unchecks_witness :
  dispatched (hideUpsellProduct (Some "u1") (Some 0%nat) two_items)
  = [(0%nat, "change")].
Proof.
  destruct (hideUpsellProduct_unchecks two_items "u1" 0 flex_item_checked
              eq_refl ltac:(discriminate)) as (_ & Hchecked & _).
  destruct (Hchecked eq_refl) as (_ & Hevent). exact Hevent.
Defined.

(** Over any sequence of hides, shows and clicks, an item with display
    [none] is never left checked. *)
Lemma hidden_unchecked_step (c : Component) (a : Action) :
  hidden_unchecked c -> hidden_unchecked (act c a).
Proof.
  intros [Horiginal Hitems]. destruct a as [upsellId item|upsellId item|h]; cbn [act].
  - unfold hideUpsellProduct, element.
    destruct item as [h|]; cbn [mbind option_bind]; [|by split].
    destruct (items c !! h) as [it|] eqn:Hit; cbn [fmap option_fmap option_map];
      [|by split].
    destruct upsellId as [id|]; [|by split].
    destruct (truthy id); cbn [negb]; [|by split].
    assert (Hcapture :
      (if negb (String.eqb (computed_display it) "none")
       then Some (computed_display it) else originalDisplayValue c) <> Some "none").
    { destruct (String.eqb_spec (computed_display it) "none") as [|Hne]; cbn [negb];
        [done|congruence]. }
    assert (Hh : h < length (items c)) by (by eapply lookup_lt_Some).
    destruct (checkbox it) as [[|]|] eqn:Hbox; split; cbn [originalDisplayValue items];
      try exact Hcapture; intros h' it' Hlookup Hnone;
      (destruct (decide (h = h')) as [<-|Hne];
       [rewrite list_lookup_insert_eq in Hlookup by done; injection Hlookup as <-;
        cbn; congruence
       |rewrite list_lookup_insert_ne in Hlookup by done; by eapply Hitems]).
  - unfold showUpsellProduct, element.
    destruct item as [h|]; cbn [mbind option_bind]; [|by split].
    destruct (items c !! h) as [it|] eqn:Hit; cbn [fmap option_fmap option_map];
      [|by split].
    assert (Hh : h < length (items c)) by (by eapply lookup_lt_Some).
    split; cbn [originalDisplayValue items]; [done|].
    intros h' it' Hlookup Hnone. destruct (decide (h = h')) as [<-|Hne].
    + rewrite list_lookup_insert_eq in Hlookup by done. injection Hlookup as <-.
      cbn [style_display set_style_display] in Hnone. exfalso.
      destruct (originalDisplayValue c) as [value|]; [|done].
      destruct (truthy value); [congruence|done].
    + rewrite list_lookup_insert_ne in Hlookup by done. by eapply Hitems.
  - unfold click. destruct (items c !! h) as [it|] eqn:Hit; [|by split].
    destruct (checkbox it) as [checked|] eqn:Hbox; [|by split].
    destruct (String.eqb_spec (computed_display it) "none") as [|Hshown]; [by split|].
    assert (Hh : h < length (items c)) by (by eapply lookup_lt_Some).
    split; cbn [originalDisplayValue items]; [done|].
    intros h' it' Hlookup Hnone. destruct (decide (h = h')) as [<-|Hne].
    + rewrite list_lookup_insert_eq in Hlookup by done. injection Hlookup as <-.
      cbn [style_display set_checked] in Hnone. exfalso. apply Hshown.
      unfold computed_display. by rewrite Hnone.
    + rewrite list_lookup_insert_ne in Hlookup by done. by eapply Hitems.
Qed.

Lemma hidden_unchecked_run (actions : list Action) (c : Component) :
  hidden_unchecked c -> hidden_unchecked (fold_left act actions c).
Proof.
  revert c. induction actions as [|a actions IH]; intros c Hc; [done|].
  cbn [fold_left]. by apply IH, hidden_unchecked_step.
Qed.

(** Hiding one item and showing it again, with no other capture in between,
    gives back the display it had. *)
Lemma show_after_hide_restores (c : Component) (id : string) (h : nat) (it : Item) :
  items c !! h = Some it ->
  id <> "" ->
  computed_display it <> "none" ->
  computed_display it <> "" ->
  exists it',
    items (showUpsellProduct (Some id) (Some h)
             (hideUpsellProduct (Some id) (Some h) c)) !! h = Some it'
    /\ computed_display it' = computed_display it.
Proof.
  intros Hit Hid Hnone Hempty.
  assert (Hh : h < length (items c)) by (by eapply lookup_lt_Some).
  unfold hideUpsellProduct, element. cbn [mbind option_bind].
  rewrite Hit. cbn [fmap option_fmap option_map]. rewrite (truthy_nonempty id Hid).
  cbn [negb]. rewrite (proj2 (String.eqb_neq _ _) Hnone). cbn [negb].
  assert (Hshow : forall c', h < length (items c') ->
            originalDisplayValue c' = Some (computed_display it) ->
            exists it', items (showUpsellProduct (Some id) (Some h) c') !! h = Some it'
                        /\ computed_display it' = computed_display it).
  { intros c' Hlen Horig. unfold showUpsellProduct, element. cbn [mbind option_bind].
    destruct (items c' !! h) as [it0|] eqn:H0;
      [|apply lookup_ge_None in H0; lia].
    cbn [fmap option_fmap option_map items]. rewrite Horig.
    rewrite (truthy_nonempty _ Hempty).
    eexists. split; [by apply list_lookup_insert_eq|].
    unfold computed_display at 1. cbn [style_display set_style_display].
    by rewrite (truthy_nonempty _ Hempty). }
  destruct (checkbox it) as [[|]|]; apply Hshow; cbn [items originalDisplayValue];
    try done; by rewrite length_insert.
Qed.

(** C5 fails when items differ in display mode: [#originalDisplayValue] is
    one field of the component, written by every hide.  Item 0 is [flex],
    item 1 is [grid]; both are hidden, then item 0 is shown: it comes back
    as [grid]. *)
Theorem showUpsellProduct_shared_display :
  let hidden_both :=
    hideUpsellProduct (Some "u2") (Some 1%nat)
      (hideUpsellProduct (Some "u1") (Some 0%nat) two_items) in
  (computed_display <$> items two_items !! 0%nat) = Some "flex"
  /\ originalDisplayValue hidden_both = Some "grid"
  /\ (computed_display
        <$> items (showUpsellProduct (Some "u1") (Some 0%nat) hidden_both) !! 0%nat)
     = Some "grid"
  /\ hideAllUpsellProducts two_items = hidden_both
  /\ (computed_display <$> items (showAllUpsellProducts hidden_both))
     = ["grid"; "grid"].
Proof. vm_compute. repeat split. Qed.

End Visibility.

Section FormObjects.
Import JS ProductForm.

Lemma get_set_eq (k : string) (v : JVal) (o : JObject) : get k (set k v o) = Some v.
Proof.
  induction o as [|[k' v'] o IH]; simpl.
  - by rewrite String.eqb_refl.
  - destruct (String.eqb k' k) eqn:Hk; simpl.
    + by rewrite String.eqb_refl.
    + by rewrite Hk.
Qed.

Lemma get_set_ne (k k' : string) (v : JVal) (o : JObject) :
  k <> k' -> get k' (set k v o) = get k' o.
Proof.
  intros Hne. induction o as [|[k0 v0] o IH]; simpl.
  - by rewrite (proj2 (String.eqb_neq _ _) Hne).
  - destruct (String.eqb k0 k) eqn:Hk; simpl.
    + apply String.eqb_eq in Hk as ->.
      by rewrite (proj2 (String.eqb_neq _ _) Hne).
    + destruct (String.eqb k0 k'); [done|exact IH].
Qed.

Lemma get_None (k : string) (o : JObject) : get k o = None <-> k ∉ keys o.
Proof.
  induction o as [|[k0 v0] o IH]; simpl.
  - split; [intros _; apply not_elem_of_nil|done].
  - rewrite not_elem_of_cons. destruct (String.eqb k0 k) eqn:Hk.
    + apply String.eqb_eq in Hk as ->. split; [done|]. by intros [? _].
    + apply String.eqb_neq in Hk. rewrite IH. split; [|tauto].
      intros Hnot. split; [congruence|done].
Qed.

Lemma get_elem (k : string) (v : JVal) (o : JObject) :
  NoDup (keys o) -> (k, v) ∈ o -> get k o = Some v.
Proof.
  induction o as [|[k0 v0] o IH]; intros Hnd Hin; [by apply elem_of_nil in Hin|].
  simpl in Hnd. apply list.NoDup_cons in Hnd as [Hk0 Hnd].
  apply elem_of_cons in Hin as [Heq|Hin]; simpl.
  - injection Heq as <- <-. by rewrite String.eqb_refl.
  - destruct (String.eqb k0 k) eqn:Hk; [|by apply IH].
    apply String.eqb_eq in Hk as ->. exfalso. apply Hk0.
    apply list_elem_of_fmap. by exists (k, v).
Qed.

Lemma set_fresh (k : string) (v : JVal) (o : JObject) :
  k ∉ keys o -> set k v o = o ++ [(k, v)].
Proof.
  induction o as [|[k0 v0] o IH]; intros Hk; [done|].
  simpl in Hk. apply not_elem_of_cons in Hk as [Hne Hk]. simpl.
  rewrite (proj2 (String.eqb_neq k0 k)) by congruence. by rewrite IH.
Qed.

Lemma fold_set_nodup (l acc : JObject) :
  NoDup (keys (acc ++ l)) ->
  fold_left (fun a kv => set (fst kv) (snd kv) a) l acc = acc ++ l.
Proof.
  revert acc. induction l as [|[k v] l IH]; intros acc Hnd.
  - by rewrite app_nil_r.
  - cbn [fold_left fst snd].
    assert (Hfresh : k ∉ keys acc).
    { unfold keys in Hnd. rewrite map_app in Hnd. simpl in Hnd.
      apply list.NoDup_app in Hnd as (_ & Hdisj & _). intros Hk.
      apply (Hdisj k Hk). apply elem_of_cons. by left. }
    rewrite (set_fresh k v acc Hfresh), IH; rewrite <- app_assoc; done.
Qed.

Lemma fromEntries_nodup (l : JObject) : NoDup (keys l) -> fromEntries l = l.
Proof. intros Hnd. unfold fromEntries. by rewrite fold_set_nodup. Qed.

Lemma keys_filter_sub (p : string -> bool) (l : JObject) (k : string) :
  k ∈ keys (List.filter (fun kv => p (fst kv)) l) -> k ∈ keys l /\ p k = true.
Proof.
  unfold keys. intros Hin. apply list_elem_of_In, in_map_iff in Hin as ([k' v] & <- & Hin).
  apply filter_In in Hin as [Hin Hp]. split; [|done].
  apply list_elem_of_In, in_map_iff. by exists (k', v).
Qed.

Lemma keys_filter_nodup (p : string -> bool) (l : JObject) :
  NoDup (keys l) -> NoDup (keys (List.filter (fun kv => p (fst kv)) l)).
Proof.
  induction l as [|[k v] l IH]; intros Hnd; [constructor|].
  simpl in Hnd. apply list.NoDup_cons in Hnd as [Hk Hnd]. simpl.
  destruct (p k); [|by apply IH]. simpl. apply list.NoDup_cons. split; [|by apply IH].
  intros Hin. apply Hk. by apply (keys_filter_sub p l k).
Qed.

Lemma get_filter (p : string -> bool) (l : JObject) (k : string) :
  get k (List.filter (fun kv => p (fst kv)) l) = if p k then get k l else None.
Proof.
  induction l as [|[k0 v0] l IH]; simpl; [by destruct (p k)|].
  destruct (p k0) eqn:Hp0; simpl.
  - destruct (String.eqb k0 k) eqn:Hk; [|exact IH].
    apply String.eqb_eq in Hk as <-. by rewrite Hp0.
  - rewrite IH. destruct (String.eqb k0 k) eqn:Hk; [|done].
    apply String.eqb_eq in Hk as <-. by rewrite Hp0.
Qed.

Lemma fold_set_other (l acc : JObject) (k : string) :
  k ∉ keys l ->
  get k (fold_left (fun a kv => set (fst kv) (snd kv) a) l acc) = get k acc.
Proof.
  revert acc. induction l as [|[k0 v0] l IH]; intros acc Hk; [done|].
  simpl in Hk. apply not_elem_of_cons in Hk as [Hne Hk].
  cbn [fold_left fst snd]. rewrite (IH _ Hk). apply get_set_ne. congruence.
Qed.

Lemma fold_set_elem (l acc : JObject) (k : string) (v : JVal) :
  NoDup (keys l) -> (k, v) ∈ l ->
  get k (fold_left (fun a kv => set (fst kv) (snd kv) a) l acc) = Some v.
Proof.
  revert acc. induction l as [|[k0 v0] l IH]; intros acc Hnd Hin;
    [by apply elem_of_nil in Hin|].
  simpl in Hnd. apply list.NoDup_cons in Hnd as [Hk0 Hnd].
  cbn [fold_left fst snd]. apply elem_of_cons in Hin as [Heq|Hin].
  - injection Heq as <- <-. rewrite (fold_set_other l _ k Hk0). apply get_set_eq.
  - by apply IH.
Qed.

Lemma prefix_app (p s : string) : String.prefix p (p ++ s)%string = true.
Proof.
  induction p as [|c p IH]; simpl; [by destruct s|].
  destruct (ascii_dec c c); [exact IH|congruence].
Qed.

Lemma drop_app (p s : string) : drop (String.length p) (p ++ s)%string = s.
Proof. induction p as [|c p IH]; simpl; [by destruct s|exact IH]. Qed.

Lemma remove_first_unfold (p key : string) :
  remove_first p key
  = if startsWith p key then drop (String.length p) key
    else match key with
         | EmptyString => EmptyString
         | String c key' => String c (remove_first p key')
         end.
Proof. by destruct key. Qed.

Lemma remove_first_prefix (p s : string) : remove_first p (p ++ s)%string = s.
Proof.
  rewrite remove_first_unfold. unfold startsWith. rewrite prefix_app. apply drop_app.
Qed.

End FormObjects.

Section UpsellDetection.
Import JS ProductForm.

Lemma filter_no_key (p : string -> bool) (l : JObject) :
  (forall k, k ∈ keys l -> p k = false) -> List.filter (fun kv => p (fst kv)) l = [].
Proof.
  induction l as [|[k v] l IH]; intros Hno; [done|]. simpl.
  rewrite (Hno k) by (simpl; apply elem_of_cons; by left).
  apply IH. intros k' Hk'. apply Hno. simpl. apply elem_of_cons. by right.
Qed.

Lemma filter_some_key (p : string -> bool) (l : JObject) :
  (exists k, k ∈ keys l /\ p k = true) ->
  (length (List.filter (fun kv => p (fst kv)) l) =? 0)%nat = false.
Proof.
  intros (k & Hk & Hp). apply Nat.eqb_neq. intros Hlen.
  apply nil_length_inv in Hlen.
  unfold keys in Hk. apply list_elem_of_In, in_map_iff in Hk as ([k' v] & <- & Hin).
  assert (Hf : In (k', v) (List.filter (fun kv => p (fst kv)) l))
    by (apply filter_In; by split).
  by rewrite Hlen in Hf.
Qed.

Lemma is_upsell_key_split (k : string) :
  is_upsell_key k = true ->
  remove_first UPSELL_PRODUCT_PREFIX k = drop (String.length UPSELL_PRODUCT_PREFIX) k.
Proof. intros Hk. rewrite remove_first_unfold. unfold is_upsell_key in Hk. by rewrite Hk. Qed.

(** C6 (as amended).  For a form-data object: when no field carries the
    upsell prefix, or when the [product-title] field is missing or empty, the
    form data is returned unchanged with an empty upsell list.  Otherwise
    every field whose key starts with the prefix becomes, in order, one
    upsell line item with the key's suffix as id, the field value as title,
    quantity 1 and the property [Product] holding the product title; the
    prefixed fields are removed from the top level of the primary payload,
    whose other fields are kept, and are copied into its [properties]
    object. *)
Theorem detectUpsellProducts_extracts (form : JObject) :
  NoDup (keys form) ->
  ((forall k, k ∈ keys form -> is_upsell_key k = false) ->
   detectUpsellProducts form = (form, []))
  /\ (truthy_val (get "product-title" form) = false ->
      detectUpsellProducts form = (form, []))
  /\ (forall title,
        (exists k, k ∈ keys form /\ is_upsell_key k = true) ->
        get "product-title" form = Some title ->
        truthy_val (Some title) = true ->
        snd (detectUpsellProducts form)
        = map (fun kv =>
                 line_item title
                   (drop (String.length UPSELL_PRODUCT_PREFIX) (fst kv)) (snd kv))
            (List.filter (fun kv => is_upsell_key (fst kv)) form)
        /\ (forall suffix value,
              ((UPSELL_PRODUCT_PREFIX ++ suffix)%string, value) ∈ form ->
              line_item title suffix value ∈ snd (detectUpsellProducts form))
        /\ (forall k, is_upsell_key k = true ->
              get k (fst (detectUpsellProducts form)) = None)
        /\ (forall k, is_upsell_key k = false -> k <> "properties" ->
              get k (fst (detectUpsellProducts form)) = get k form)
        /\ (exists props,
              get "properties" (fst (detectUpsellProducts form)) = Some (VObj props)
              /\ forall k value, (k, value) ∈ form -> is_upsell_key k = true ->
                   get k props = Some value)).
Proof.
  intros Hnd. split; [|split].
  - intros Hno. unfold detectUpsellProducts.
    by rewrite (filter_no_key is_upsell_key form Hno).
  - intros Htitle. unfold detectUpsellProducts. rewrite Htitle. cbn [negb].
    by destruct (length _ =? 0)%nat.
  - intros title Hsome Hget Htruthy. unfold detectUpsellProducts.
    rewrite (filter_some_key is_upsell_key form Hsome), Hget, Htruthy.
    cbn [negb fst snd default from_option id].
    set (upsell := List.filter (fun kv => is_upsell_key (fst kv)) form).
    set (rest := List.filter (fun kv => negb (is_upsell_key (fst kv))) form).
    assert (Hupsell : NoDup (keys upsell)) by (by apply keys_filter_nodup).
    assert (Hrest : fromEntries rest = rest).
    { apply fromEntries_nodup.
      by apply (keys_filter_nodup (fun k => negb (is_upsell_key k))). }
    rewrite Hrest, (fromEntries_nodup upsell Hupsell).
    assert (Hlist : map (fun kv => {| up_id := remove_first UPSELL_PRODUCT_PREFIX (fst kv);
                                      up_title := snd kv; up_quantity := 1;
                                      up_properties := [("Product", title)] |}) upsell
                    = map (fun kv => line_item title
                             (drop (String.length UPSELL_PRODUCT_PREFIX) (fst kv))
                             (snd kv)) upsell).
    { apply map_ext_in. intros [k v] Hin. apply filter_In in Hin as [_ Hk].
      unfold line_item. cbn [fst snd] in *. by rewrite (is_upsell_key_split k Hk). }
    rewrite Hlist. split; [done|]. split; [|split; [|split]].
    + intros suffix value Hin. apply list_elem_of_In, in_map_iff.
      exists ((UPSELL_PRODUCT_PREFIX ++ suffix)%string, value). cbn [fst snd]. split.
      * by rewrite drop_app.
      * apply filter_In. split; [by apply list_elem_of_In|].
        cbn [fst]. apply prefix_app.
    + intros k Hk. rewrite get_set_ne by (intros <-; discriminate Hk).
      unfold rest. rewrite (get_filter (fun k => negb (is_upsell_key k))).
      by rewrite Hk.
    + intros k Hk Hprops. rewrite get_set_ne by congruence.
      unfold rest. rewrite (get_filter (fun k => negb (is_upsell_key k))).
      by rewrite Hk.
    + eexists. split; [apply get_set_eq|].
      intros k value Hin Hk. unfold fromEntries. rewrite fold_left_app.
      apply fold_set_elem; [done|]. apply list_elem_of_In, filter_In.
      split; [by apply list_elem_of_In|done].
Qed.

End UpsellDetection.

Section UpsellDetectionExamples.
Import JS ProductForm.

Lemma detectUpsellProducts_extracts_witness :
  snd (detectUpsellProducts form_with_title)
  = [ line_item (VStr "Canvas") "77" (VStr "Gift Wrap");
      line_item (VStr "Canvas") "78" (VStr "Extra Brush") ].
Proof.
  destruct (detectUpsellProducts_extracts form_with_title
              ltac:(apply (bool_decide_unpack _); vm_compute; exact I))
    as (_ & _ & Hextract).
  destruct (Hextract (VStr "Canvas")
              ltac:(exists "_upsell_variant_77"; split;
                    [apply list_elem_of_lookup_2 with 2%nat; reflexivity|reflexivity])
              eq_refl eq_refl) as (Hitems & _).
  exact Hitems.
Defined.

(** What the cart request holds for [form_with_title]: the prefixed fields
    are gone from the top level and sit inside [properties]. *)
Example detect_with_title :
  detectUpsellProducts form_with_title
  = ([ ("id", VStr "41"); ("product-title", VStr "Canvas");
       ("properties",
        VObj [ ("_feature", VStr "editor");
               ("_upsell_variant_77", VStr "Gift Wrap");
               ("_upsell_variant_78", VStr "Extra Brush") ]) ],
     [ line_item (VStr "Canvas") "77" (VStr "Gift Wrap");
       line_item (VStr "Canvas") "78" (VStr "Extra Brush") ]).
Proof. vm_compute. reflexivity. Qed.

(** C6 as stated fails.  Without a [product-title] field the prefixed field
    is neither extracted nor removed; with one, the prefixed fields are still
    in the primary payload, under [properties]. *)
Lemma detectUpsellProducts_counterexample :
  ~ extracted_and_stripped form_without_title
  /\ detectUpsellProducts form_without_title = (form_without_title, [])
  /\ ~ extracted_and_stripped form_with_title.
Proof.
  split; [|split].
  - intros [Hextract _].
    destruct (Hextract "77" (VStr "Gift Wrap")
                ltac:(apply list_elem_of_lookup_2 with 2%nat; reflexivity))
      as (item & Hitem & _).
    vm_compute in Hitem. by apply elem_of_nil in Hitem.
  - vm_compute. reflexivity.
  - intros [_ Hstripped]. vm_compute in Hstripped. discriminate Hstripped.
Qed.

End UpsellDetectionExamples.

Section BridgeWrappers.
Import JS ProductForm UdoPaintsEditorManager.

Lemma resolve_other (p q : nat) (v : JVal) (ps : list Promise) :
  p <> q -> resolve p v ps !! q = ps !! q.
Proof.
  intros Hne. unfold resolve. destruct (ps !! p) as [[| |]|]; try done.
  by apply list_lookup_insert_ne.
Qed.

Lemma resolve_pending (p : nat) (v : JVal) (ps : list Promise) :
  ps !! p = Some Pending -> resolve p v ps !! p = Some (Resolved v).
Proof.
  intros Hp. unfold resolve. rewrite Hp. apply list_lookup_insert_eq.
  by eapply lookup_lt_Some.
Qed.


Lemma run_callback_other (te : Method -> string) (ed : option (Method -> Outcome))
    (ps : list Promise)
    (p q : nat) (m : Method) :
  p <> q -> run_callback te ed ps (p, m) !! q = ps !! q.
Proof.
  intros Hne. unfold run_callback. destruct ed as [methods|].
  - destruct (methods m); [by apply resolve_other..|done|done].
  - by apply resolve_other.
Qed.

Lemma run_callbacks_other (te : Method -> string) (ed : option (Method -> Outcome))
    (callbacks : list (nat * Method)) (ps : list Promise) (q : nat) :
  q ∉ fst <$> callbacks ->
  fold_left (run_callback te ed) callbacks ps !! q = ps !! q.
Proof.
  revert ps. induction callbacks as [|[p m] callbacks IH]; intros ps Hq; [done|].
  rewrite fmap_cons in Hq. apply not_elem_of_cons in Hq as [Hne Hq].
  cbn [fold_left]. rewrite (IH _ Hq). apply run_callback_other. cbn in Hne. congruence.
Qed.


(** While the editor is missing a firing timer changes nothing. *)
Lemma tick_absent (b : Bridge) :
  editor b = None ->
  editor (tick b) = None /\ isReady (tick b) = isReady b
  /\ readyCallbacks (tick b) = readyCallbacks b
  /\ timer_armed (tick b) = timer_armed b
  /\ promises (tick b) = promises b.
Proof.
  intros Hed. unfold tick. destruct (timer_armed b) eqn:Harmed; [|done].
  unfold checkAvailability. rewrite Hed. done.
Qed.

Lemma ticks_absent (n : nat) (b : Bridge) :
  editor b = None ->
  editor (Nat.iter n tick b) = None
  /\ isReady (Nat.iter n tick b) = isReady b
  /\ readyCallbacks (Nat.iter n tick b) = readyCallbacks b
  /\ timer_armed (Nat.iter n tick b) = timer_armed b
  /\ promises (Nat.iter n tick b) = promises b.
Proof.
  intros Hed. induction n as [|n (He & Hr & Hq & Ht & Hp)]; [done|].
  change (Nat.iter (S n) tick b) with (tick (Nat.iter n tick b)).
  destruct (tick_absent _ He) as (He' & Hr' & Hq' & Ht' & Hp').
  repeat split; congruence.
Qed.


End BridgeWrappers.

Section BridgeWrappersClaim.
Import JS ProductForm UdoPaintsEditorManager.

Lemma call_promise_fresh (b : Bridge) :
  (promises b ++ [Pending]) !! length (promises b) = Some Pending.
Proof. by rewrite list_lookup_middle. Qed.

Lemma queued_below (b : Bridge) :
  queue_sound b -> length (promises b) ∉ fst <$> readyCallbacks b.
Proof.
  intros [_ Hpending] Hin. apply list_elem_of_fmap in Hin as ([q m] & Hq & Hin).
  cbn in Hq. subst q. apply Hpending in Hin. apply lookup_lt_Some in Hin. lia.
Qed.

(** The poll that finds the editor runs the queued callbacks in order. *)
Lemma appear_runs_queue (b : Bridge) (methods : Method -> Outcome) :
  timer_armed b = true ->
  promises (tick (set_editor (Some methods) b))
  = fold_left (run_callback (type_error b) (Some methods)) (readyCallbacks b)
      (promises b).
Proof.
  intros Harmed. unfold tick, set_editor. cbn [timer_armed]. rewrite Harmed.
  reflexivity.
Qed.




End BridgeWrappersClaim.

Section BridgeWrappersExamples.
Import JS ProductForm UdoPaintsEditorManager.

(** The queue of a new manager is sound, and calls and polls keep it so. *)
Lemma queue_sound_create (te : Method -> string) (ed : option (Method -> Outcome)) :
  queue_sound (create te ed).
Proof.
  unfold create, checkAvailability, queue_sound. cbn [editor readyCallbacks promises].
  destruct ed; cbn [readyCallbacks fmap list_fmap]; (split; [constructor|]);
    intros q m Hin; by apply elem_of_nil in Hin.
Qed.

Lemma queue_sound_call (m : Method) (b : Bridge) :
  queue_sound b -> queue_sound (fst (call m b)).
Proof.
  intros Hsound. pose proof (queued_below b Hsound) as Hfresh.
  destruct Hsound as [Hnd Hpending].
  assert (Hold : forall q m', (q, m') ∈ readyCallbacks b ->
            q <> length (promises b)
            /\ (promises b ++ [Pending]) !! q = Some Pending).
  { intros q m' Hin. pose proof (Hpending q m' Hin) as Hq.
    split; [apply lookup_lt_Some in Hq; lia|].
    rewrite lookup_app_l; [done|]. by eapply lookup_lt_Some. }
  unfold call, onReady, queue_sound. cbn [fst isReady].
  destruct (isReady b); cbn [readyCallbacks promises editor].
  - split; [done|]. intros q m' Hin. destruct (Hold q m' Hin) as [Hne Hq].
    rewrite run_callback_other by congruence. exact Hq.
  - split.
    + rewrite fmap_app. apply list.NoDup_app. split; [done|].
      split; [|apply NoDup_singleton].
      intros q Hq Hq'. cbn in Hq'. apply list_elem_of_singleton in Hq'. by subst q.
    + intros q m' Hin. apply elem_of_app in Hin as [Hin|Hin].
      * by destruct (Hold q m' Hin).
      * apply list_elem_of_singleton in Hin. injection Hin as -> ->.
        apply call_promise_fresh.
Qed.

Lemma queue_sound_tick (b : Bridge) : queue_sound b -> queue_sound (tick b).
Proof.
  intros Hsound. unfold tick. destruct (timer_armed b); [|done].
  unfold checkAvailability. destruct (editor b); [|done].
  unfold queue_sound. cbn [readyCallbacks promises fmap list_fmap].
  split; [constructor|]. intros q m Hin. by apply elem_of_nil in Hin.
Qed.



(** The amended text restricts the thrown value for a reason: when the
    method rejects with no value, reading [error.message] in the [catch]
    throws, and the promise of the call is left pending, not resolved to a
    failure object. *)
Example wrapper_nullish_pending :
  promises (fst (call onAddToCart (create sample_type_error (Some nullish_editor))))
    !! snd (call onAddToCart (create sample_type_error (Some nullish_editor)))
  = Some Pending.
Proof. vm_compute. reflexivity. Qed.

(** With the manager ready and the editor taken away, the failure object
    carries the engine's message. *)
Example wrapper_editor_gone :
  promises (fst (call onAddToCart
                   (set_editor None (create sample_type_error (Some throwing_editor)))))
    !! 0%nat
  = Some (Resolved
            (VObj [ ("success", VBool false);
                    ("error",
                     VStr "Cannot read properties of undefined (reading 'onAddToCart')") ])).
Proof. vm_compute. reflexivity. Qed.

(** With the editor present, a throwing method gives the failure object at
    once; a method without a message gets the default text. *)
Example wrapper_throws_now :
  promises (fst (call uploadImage (create sample_type_error (Some (fun _ => Throws None))))) !! 0%nat
  = Some (Resolved (VObj [ ("success", VBool false); ("feature", VStr "");
                           ("error", VStr "Failed to call uploadImage") ])).
Proof. vm_compute. reflexivity. Qed.

(** The upsell component's own readiness check answers [false], a boolean,
    when the manager is not ready or the call was rejected. *)
Example checkReadyToExport_not_available :
  EditorWait.checkReadyToExport true false Pending = Some (true, false)
  /\ EditorWait.checkReadyToExport true true (Rejected "gone") = Some (false, false)
  /\ EditorWait.checkReadyToExport false true
       (Resolved (failure isReadyToExport None)) = Some (false, false).
Proof. repeat split. Qed.

End BridgeWrappersExamples.

Section AvailabilityWait.
Import UdoPaintsEditorManager EditorWait.

Lemma poll_settled (fuel M : nat) (ready : nat -> bool) (w : Wait) :
  status w <> Polling -> poll fuel M ready w = w.
Proof. destruct fuel; [done|]. simpl. by destruct (status w). Qed.

(** With the manager never ready, the checks go on until the counter reaches
    the maximum, and stop there. *)
Lemma poll_never_ready (M : nat) (ready : nat -> bool) (d : nat) :
  (forall k, ready k = false) ->
  forall (w : Wait) (fuel : nat),
    status w = Polling -> (attempts w + S d = M)%nat -> S d <= fuel ->
    poll fuel M ready w
    = {| attempts := M; timers := (timers w + d)%nat; status := Unavailable |}.
Proof.
  intros Hnever. induction d as [|d IH]; intros w fuel Hpolling Hleft Hfuel;
    (destruct fuel as [|fuel]; [lia|]); cbn [poll]; rewrite Hpolling;
    unfold checkManager; rewrite Hnever.
  - destruct (Nat.leb_spec M (S (attempts w))) as [_|]; [|lia].
    rewrite poll_settled by done. f_equal; lia.
  - destruct (Nat.leb_spec M (S (attempts w))) as [|_]; [lia|].
    rewrite IH; cbn [attempts timers status]; try done; try lia. f_equal; lia.
Qed.

(** Whatever the manager does, the wait is settled once the counter can go
    no further. *)
Lemma poll_settles (M : nat) (ready : nat -> bool) (d : nat) :
  forall (w : Wait) (fuel : nat),
    status w = Polling -> M <= attempts w + S d -> S d <= fuel ->
    status (poll fuel M ready w) <> Polling
    /\ attempts (poll fuel M ready w) <= attempts w + S d
    /\ timers (poll fuel M ready w) <= timers w + d.
Proof.
  induction d as [|d IH]; intros w fuel Hpolling Hleft Hfuel;
    (destruct fuel as [|fuel]; [lia|]); cbn [poll]; rewrite Hpolling;
    unfold checkManager.
  - destruct (ready (S (attempts w))).
    + rewrite poll_settled by done. cbn. repeat split; [done|lia|lia].
    + destruct (Nat.leb_spec M (S (attempts w))) as [_|]; [|lia].
      rewrite poll_settled by done. cbn. repeat split; [done|lia|lia].
  - destruct (ready (S (attempts w))).
    + rewrite poll_settled by done. cbn. repeat split; [done|lia|lia].
    + destruct (Nat.leb_spec M (S (attempts w))) as [_|Hmore].
      * rewrite poll_settled by done. cbn. repeat split; [done|lia|lia].
      * match goal with |- context [poll fuel M ready ?w'] =>
          destruct (IH w' fuel eq_refl ltac:(cbn; lia) ltac:(lia)) as (Hs & Ha & Ht)
        end.
        cbn [attempts timers] in Ha, Ht. repeat split; [done|lia|lia].
Qed.

Lemma poll_still_polling (M : nat) (ready : nat -> bool) (fuel : nat) :
  (forall k, ready k = false) ->
  forall w : Wait,
    status w = Polling -> (attempts w + fuel < M)%nat ->
    status (poll fuel M ready w) = Polling
    /\ attempts (poll fuel M ready w) = (attempts w + fuel)%nat.
Proof.
  intros Hnever. induction fuel as [|fuel IH]; intros w Hpolling Hleft.
  - cbn. split; [done|lia].
  - cbn [poll]. rewrite Hpolling. unfold checkManager. rewrite Hnever.
    destruct (Nat.leb_spec M (S (attempts w))) as [|_]; [lia|].
    match goal with |- context [poll fuel M ready ?w'] =>
      destruct (IH w' eq_refl ltac:(cbn; lia)) as (Hs & Ha)
    end.
    cbn [attempts] in Ha. split; [done|lia].
Qed.

(** C8 (as amended).  Of the two polls only [waitForManager] is bounded.
    [waitForManager] polls with a bounded attempt count at a fixed
    interval: in every execution it is settled after at most [maxAttempts]
    checks, and settled it stays; when the manager is never ready it keeps
    polling through the first [maxAttempts - 1] checks and reports failure
    at check [maxAttempts], having set [maxAttempts - 1] timers of
    [attemptInterval] milliseconds each.  The manager's own poll for the
    global editor object, [checkAvailability], has no attempt count: while
    the editor object is missing its timer is armed again after every
    check, however many, and the manager is never ready; so a
    [waitForManager] on such a manager ends in failure at check
    [maxAttempts]. *)
Theorem waitForManager_bounded (ready : nat -> bool) (te : Method -> string) :
  (forall fuel, maxAttempts <= fuel ->
     status (waitForManager fuel ready) <> Polling
     /\ attempts (waitForManager fuel ready) <= maxAttempts
     /\ waitForManager fuel ready = waitForManager maxAttempts ready)
  /\ ((forall k, ready k = false) ->
      (forall fuel, maxAttempts <= fuel ->
         waitForManager fuel ready
         = {| attempts := maxAttempts; timers := maxAttempts - 1;
              status := Unavailable |})
      /\ (forall fuel, fuel < maxAttempts ->
            status (waitForManager fuel ready) = Polling
            /\ attempts (waitForManager fuel ready) = fuel)
      /\ waited (waitForManager maxAttempts ready)
         = ((maxAttempts - 1) * attemptInterval)%nat)
  /\ (forall n,
        timer_armed (Nat.iter n tick (create te None)) = true
        /\ isReady (Nat.iter n tick (create te None)) = false)
  /\ (forall fuel, maxAttempts <= fuel ->
        status (waitForManager fuel
                  (fun k => isReady (Nat.iter k tick (create te None))))
        = Unavailable).
Proof.
  assert (Hmissing : forall n,
            timer_armed (Nat.iter n tick (create te None)) = true
            /\ isReady (Nat.iter n tick (create te None)) = false).
  { intros n.
    destruct (ticks_absent n (create te None) eq_refl) as (_ & Hready & _ & Htimer & _).
    by rewrite Hready, Htimer. }
  assert (Hsettles : forall fuel, maxAttempts <= fuel ->
            status (waitForManager fuel ready) <> Polling
            /\ attempts (waitForManager fuel ready) <= maxAttempts).
  { intros fuel Hfuel. unfold waitForManager.
    destruct (poll_settles maxAttempts ready (maxAttempts - 1)
                {| attempts := 0; timers := 0; status := Polling |} fuel eq_refl)
      as (Hs & Ha & _); cbn; unfold maxAttempts in *; try lia.
    split; [exact Hs|]. cbn in Ha. lia. }
  split; [|split; [|split]].
  - intros fuel Hfuel. destruct (Hsettles fuel Hfuel) as [Hs Ha].
    split; [done|]. split; [done|].
    replace fuel with (maxAttempts + (fuel - maxAttempts))%nat by lia.
    generalize (fuel - maxAttempts)%nat as extra. intros extra.
    unfold waitForManager.
    assert (Hsplit : forall a b M r w, poll (a + b) M r w = poll b M r (poll a M r w)).
    { clear. induction a as [|a IH]; intros b M r w; [done|].
      cbn [Nat.add poll]. destruct (status w) eqn:Hw; [apply IH| |];
        by rewrite poll_settled by (by rewrite Hw). }
    rewrite Hsplit. apply poll_settled. apply (Hsettles maxAttempts). lia.
  - intros Hnever. split; [|split].
    + intros fuel Hfuel. unfold waitForManager.
      rewrite (poll_never_ready maxAttempts ready (maxAttempts - 1) Hnever);
        cbn; unfold maxAttempts in *; try done; lia.
    + intros fuel Hfuel. unfold waitForManager.
      destruct (poll_still_polling maxAttempts ready fuel Hnever
                  {| attempts := 0; timers := 0; status := Polling |} eq_refl)
        as [Hs Ha]; [cbn; lia|]. split; [done|]. by cbn in Ha.
    + unfold waitForManager.
      rewrite (poll_never_ready maxAttempts ready (maxAttempts - 1) Hnever);
        cbn; unfold maxAttempts; try done; lia.
  - exact Hmissing.
  - intros fuel Hfuel. unfold waitForManager.
    rewrite (poll_never_ready maxAttempts _ (maxAttempts - 1)
               (fun k => proj2 (Hmissing k)));
      cbn; unfold maxAttempts in *; try done; lia.
Qed.

Lemma waitForManager_bounded_witness :
  waitForManager 60 (fun _ => false)
  = {| attempts := 50; timers := 49; status := Unavailable |}.
Proof.
  destruct (waitForManager_bounded (fun _ => false) sample_type_error)
    as (_ & Hnever & _).
  destruct (Hnever ltac:(reflexivity)) as (Hfail & _).
  apply (Hfail 60%nat). unfold maxAttempts. lia.
Defined.

(** C8 as stated fails for the poll for the global editor object: with no
    editor in the window, [checkAvailability] has not stopped after the
    fifty timer firings that follow the check made at construction; its
    timer is armed for yet another check, the manager has reported nothing,
    and a call made at the start is still waiting. *)
Lemma checkAvailability_unbounded_counterexample :
  timer_armed (Nat.iter 50 tick (create sample_type_error None)) = true
  /\ isReady (Nat.iter 50 tick (create sample_type_error None)) = false
  /\ promises (Nat.iter 50 tick
                 (fst (call isReadyToExport (create sample_type_error None))))
       !! 0%nat = Some Pending
  /\ timer_armed (Nat.iter 50 tick
                    (fst (call isReadyToExport (create sample_type_error None))))
     = true.
Proof. vm_compute. repeat split. Qed.

End AvailabilityWait.

Section ManagerPolling.
Import UdoPaintsEditorManager EditorWait.

(** The manager's own poll, [checkAvailability], has no attempt bound: while
    the editor is missing its timer stays armed and [isReady] stays false,
    however many times it has fired. *)
Lemma checkAvailability_keeps_polling (te : Method -> string) (n : nat) :
  timer_armed (Nat.iter n tick (create te None)) = true
  /\ isReady (Nat.iter n tick (create te None)) = false.
Proof.
  destruct (ticks_absent n (create te None) eq_refl) as (_ & Hready & _ & Htimer & _).
  by rewrite Hready, Htimer.
Qed.

(** Seen from [waitForManager]: a manager whose editor never appears is
    never ready, so the wait ends in failure at check [maxAttempts]. *)
Lemma waitForManager_editor_missing (te : Method -> string) (fuel : nat) :
  maxAttempts <= fuel ->
  status (waitForManager fuel
            (fun k => isReady (Nat.iter k tick (create te None)))) = Unavailable.
Proof.
  intros Hfuel. unfold waitForManager.
  rewrite (poll_never_ready maxAttempts _ (maxAttempts - 1)
             (fun k => proj2 (checkAvailability_keeps_polling te k)));
    cbn; unfold maxAttempts in *; try done; lia.
Qed.

End ManagerPolling.

Section Dismissal.
Import CartUpsellComponent.

Lemma flag_update_reads (s : Session) :
  getDismissedProducts (updateFlagElement s) = getDismissedProducts s.
Proof. unfold updateFlagElement. by destruct (flag s). Qed.

(** What a save leaves in storage. *)
Lemma saveDismissedState_list (productId : string) (s : Session) :
  getDismissedProducts (saveDismissedState productId s)
  = if bool_decide (productId ∈ getDismissedProducts s) then getDismissedProducts s
    else if storage_full s then getDismissedProducts s
    else getDismissedProducts s ++ [productId].
Proof.
  unfold saveDismissedState. case_bool_decide as Hin; [done|].
  rewrite flag_update_reads. unfold setDismissedProducts.
  by destruct (storage_full s).
Qed.

Lemma saveDismissedState_nodup (productId : string) (s : Session) :
  NoDup (getDismissedProducts s) ->
  NoDup (getDismissedProducts (saveDismissedState productId s)).
Proof.
  intros Hnd. rewrite saveDismissedState_list.
  case_bool_decide as Hin; [done|]. destruct (storage_full s); [done|].
  apply list.NoDup_app. split; [done|]. split; [|apply NoDup_singleton].
  intros x Hx Hx'. apply list_elem_of_singleton in Hx'. by subst x.
Qed.

(** C10.  [saveDismissedState] appends the product id to the stored list
    only when the id is not yet in it (and storage accepts the write); a
    second call with the same id changes nothing, neither the stored item nor
    the flag element; a duplicate-free list stays duplicate-free. *)
Theorem saveDismissedState_idempotent (productId : string) (s : Session) :
  saveDismissedState productId (saveDismissedState productId s)
  = saveDismissedState productId s
  /\ (productId ∈ getDismissedProducts s -> saveDismissedState productId s = s)
  /\ (productId ∉ getDismissedProducts s -> storage_full s = false ->
      getDismissedProducts (saveDismissedState productId s)
      = getDismissedProducts s ++ [productId])
  /\ (NoDup (getDismissedProducts s) ->
      NoDup (getDismissedProducts (saveDismissedState productId s))).
Proof.
  split; [|split; [|split]].
  - unfold saveDismissedState at 2 3.
    destruct (bool_decide (productId ∈ getDismissedProducts s)) eqn:Hin.
    + unfold saveDismissedState. by rewrite Hin.
    + apply bool_decide_eq_false in Hin.
      unfold setDismissedProducts. destruct (storage_full s) eqn:Hfull.
      * unfold saveDismissedState. rewrite flag_update_reads.
        rewrite bool_decide_eq_false_2 by done.
        unfold setDismissedProducts, updateFlagElement.
        destruct (flag s) eqn:Hflag; cbn [storage_full flag stored]; rewrite Hfull.
        -- cbn [flag storage_full stored]. unfold getDismissedProducts. cbn [stored].
           done.
        -- by rewrite Hflag.
      * unfold saveDismissedState. rewrite flag_update_reads.
        cbn [getDismissedProducts stored].
        rewrite bool_decide_eq_true_2; [done|]. set_solver.
  - intros Hin. unfold saveDismissedState. by rewrite bool_decide_eq_true_2.
  - intros Hnew Hfull. rewrite saveDismissedState_list, Hfull.
    by rewrite bool_decide_eq_false_2.
  - apply saveDismissedState_nodup.
Qed.

Lemma saveDismissedState_idempotent_witness :
  getDismissedProducts (saveDismissedState "p1" empty_session) = ["p1"]
  /\ NoDup (getDismissedProducts (saveDismissedState "p1" empty_session)).
Proof.
  destruct (saveDismissedState_idempotent "p1" empty_session)
    as (_ & _ & Happend & Hnodup).
  split.
  - apply (Happend ltac:(apply not_elem_of_nil) eq_refl).
  - apply Hnodup. constructor.
Defined.

(** From an empty session, any sequence of dismissals leaves a list without
    duplicates. *)
Lemma dismissals_no_duplicates (productIds : list string) (s : Session) :
  NoDup (getDismissedProducts s) ->
  NoDup (getDismissedProducts
           (fold_left (fun acc productId => saveDismissedState productId acc)
              productIds s)).
Proof.
  revert s. induction productIds as [|productId productIds IH]; intros s Hnd;
    [done|].
  cbn [fold_left]. apply IH. by apply saveDismissedState_nodup.
Qed.

Example dismiss_twice :
  fold_left (fun acc productId => saveDismissedState productId acc)
    ["p1"; "p2"; "p1"] empty_session
  = {| stored := Json ["p1"; "p2"]; storage_full := false;
       flag := Some ["p1"; "p2"] |}.
Proof. vm_compute. reflexivity. Qed.

End Dismissal.

(** * Further properties of the code *)

Section ScoreRange.
Import JS VariantMatcher Counting.

Lemma Qc_of_nat_le (n m : nat) : n <= m -> (Qc_of_nat n <= Qc_of_nat m)%Qc.
Proof.
  intros Hle. unfold Qc_of_nat, Qcle. cbn [this Q2Qc].
  rewrite !Qred_correct, <- Zle_Qle. lia.
Qed.

Lemma Qc_of_nat_lt (n m : nat) : n < m -> (Qc_of_nat n < Qc_of_nat m)%Qc.
Proof.
  intros Hlt. unfold Qc_of_nat, Qclt. cbn [this Q2Qc].
  rewrite !Qred_correct, <- Zlt_Qlt. lia.
Qed.

Lemma ratio_range (n d : nat) :
  n <= d -> (Qc_of_nat 0 <= ratio (n, d))%Qc /\ (ratio (n, d) <= Qc_of_nat 100)%Qc.
Proof.
  intros Hle. unfold ratio. destruct (Nat.ltb_spec 0 d) as [Hd|Hd].
  - assert (Hinv : (Qc_of_nat 0 <= / Qc_of_nat d)%Qc).
    { apply Qclt_le_weak, Qcinv_pos. by apply (Qc_of_nat_lt 0 d). }
    split.
    + apply Qcmult_nonneg_nonneg; [apply Qcmult_nonneg_nonneg|]; try done;
        apply (Qc_of_nat_le 0); lia.
    + rewrite <- (Qcmult_1_l (Qc_of_nat 100)) at 2.
      apply Qcmult_le_mono_nonneg_r; [apply (Qc_of_nat_le 0); lia|].
      unfold Qcdiv.
      rewrite <- (Qcmult_inv_r (Qc_of_nat d)) by (by apply Qc_of_nat_nonzero).
      apply Qcmult_le_mono_nonneg_r; [done|]. by apply Qc_of_nat_le.
  - split; [apply Qcle_refl|]. apply (Qc_of_nat_le 0). lia.
Qed.

Lemma ratio_positive (n d : nat) :
  n <= d -> (Qc_of_nat 0 < ratio (n, d))%Qc <-> 0 < n.
Proof.
  intros Hle. split.
  - intros Hpos. destruct n as [|n]; [|lia]. rewrite ratio_none in Hpos.
    by apply Qclt_not_eq in Hpos.
  - intros Hn. unfold ratio. destruct (Nat.ltb_spec 0 d) as [Hd|Hd]; [|lia].
    apply Qcmult_pos_pos; [apply Qcmult_pos_pos|].
    + by apply (Qc_of_nat_lt 0 n).
    + apply Qcinv_pos. by apply (Qc_of_nat_lt 0 d).
    + apply (Qc_of_nat_lt 0). lia.
Qed.

(** X1.  The match score always lies between 0 and 100, and it is above 0
    exactly when at least one comparable option agrees. *)
Theorem calculateMatchScore_range (candidate : Variant) (names : list string)
    (main : gmap string string) :
  (Qc_of_nat 0 <= calculateMatchScore candidate names main)%Qc
  /\ (calculateMatchScore candidate names main <= Qc_of_nat 100)%Qc
  /\ ((Qc_of_nat 0 < calculateMatchScore candidate names main)%Qc
      <-> 0 < numerator candidate names main).
Proof.
  unfold calculateMatchScore. rewrite score_counters_spec.
  pose proof (numerator_le_denominator candidate names main) as Hle.
  destruct (ratio_range _ _ Hle) as [Hlow Hhigh].
  split; [done|]. split; [done|]. by apply ratio_positive.
Qed.

End ScoreRange.

Section BestMatchId.
Import JS VariantMatcher.

(** X2.  For a non-empty product id, [findBestMatchingUpsellVariant] returns
    null exactly when no variant of the product scores above 0 (in particular
    when there is none); an id it returns is the id of the first-encountered
    best variant, which scores above 0.  No assumption on the ids is
    needed. *)
Theorem findBestMatchingUpsellVariant_id (main : gmap string string) (pid : string)
    (upsellVariants : gmap string (list Variant))
    (upsellOptions : gmap string (list string)) :
  pid <> "" ->
  (findBestMatchingUpsellVariant main (Some pid) upsellVariants upsellOptions = None
   <-> forall v, v ∈ candidates upsellVariants pid ->
         (score_of main upsellOptions pid v <= Qc_of_nat 0)%Qc)
  /\ (forall id,
        findBestMatchingUpsellVariant main (Some pid) upsellVariants upsellOptions
        = Some id ->
        exists i v,
          first_best (score_of main upsellOptions pid)
            (candidates upsellVariants pid) i v
          /\ v_id v = id
          /\ (Qc_of_nat 0 < score_of main upsellOptions pid v)%Qc).
Proof.
  intros Hpid. unfold findBestMatchingUpsellVariant, candidates.
  rewrite (truthy_nonempty pid Hpid). cbn [negb].
  set (vs := default [] (upsellVariants !! pid)).
  destruct vs as [|v0 vs'] eqn:Hshape.
  { cbn [length Nat.eqb]. split; [|done]. split; [|done].
    intros _ v Hv. by apply elem_of_nil in Hv. }
  rewrite <- Hshape. replace (length vs =? 0)%nat with false
    by (rewrite Hshape; reflexivity).
  match goal with |- context [fold_left better ?l _] => set (scored := l) end.
  set (seed := {| variantId := None; matchScore := Qc_of_nat 0 |}).
  assert (Hscored : forall j w, vs !! j = Some w ->
            scored !! j = Some {| variantId := Some (v_id w);
                                  matchScore := score_of main upsellOptions pid w |}).
  { intros j w Hj. unfold scored. rewrite map_is_fmap, list_lookup_fmap, Hj. done. }
  pose proof (reduce_better scored seed) as Hreduce.
  set (r := fold_left better scored seed) in *. clearbody r.
  destruct Hreduce as [[Heq Hle]|[i [(Hi & Hmax & Hfirst) Hgt]]].
  - rewrite Heq. cbn [variantId]. split; [|done]. split; [|done].
    intros _ v Hv. apply list_elem_of_lookup in Hv as [j Hj].
    apply (Hle j _ (Hscored j v Hj)).
  - unfold scored in Hi. rewrite map_is_fmap, list_lookup_fmap in Hi.
    destruct (vs !! i) as [v|] eqn:Hv; [|done]. cbn in Hi. injection Hi as Hr.
    subst r. cbn [variantId matchScore] in *.
    change (calculateMatchScore v (default [] (upsellOptions !! pid)) main)
      with (score_of main upsellOptions pid v) in *.
    split.
    + split; [done|]. intros Hnone. exfalso.
      apply (Qcle_not_lt _ _ (Hnone v ltac:(by eapply list_elem_of_lookup_2))).
      exact Hgt.
    + intros id Hid. injection Hid as <-. exists i, v.
      split; [|by split]. split; [done|]. split.
      * intros j w Hj. apply (Hmax j _ (Hscored j w Hj)).
      * intros j w Hlt Hj. apply (Hfirst j _ Hlt (Hscored j w Hj)).
Qed.

Lemma findBestMatchingUpsellVariant_id_witness :
  exists i v,
    first_best (score_of main_large_red gift_upsellOptions "gift")
      (candidates gift_upsellVariants "gift") i v
    /\ v_id v = "g2"
    /\ (Qc_of_nat 0 < score_of main_large_red gift_upsellOptions "gift" v)%Qc.
Proof.
  destruct (findBestMatchingUpsellVariant_id main_large_red "gift"
              gift_upsellVariants gift_upsellOptions ltac:(discriminate))
    as [_ Hsome].
  apply (Hsome "g2"). vm_compute. reflexivity.
Defined.

End BestMatchId.

Section NormalForms.
Import JS HideConditionManager.

Lemma lower_char_idempotent (c : ascii) : lower_char (lower_char c) = lower_char c.
Proof. destruct c as [[] [] [] [] [] [] [] []]; reflexivity. Qed.

Lemma lower_char_space (c : ascii) : is_space (lower_char c) = is_space c.
Proof. destruct c as [[] [] [] [] [] [] [] []]; reflexivity. Qed.

Lemma toLowerCase_idempotent (s : string) : toLowerCase (toLowerCase s) = toLowerCase s.
Proof.
  induction s as [|c s IH]; [done|]. simpl. by rewrite lower_char_idempotent, IH.
Qed.

Lemma toLowerCase_truthy (s : string) : truthy (toLowerCase s) = truthy s.
Proof. by destruct s. Qed.

Lemma trimStart_lower (s : string) : trimStart (toLowerCase s) = toLowerCase (trimStart s).
Proof.
  induction s as [|c s IH]; [done|]. simpl. rewrite lower_char_space.
  by destruct (is_space c).
Qed.

Lemma trimEnd_lower (s : string) : trimEnd (toLowerCase s) = toLowerCase (trimEnd s).
Proof.
  induction s as [|c s IH]; [done|]. simpl. rewrite IH, lower_char_space.
  destruct (trimEnd s); simpl; [by destruct (is_space c)|done].
Qed.

Lemma trim_lower (s : string) : trim (toLowerCase s) = toLowerCase (trim s).
Proof. unfold trim. by rewrite trimStart_lower, trimEnd_lower. Qed.

Lemma trimStart_clean (s : string) : starts_clean (trimStart s) = true.
Proof.
  induction s as [|c s IH]; [done|]. simpl.
  destruct (is_space c) eqn:Hc; [done|]. simpl. by rewrite Hc.
Qed.

Lemma trimStart_id (s : string) : starts_clean s = true -> trimStart s = s.
Proof. destruct s as [|c s]; [done|]. simpl. by destruct (is_space c). Qed.

Lemma trimEnd_clean (s : string) : starts_clean s = true -> starts_clean (trimEnd s) = true.
Proof.
  destruct s as [|c s]; [done|]. simpl. intros Hc.
  destruct (trimEnd s); simpl; [|done].
  destruct (is_space c) eqn:Hspace; [done|]. simpl. by rewrite Hspace.
Qed.

Lemma trimEnd_idempotent (s : string) : trimEnd (trimEnd s) = trimEnd s.
Proof.
  induction s as [|c s IH]; [done|]. simpl.
  destruct (trimEnd s) as [|d t] eqn:Ht.
  - destruct (is_space c) eqn:Hc; [done|]. simpl. by rewrite Hc.
  - change (trimEnd (String c (String d t)))
      with (match trimEnd (String d t) with
            | EmptyString => if is_space c then EmptyString else String c EmptyString
            | String _ _ as t' => String c t'
            end).
    by rewrite IH.
Qed.

Lemma trim_idempotent (s : string) : trim (trim s) = trim s.
Proof.
  unfold trim.
  rewrite (trimStart_id (trimEnd (trimStart s)))
    by (apply trimEnd_clean, trimStart_clean).
  apply trimEnd_idempotent.
Qed.

Lemma product_names_clean (names product : string) :
  product ∈ product_names names -> product <> "" /\ trim product = product.
Proof.
  unfold product_names. intros Hin.
  apply list_elem_of_In, filter_In in Hin as [Hin Hlen].
  apply in_map_iff in Hin as (piece & <- & _). split.
  - intros Hempty. by rewrite Hempty in Hlen.
  - apply trim_idempotent.
Qed.

Lemma filter_non_null_elem {A : Type} (l : list (option A)) (x : A) :
  x ∈ filter_non_null l -> Some x ∈ l.
Proof.
  induction l as [|[y|] l IH]; cbn [filter_non_null]; intros Hin.
  - by apply elem_of_nil in Hin.
  - apply elem_of_cons in Hin as [->|Hin]; apply elem_of_cons; [by left|right; auto].
  - apply elem_of_cons. right. auto.
Qed.

(** X3.  Whatever the configuration string, every hide condition the parser
    returns has its option name and value lower-cased and free of surrounding
    white space, and every product name in it is non-empty and free of
    surrounding white space. *)
Theorem parseHideConditions_normal (input : option string) (condition : HideCondition) :
  condition ∈ parseHideConditions input ->
  toLowerCase (optionName condition) = optionName condition
  /\ trim (optionName condition) = optionName condition
  /\ toLowerCase (optionValue condition) = optionValue condition
  /\ trim (optionValue condition) = optionValue condition
  /\ forall product, product ∈ upsellProducts condition ->
       product <> "" /\ trim product = product.
Proof.
  unfold parseHideConditions. destruct input as [s|]; [|intros H; by apply elem_of_nil in H].
  destruct (negb (truthy s) || String.eqb (trim s) "");
    [intros H; by apply elem_of_nil in H|].
  intros Hin. apply filter_non_null_elem in Hin.
  apply list_elem_of_In, in_map_iff in Hin as (entry & Hparse & _).
  unfold parseSingleCondition in Hparse.
  destruct (regex_exec entry) as [[[g1 g2] g3]|]; [|done].
  destruct (negb (truthy g1) || negb (truthy g2) || negb (truthy g3)); [done|].
  injection Hparse as <-. cbn [optionName optionValue upsellProducts].
  rewrite !toLowerCase_idempotent, !trim_lower, !trim_idempotent.
  split; [done|]. split; [done|]. split; [done|]. split; [done|].
  intros product Hproduct. by apply product_names_clean in Hproduct.
Qed.

Lemma parseHideConditions_normal_witness :
  toLowerCase "size" = "size" /\ trim "size" = "size"
  /\ toLowerCase "large" = "large" /\ trim "large" = "large"
  /\ forall product, product ∈ ["Gift Wrap"; "Extra Brush"] ->
       product <> "" /\ trim product = product.
Proof.
  apply (parseHideConditions_normal (Some sample_conditions)
           (mkHideCondition "size" "large" ["Gift Wrap"; "Extra Brush"])).
  vm_compute. apply elem_of_cons. by left.
Defined.

End NormalForms.

Section ConditionCheck.
Import JS HideConditionManager HideConditionCheck.

Lemma normalize_fold_other (entries : list (string * string))
    (acc : gmap string string) (key : string) :
  key ∉ map (fun kv => toLowerCase (fst kv)) entries ->
  fold_left (fun a kv => <[toLowerCase (fst kv) := toLowerCase (snd kv)]> a)
    entries acc !! key = acc !! key.
Proof.
  revert acc. induction entries as [|[k v] entries IH]; intros acc Hkey; [done|].
  simpl in Hkey. apply not_elem_of_cons in Hkey as [Hne Hkey].
  cbn [fold_left fst snd]. rewrite (IH _ Hkey). by apply lookup_insert_ne.
Qed.

Lemma normalize_fold_elem (entries : list (string * string))
    (acc : gmap string string) (k v : string) :
  NoDup (map (fun kv => toLowerCase (fst kv)) entries) ->
  (k, v) ∈ entries ->
  fold_left (fun a kv => <[toLowerCase (fst kv) := toLowerCase (snd kv)]> a)
    entries acc !! toLowerCase k = Some (toLowerCase v).
Proof.
  revert acc. induction entries as [|[k0 v0] entries IH]; intros acc Hnd Hin;
    [by apply elem_of_nil in Hin|].
  simpl in Hnd. apply list.NoDup_cons in Hnd as [Hk0 Hnd].
  cbn [fold_left fst snd]. apply elem_of_cons in Hin as [Heq|Hin].
  - injection Heq as <- <-. rewrite (normalize_fold_other entries _ _ Hk0).
    apply lookup_insert_eq.
  - by apply IH.
Qed.

Lemma normalize_fold_source (entries : list (string * string))
    (acc : gmap string string) (key value : string) :
  fold_left (fun a kv => <[toLowerCase (fst kv) := toLowerCase (snd kv)]> a)
    entries acc !! key = Some value ->
  (exists k v, (k, v) ∈ entries /\ toLowerCase k = key /\ toLowerCase v = value)
  \/ acc !! key = Some value.
Proof.
  revert acc. induction entries as [|[k0 v0] entries IH]; intros acc Hlookup;
    [by right|].
  cbn [fold_left fst snd] in Hlookup. destruct (IH _ Hlookup) as [(k & v & Hin & Hk & Hv)|Hacc].
  - left. exists k, v. split; [apply elem_of_cons; by right|done].
  - destruct (decide (toLowerCase k0 = key)) as [Heq|Hne].
    + rewrite Heq, lookup_insert_eq in Hacc. injection Hacc as Hv.
      left. exists k0, v0. split; [apply elem_of_cons; by left|done].
    + rewrite lookup_insert_ne in Hacc by done. by right.
Qed.

(** X4.  For an option mapping whose names stay distinct when lower-cased, a
    hide condition configured as [name:value[..]] is triggered exactly when
    the mapping holds an option whose name equals the configured name up to
    case (the configured name being trimmed) and whose value is non-empty and
    equals the configured value up to case. *)
Theorem triggered_ignores_case (entries : list (string * string))
    (name value names : string) :
  NoDup (map (fun kv => toLowerCase (fst kv)) entries) ->
  triggered (normalizeOptions entries) (condition_of name value names) = true
  <-> exists k v, (k, v) ∈ entries
                  /\ toLowerCase k = toLowerCase (trim name)
                  /\ v <> ""
                  /\ toLowerCase v = toLowerCase (trim value).
Proof.
  intros Hnd. unfold triggered, normalizeOptions. cbn [optionName optionValue condition_of].
  split.
  - destruct (fold_left _ entries ∅ !! toLowerCase (trim name)) as [found|] eqn:Hfound;
      [|done].
    intros Htest. apply andb_true_iff in Htest as [Htruthy Heq].
    apply String.eqb_eq in Heq.
    destruct (normalize_fold_source _ _ _ _ Hfound) as [(k & v & Hin & Hk & Hv)|Hempty];
      [|by rewrite lookup_empty in Hempty].
    exists k, v. split; [done|]. split; [done|]. split; [|congruence].
    intros ->. by rewrite <- Hv in Htruthy.
  - intros (k & v & Hin & Hk & Hv & Hvalue).
    rewrite <- Hk, (normalize_fold_elem entries ∅ k v Hnd Hin).
    rewrite toLowerCase_truthy, (truthy_nonempty v Hv), Hvalue.
    by rewrite String.eqb_refl.
Qed.

Lemma triggered_ignores_case_witness :
  triggered (normalizeOptions [("SIZE", "LARGE"); ("Color", "Red")])
    (condition_of " Size" "Large " "Gift Wrap") = true.
Proof.
  apply (triggered_ignores_case [("SIZE", "LARGE"); ("Color", "Red")]
           " Size" "Large " "Gift Wrap").
  - apply (bool_decide_unpack _). vm_compute. exact I.
  - exists "SIZE", "LARGE". split; [apply elem_of_cons; by left|].
    split; [reflexivity|]. split; [discriminate|reflexivity].
Defined.

End ConditionCheck.

Section VisibilitySteps.
Import JS UpsellProducts.

Lemma hide_unfold_effective (c : Component) (id : string) (h : nat) (it : Item) :
  items c !! h = Some it -> id <> "" ->
  hideUpsellProduct (Some id) (Some h) c
  = {| items := <[h := match checkbox it with
                       | Some true => set_checked false (set_style_display "none" it)
                       | _ => set_style_display "none" it
                       end]> (items c);
       checkboxes := checkboxes c;
       hiddenUpsellProducts := {[ id ]} ∪ hiddenUpsellProducts c;
       originalDisplayValue :=
         if negb (String.eqb (computed_display it) "none")
         then Some (computed_display it) else originalDisplayValue c;
       dispatched := match checkbox it with
                     | Some true => dispatched c ++ [(h, "change")]
                     | _ => dispatched c
                     end |}.
Proof.
  intros Hit Hid. unfold hideUpsellProduct, element. cbn [mbind option_bind].
  rewrite Hit. cbn [fmap option_fmap option_map]. rewrite (truthy_nonempty id Hid).
  cbn [negb]. by destruct (checkbox it) as [[|]|].
Qed.

Lemma hide_unfold_idle (c : Component) (upsellId : option string) (item : option nat) :
  (forall h, ~ hides c upsellId item h) -> hideUpsellProduct upsellId item c = c.
Proof.
  intros Hidle. unfold hideUpsellProduct, element.
  destruct item as [h|]; cbn [mbind option_bind]; [|done].
  destruct (items c !! h) as [it|] eqn:Hit; cbn [fmap option_fmap option_map]; [|done].
  destruct upsellId as [id|]; [|done]. destruct id as [|a id]; [done|].
  exfalso. apply (Hidle h). split; [done|]. split; [by eapply lookup_lt_Some|].
  by eexists.
Qed.

Lemma hides_dec (c : Component) (upsellId : option string) (item : option nat) :
  (exists h it id, item = Some h /\ items c !! h = Some it
                   /\ upsellId = Some id /\ id <> "")
  \/ (forall h, ~ hides c upsellId item h).
Proof.
  destruct item as [h|]; [|right; by intros h [? _]].
  destruct (items c !! h) as [it|] eqn:Hit.
  - destruct upsellId as [[|a id]|].
    + right. intros h' (_ & _ & id & Hid & Hne). by injection Hid as <-.
    + left. by exists h, it, (String a id).
    + right. by intros h' (_ & _ & id & Hid & _).
  - right. intros h' (Heq & Hlt & _). injection Heq as <-.
    apply lookup_ge_None in Hit. lia.
Qed.

Lemma hide_frame (c : Component) (upsellId : option string) (item : option nat) :
  length (items (hideUpsellProduct upsellId item c)) = length (items c)
  /\ checkboxes (hideUpsellProduct upsellId item c) = checkboxes c
  /\ hiddenUpsellProducts c ⊆ hiddenUpsellProducts (hideUpsellProduct upsellId item c)
  /\ (originalDisplayValue c <> Some "none" ->
      originalDisplayValue (hideUpsellProduct upsellId item c) <> Some "none").
Proof.
  destruct (hides_dec c upsellId item) as [(h & it & id & -> & Hit & -> & Hid)|Hidle].
  - rewrite (hide_unfold_effective c id h it Hit Hid).
    cbn [items checkboxes hiddenUpsellProducts originalDisplayValue].
    split; [by rewrite length_insert|]. split; [done|]. split; [set_solver|].
    destruct (String.eqb_spec (computed_display it) "none") as [|Hne]; cbn [negb];
      [done|congruence].
  - by rewrite (hide_unfold_idle c upsellId item Hidle).
Qed.

(** After a hide, an item has display [none] exactly when it had it before
    or is the one the hide took effect on. *)
Lemma hide_display (c : Component) (upsellId : option string) (item : option nat)
    (h : nat) :
  display_none (hideUpsellProduct upsellId item c) h
  <-> display_none c h \/ hides c upsellId item h.
Proof.
  destruct (hides_dec c upsellId item) as [(h0 & it & id & -> & Hit & -> & Hid)|Hidle].
  - rewrite (hide_unfold_effective c id h0 it Hit Hid). unfold display_none.
    cbn [items]. assert (Hlt : h0 < length (items c)) by (by eapply lookup_lt_Some).
    destruct (decide (h0 = h)) as [<-|Hne].
    + rewrite list_lookup_insert_eq by done. split.
      * intros _. right. split; [done|]. split; [done|]. by exists id.
      * intros _. eexists. split; [done|]. by destruct (checkbox it) as [[|]|].
    + rewrite list_lookup_insert_ne by done. split; [by left|].
      intros [Hnone|(Heq & _)]; [done|]. congruence.
  - rewrite (hide_unfold_idle c upsellId item Hidle). split; [by left|].
    intros [Hnone|Hhides]; [done|]. by apply Hidle in Hhides.
Qed.

(** A hidden, unchecked item stays so through any hide; the hide that takes
    effect on an item leaves it hidden and unchecked. *)
Lemma hide_keeps_hidden (c : Component) (upsellId : option string) (item : option nat)
    (h : nat) :
  hidden_item c h \/ hides c upsellId item h ->
  hidden_item (hideUpsellProduct upsellId item c) h.
Proof.
  destruct (hides_dec c upsellId item) as [(h0 & it & id & -> & Hit & -> & Hid)|Hidle].
  - rewrite (hide_unfold_effective c id h0 it Hit Hid). unfold hidden_item.
    cbn [items]. assert (Hlt : h0 < length (items c)) by (by eapply lookup_lt_Some).
    destruct (decide (h0 = h)) as [<-|Hne].
    + rewrite list_lookup_insert_eq by done. intros _. eexists. split; [done|].
      destruct (checkbox it) as [[|]|] eqn:Hbox; cbn; rewrite ?Hbox; by split.
    + rewrite list_lookup_insert_ne by done.
      intros [Hhidden|(Heq & _)]; [done|congruence].
  - rewrite (hide_unfold_idle c upsellId item Hidle).
    intros [Hhidden|Hhides]; [done|]. by apply Hidle in Hhides.
Qed.

(** X5.  Hiding is idempotent: hiding the same item under the same id a
    second time changes nothing; no second [change] event is dispatched and
    the display kept for restoring is not overwritten by [none]. *)
Theorem hideUpsellProduct_idempotent (upsellId : option string) (item : option nat)
    (c : Component) :
  hideUpsellProduct upsellId item (hideUpsellProduct upsellId item c)
  = hideUpsellProduct upsellId item c.
Proof.
  destruct (hides_dec c upsellId item) as [(h & it & id & -> & Hit & -> & Hid)|Hidle].
  - assert (Hlt : h < length (items c)) by (by eapply lookup_lt_Some).
    rewrite (hide_unfold_effective c id h it Hit Hid).
    set (it' := match checkbox it with
                | Some true => set_checked false (set_style_display "none" it)
                | _ => set_style_display "none" it
                end).
    assert (Hit' : style_display it' = "none" /\ checkbox it' <> Some true
                   /\ computed_display it' = "none"
                   /\ set_style_display "none" it' = it').
    { unfold it'. destruct (checkbox it) as [[|]|] eqn:Hbox; cbn; rewrite ?Hbox;
        repeat split; try done; by destruct it. }
    destruct Hit' as (Hstyle & Hbox' & Hcomputed & Hsame).
    match goal with |- hideUpsellProduct _ _ ?c1 = _ => set (c1' := c1) end.
    assert (Hlookup : items c1' !! h = Some it')
      by (unfold c1'; cbn [items]; by apply list_lookup_insert_eq).
    rewrite (hide_unfold_effective c1' id h it' Hlookup Hid).
    unfold c1'. cbn [items checkboxes hiddenUpsellProducts originalDisplayValue dispatched].
    rewrite Hcomputed. cbn [String.eqb Ascii.eqb Bool.eqb negb].
    rewrite list_insert_insert_eq.
    assert (Hunion : {[id]} ∪ ({[id]} ∪ hiddenUpsellProducts c)
                     = ({[id]} ∪ hiddenUpsellProducts c : gset string))
      by (by rewrite (assoc_L (∪)), (idemp_L (∪))).
    rewrite Hunion.
    destruct (checkbox it') as [[|]|] eqn:Hb; [done| |]; by rewrite Hsame.
  - by rewrite !(hide_unfold_idle c upsellId item Hidle).
Qed.

End VisibilitySteps.

Section ShowSteps.
Import JS UpsellProducts.

Lemma listed_elem (entries : list (option string * option nat)) (h : nat) :
  listed entries h = true <-> exists upsellId, (upsellId, Some h) ∈ entries.
Proof.
  unfold listed. rewrite existsb_exists. split.
  - intros ([uid item] & Hin & Hitem). apply bool_decide_eq_true in Hitem.
    cbn in Hitem. subst item. exists uid. by apply list_elem_of_In.
  - intros (uid & Hin). exists (uid, Some h). split; [by apply list_elem_of_In|].
    by apply bool_decide_eq_true.
Qed.

Lemma show_frame (c : Component) (upsellId : option string) (item : option nat) :
  length (items (showUpsellProduct upsellId item c)) = length (items c)
  /\ checkboxes (showUpsellProduct upsellId item c) = checkboxes c
  /\ originalDisplayValue (showUpsellProduct upsellId item c) = originalDisplayValue c.
Proof.
  unfold showUpsellProduct. destruct (element c item) as [[h it]|]; [|done].
  cbn [items checkboxes originalDisplayValue]. by rewrite length_insert.
Qed.

Lemma show_items (c : Component) (upsellId : option string) (item : option nat)
    (h : nat) :
  items (showUpsellProduct upsellId item c) !! h
  = if bool_decide (item = Some h)
    then set_style_display (restored_display c) <$> items c !! h
    else items c !! h.
Proof.
  unfold showUpsellProduct, element. destruct item as [h0|]; cbn [mbind option_bind].
  - destruct (items c !! h0) as [it|] eqn:Hit; cbn [fmap option_fmap option_map].
    + cbn [items]. assert (Hlt : h0 < length (items c)) by (by eapply lookup_lt_Some).
      case_bool_decide as Heq.
      * injection Heq as <-. rewrite list_lookup_insert_eq by done. by rewrite Hit.
      * rewrite list_lookup_insert_ne; [done|]. congruence.
    + case_bool_decide as Heq; [|done]. injection Heq as <-. by rewrite Hit.
  - by rewrite bool_decide_eq_false_2.
Qed.

Lemma set_style_twice (value : string) (it : Item) :
  set_style_display value (set_style_display value it) = set_style_display value it.
Proof. done. Qed.

(** After a run of shows, the items the entries point at carry the restored
    display and the others are as before. *)
Lemma shows_items (entries : list (option string * option nat)) (c : Component)
    (h : nat) :
  items (fold_left (fun acc '(upsellId, item) => showUpsellProduct upsellId item acc)
           entries c) !! h
  = if listed entries h
    then set_style_display (restored_display c) <$> items c !! h
    else items c !! h.
Proof.
  revert c. induction entries as [|[uid item] entries IH]; intros c; [done|].
  cbn [fold_left listed existsb snd]. fold (listed entries h).
  rewrite IH. unfold restored_display at 1.
  destruct (show_frame c uid item) as (_ & _ & ->). fold (restored_display c).
  rewrite show_items.
  destruct (bool_decide (item = Some h)), (listed entries h); cbn [orb]; try done.
  destruct (items c !! h); done.
Qed.

Lemma shows_frame (entries : list (option string * option nat)) (c : Component) :
  length (items (fold_left (fun acc '(upsellId, item) =>
                              showUpsellProduct upsellId item acc) entries c))
  = length (items c)
  /\ checkboxes (fold_left (fun acc '(upsellId, item) =>
                              showUpsellProduct upsellId item acc) entries c)
     = checkboxes c
  /\ originalDisplayValue (fold_left (fun acc '(upsellId, item) =>
                                        showUpsellProduct upsellId item acc) entries c)
     = originalDisplayValue c.
Proof.
  revert c. induction entries as [|[uid item] entries IH]; intros c; [done|].
  cbn [fold_left]. destruct (IH (showUpsellProduct uid item c)) as (-> & -> & ->).
  apply show_frame.
Qed.

End ShowSteps.

Section HideAll.
Import JS UpsellProducts.

Lemma hides_all (entries : list (option string * option nat)) (c : Component) :
  (forall h, hidden_item c h ->
     hidden_item (fold_left (fun acc '(upsellId, item) =>
                               hideUpsellProduct upsellId item acc) entries c) h)
  /\ hiddenUpsellProducts c
     ⊆ hiddenUpsellProducts (fold_left (fun acc '(upsellId, item) =>
                                          hideUpsellProduct upsellId item acc) entries c)
  /\ (forall id h, (Some id, Some h) ∈ entries -> id <> "" -> h < length (items c) ->
        hidden_item (fold_left (fun acc '(upsellId, item) =>
                                  hideUpsellProduct upsellId item acc) entries c) h
        /\ id ∈ hiddenUpsellProducts
                  (fold_left (fun acc '(upsellId, item) =>
                                hideUpsellProduct upsellId item acc) entries c)).
Proof.
  revert c. induction entries as [|[uid item] entries IH]; intros c.
  - split; [done|]. split; [done|]. intros id h Hin. by apply elem_of_nil in Hin.
  - cbn [fold_left]. destruct (IH (hideUpsellProduct uid item c)) as (Hkeep & Hsub & Hnew).
    destruct (hide_frame c uid item) as (Hlen & _ & Hsub1 & _).
    split; [|split].
    + intros h Hh. apply Hkeep, hide_keeps_hidden. by left.
    + by transitivity (hiddenUpsellProducts (hideUpsellProduct uid item c)).
    + intros id h Hin Hid Hlt. apply elem_of_cons in Hin as [Heq|Hin].
      * injection Heq as <- <-. split.
        -- apply Hkeep, hide_keeps_hidden. right. split; [done|]. split; [done|].
           by exists id.
        -- apply Hsub.
           destruct (lookup_lt_is_Some_2 (items c) h Hlt) as [it Hit].
           rewrite (hide_unfold_effective c id h it Hit Hid).
           cbn [hiddenUpsellProducts]. apply elem_of_union. left.
           by apply elem_of_singleton.
      * apply Hnew; [done|done|]. by rewrite Hlen.
Qed.


(** X6.  After [hideAllUpsellProducts], every checkbox that has an upsell id
    and lies in an item has that item at display [none] and unchecked, and
    its id in the hidden set. *)
Theorem hideAllUpsellProducts_hides (c : Component) (id : string) (h : nat) :
  (Some id, Some h) ∈ checkboxes c -> id <> "" -> h < length (items c) ->
  hidden_item (hideAllUpsellProducts c) h
  /\ id ∈ hiddenUpsellProducts (hideAllUpsellProducts c).
Proof.
  intros Hin Hid Hlt. unfold hideAllUpsellProducts.
  by apply (hides_all (checkboxes c) c).
Qed.

Lemma hideAllUpsellProducts_hides_witness :
  hidden_item (hideAllUpsellProducts two_items) 1
  /\ "u2" ∈ hiddenUpsellProducts (hideAllUpsellProducts two_items).
Proof.
  apply (hideAllUpsellProducts_hides two_items "u2" 1).
  - apply list_elem_of_lookup_2 with 1%nat. reflexivity.
  - discriminate.
  - cbn. lia.
Defined.




End HideAll.

Section HideAllExamples.
Import JS UpsellProducts.



End HideAllExamples.

Section FoldUnion.
Context {A : Type}.
Variable good : Component -> Prop.
Variable ok : A -> Prop.
Variable step : option Component -> A -> option Component.
Variable adds : A -> nat -> Prop.

Hypothesis step_adds :
  forall c a, good c -> ok a ->
    exists c', step (Some c) a = Some c' /\ good c'
               /\ forall h, display_none c' h <-> display_none c h \/ adds a h.

(** A loop whose every turn adds the items [adds a] to those at display
    [none] adds, in all, the items some turn adds. *)
Lemma fold_adds (l : list A) (c : Component) :
  good c -> (forall a, a ∈ l -> ok a) ->
  exists c', fold_left step l (Some c) = Some c' /\ good c'
             /\ forall h, display_none c' h
                          <-> display_none c h \/ exists a, a ∈ l /\ adds a h.
Proof.
  revert c. induction l as [|a l IH]; intros c Hgood Hok.
  - exists c. split; [done|]. split; [done|]. intros h. split; [by left|].
    intros [Hnone|(a & Ha & _)]; [done|]. by apply elem_of_nil in Ha.
  - destruct (step_adds c a Hgood) as (c1 & Hstep & Hgood1 & Hadds1).
    { apply Hok, elem_of_cons. by left. }
    destruct (IH c1 Hgood1) as (c' & Hfold & Hgood' & Hadds').
    { intros b Hb. apply Hok, elem_of_cons. by right. }
    exists c'. cbn [fold_left]. rewrite Hstep. split; [done|]. split; [done|].
    intros h. rewrite Hadds', Hadds1. split.
    + intros [[Hnone|Ha]|(b & Hb & Hadds)].
      * by left.
      * right. exists a. split; [apply elem_of_cons; by left|done].
      * right. exists b. split; [apply elem_of_cons; by right|done].
    + intros [Hnone|(b & Hb & Hadds)]; [left; by left|].
      apply elem_of_cons in Hb as [->|Hb]; [left; by right|].
      right. by exists b.
Qed.

End FoldUnion.

Section HideByName.
Import JS UpsellProducts HideConditionCheck UpsellVisibility.

Variable productName : nat -> option string.

Lemma hide_if_named_adds (n : nat) (boxes : list (option string * option nat))
    (upsellProductName : string) (c : Component)
    (entry : option string * option nat) :
  framed n boxes c -> in_item n entry ->
  exists c', hide_if_named productName upsellProductName (Some c) entry = Some c'
             /\ framed n boxes c'
             /\ forall h, display_none c' h
                          <-> display_none c h
                              \/ entry_names productName upsellProductName entry h.
Proof.
  intros [Hlen Hboxes] (h0 & Hentry & Hlt). destruct entry as [uid item].
  cbn in Hentry. subst item. unfold hide_if_named, element. cbn [snd fst mbind option_bind].
  rewrite <- Hlen in Hlt. destruct (lookup_lt_is_Some_2 _ _ Hlt) as [it Hit].
  rewrite Hit. cbn [fmap option_fmap option_map].
  assert (Hidle : (forall h, ~ entry_names productName upsellProductName (uid, Some h0) h) ->
            exists c', Some c = Some c' /\ framed n boxes c'
                       /\ forall h, display_none c' h
                            <-> display_none c h
                                \/ entry_names productName upsellProductName (uid, Some h0) h).
  { intros Hno. exists c. split; [done|]. split; [done|]. intros h.
    split; [by left|]. intros [Hnone|Hnames]; [done|]. by apply Hno in Hnames. }
  destruct (productName h0) as [text|] eqn:Htext.
  - destruct (names_item text upsellProductName) eqn:Hnames.
    + eexists. split; [done|]. destruct (hide_frame c uid (Some h0)) as (Hl & Hb & _).
      split; [split; congruence|]. intros h. rewrite hide_display.
      split; (intros [Hnone|Hhide]; [by left|right]).
      * destruct Hhide as (Heq & _ & id & -> & Hid). injection Heq as <-.
        by exists id, text.
      * destruct Hhide as (id & text' & Heq & Hid & _). injection Heq as -> <-.
        split; [done|]. split; [done|]. by exists id.
    + apply Hidle. intros h (id & text' & Heq & _ & Htext' & Hnames').
      injection Heq as _ <-. congruence.
  - apply Hidle. intros h (id & text' & Heq & _ & Htext' & _).
    injection Heq as _ <-. congruence.
Qed.

Lemma hideUpsellProductByName_adds (n : nat) (boxes : list (option string * option nat))
    (upsellProductName : string) (c : Component) :
  framed n boxes c -> (forall entry, entry ∈ boxes -> in_item n entry) ->
  exists c', hideUpsellProductByName productName upsellProductName c = Some c'
             /\ framed n boxes c'
             /\ forall h, display_none c' h
                          <-> display_none c h
                              \/ exists entry, entry ∈ boxes
                                   /\ entry_names productName upsellProductName entry h.
Proof.
  intros Hframed Hboxes. unfold hideUpsellProductByName.
  destruct Hframed as [Hlen Hcb]. rewrite Hcb.
  apply (fold_adds (framed n boxes) (in_item n)
           (hide_if_named productName upsellProductName)
           (entry_names productName upsellProductName)); try done.
  intros c0 entry. apply hide_if_named_adds.
Qed.

Lemma apply_condition_adds (n : nat) (boxes : list (option string * option nat))
    (normalizedOptions : gmap string string) (c : Component)
    (condition : HideCondition) :
  (forall entry, entry ∈ boxes -> in_item n entry) ->
  framed n boxes c ->
  exists c', apply_condition productName normalizedOptions (Some c) condition = Some c'
             /\ framed n boxes c'
             /\ forall h, display_none c' h
                          <-> display_none c h
                              \/ condition_hides productName normalizedOptions boxes condition h.
Proof.
  intros Hboxes Hframed. unfold apply_condition, condition_hides.
  destruct (triggered normalizedOptions condition).
  - destruct (fold_adds (framed n boxes) (fun _ => True)
                (fun acc' name => acc' ≫= hideUpsellProductByName productName name)
                (fun name h =>
                   exists entry, entry ∈ boxes /\ entry_names productName name entry h))
      with (l := upsellProducts condition) (c := c) as (c' & Hfold & Hframed' & Hadds);
      try done.
    { intros c0 name Hc0 _. cbn [mbind option_bind].
      by apply hideUpsellProductByName_adds. }
    exists c'. split; [done|]. split; [done|]. intros h. rewrite Hadds.
    split; (intros [Hnone|Hrest]; [by left|right]); [by split|by destruct Hrest].
  - exists c. split; [done|]. split; [done|]. intros h. split; [by left|].
    intros [Hnone|[Hfalse _]]; done.
Qed.

(** X8.  [#checkIndividualHideConditions], run on a component whose
    checkboxes all lie in items (and whose kept display is not [none]), ends
    without an exception, and leaves the item of a checkbox with an upsell id
    at display [none] exactly when a triggered condition lists a product name
    equal, up to case, to the trimmed heading of that item; every other such
    item is shown. *)
Theorem checkIndividualHideConditions_hides (hideConditions : list HideCondition)
    (normalizedOptions : gmap string string) (c : Component) :
  all_in_items c ->
  originalDisplayValue c <> Some "none" ->
  exists c',
    checkIndividualHideConditions productName hideConditions normalizedOptions c
    = Some c'
    /\ forall id h, (Some id, Some h) ∈ checkboxes c -> id <> "" ->
         (display_none c' h
          <-> exists condition upsellProductName text,
                condition ∈ hideConditions
                /\ triggered normalizedOptions condition = true
                /\ upsellProductName ∈ upsellProducts condition
                /\ productName h = Some text
                /\ names_item text upsellProductName = true).
Proof.
  intros Hitems Horiginal. unfold checkIndividualHideConditions, showAllUpsellProducts.
  set (shown := fold_left _ (checkboxes c) c).
  destruct (shows_frame (checkboxes c) c) as (Hlen & Hboxes & Horig).
  fold shown in Hlen, Hboxes, Horig.
  assert (Hin_item : forall entry, entry ∈ checkboxes c ->
            in_item (length (items c)) entry) by exact Hitems.
  destruct (fold_adds (framed (length (items c)) (checkboxes c)) (fun _ => True)
              (apply_condition productName normalizedOptions)
              (condition_hides productName normalizedOptions (checkboxes c)))
    with (l := hideConditions) (c := shown) as (c' & Hfold & _ & Hadds); try done.
  { intros c0 condition Hc0 _. by apply apply_condition_adds. }
  exists c'. split; [done|]. intros id h Hbox Hid. rewrite Hadds.
  assert (Hshown : ~ display_none shown h).
  { intros (it & Hit & Hstyle). unfold shown in Hit. rewrite shows_items in Hit.
    rewrite (proj2 (listed_elem (checkboxes c) h)) in Hit by (by exists (Some id)).
    destruct (items c !! h) as [it0|]; [|done]. injection Hit as <-.
    cbn [style_display set_style_display] in Hstyle. unfold restored_display in Hstyle.
    destruct (originalDisplayValue c) as [value|]; [|done].
    destruct (truthy value); [congruence|done]. }
  split.
  - intros [Hnone|(condition & Hcondition & Htriggered & name & Hname
                   & entry & Hentry & Hnames)]; [done|].
    destruct Hnames as (id' & text & _ & _ & Htext & Hmatch).
    by exists condition, name, text.
  - intros (condition & name & text & Hcondition & Htriggered & Hname & Htext & Hmatch).
    right. exists condition. split; [done|]. split; [done|]. exists name.
    split; [done|]. exists (Some id, Some h). split; [done|]. by exists id, text.
Qed.

End HideByName.

Section HideByNameExamples.
Import JS UpsellProducts HideConditionManager HideConditionCheck UpsellVisibility.

Lemma two_items_in_items : all_in_items two_items.
Proof.
  intros entry Hentry. cbn in Hentry.
  apply elem_of_cons in Hentry as [->|Hentry]; [exists 0%nat; cbn; split; [done|lia]|].
  apply elem_of_cons in Hentry as [->|Hentry]; [exists 1%nat; cbn; split; [done|lia]|].
  by apply elem_of_nil in Hentry.
Qed.

Lemma checkIndividualHideConditions_hides_witness :
  exists c',
    checkIndividualHideConditions sample_headings
      (parseHideConditions (Some "Color:Red[gift wrap]"))
      (normalizeOptions [("Color", "RED")]) two_items = Some c'
    /\ forall id h, (Some id, Some h) ∈ checkboxes two_items -> id <> "" ->
         (display_none c' h
          <-> exists condition upsellProductName text,
                condition ∈ parseHideConditions (Some "Color:Red[gift wrap]")
                /\ triggered (normalizeOptions [("Color", "RED")]) condition = true
                /\ upsellProductName ∈ upsellProducts condition
                /\ sample_headings h = Some text
                /\ names_item text upsellProductName = true).
Proof.
  apply (checkIndividualHideConditions_hides sample_headings
           (parseHideConditions (Some "Color:Red[gift wrap]"))
           (normalizeOptions [("Color", "RED")]) two_items two_items_in_items).
  discriminate.
Defined.

(** The sample run: the selected colour triggers the condition, the first
    item (whose heading is the product name up to case and white space) is
    hidden and unchecked, the second is shown. *)
Example check_hides_named_item :
  (fun c' => (style_display <$> items c', checkbox <$> items c',
              hiddenUpsellProducts c', dispatched c'))
    <$> checkIndividualHideConditions sample_headings
          (parseHideConditions (Some "Color:Red[gift wrap]"))
          (normalizeOptions [("Color", "RED")]) two_items
  = Some (["none"; "block"], [Some false; Some false], {["u1"]}, [(0%nat, "change")]).
Proof. vm_compute. reflexivity. Qed.

(** A checkbox outside any item: the by-name hide of a triggered condition
    throws; without a triggered condition nothing is thrown. *)
Example check_throws_outside_item :
  checkIndividualHideConditions sample_headings
    (parseHideConditions (Some "Color:Red[gift wrap]"))
    (normalizeOptions [("Color", "RED")])
    {| items := [flex_item_checked]; checkboxes := [(Some "u1", None)];
       hiddenUpsellProducts := ∅; originalDisplayValue := None; dispatched := [] |}
  = None
  /\ checkIndividualHideConditions sample_headings
       (parseHideConditions (Some "Color:Red[gift wrap]"))
       (normalizeOptions [("Color", "Blue")])
       {| items := [flex_item_checked]; checkboxes := [(Some "u1", None)];
          hiddenUpsellProducts := ∅; originalDisplayValue := None; dispatched := [] |}
     <> None.
Proof. split; vm_compute; [reflexivity|discriminate]. Qed.

End HideByNameExamples.

Section HiddenInputs.
Import JS ProductForm UpsellForm.

Lemma hidden_input_upsell (v : Variant) : is_upsell_key (c_name (hidden_input v)) = true.
Proof. apply prefix_app. Qed.

Lemma setHiddenUpsellInputs_appends (hidden : gset string) (best : list Selection)
    (controls : list Control) :
  setHiddenUpsellInputs hidden best (Some controls)
  = Some (controls ++ map hidden_input (selected_variants hidden best)).
Proof.
  unfold setHiddenUpsellInputs, selected_variants.
  generalize (List.filter (selected hidden) best) as chosen. intros chosen.
  revert controls. induction chosen as [|upsell chosen IH]; intros controls.
  - by rewrite app_nil_r.
  - cbn [map fold_left omap list_omap]. destruct (sel_variant upsell) as [v|].
    + rewrite IH. cbn [map]. by rewrite <- app_assoc.
    + apply IH.
Qed.

Lemma filter_upsell_inputs (vs : list Variant) :
  List.filter (fun control => negb (is_upsell_key (c_name control)))
    (map hidden_input vs) = []
  /\ List.filter (fun control => is_upsell_key (c_name control))
       (map hidden_input vs) = map hidden_input vs.
Proof.
  induction vs as [|v vs [IH1 IH2]]; [done|]. cbn [map List.filter].
  rewrite hidden_input_upsell. cbn [negb]. by rewrite IH1, IH2.
Qed.

Lemma filter_twice {A : Type} (p : A -> bool) (l : list A) :
  List.filter p (List.filter p l) = List.filter p l.
Proof.
  induction l as [|x l IH]; [done|]. cbn [List.filter].
  destruct (p x) eqn:Hp; [|done]. cbn [List.filter]. by rewrite Hp, IH.
Qed.

Lemma filter_opposite {A : Type} (p : A -> bool) (l : list A) :
  List.filter p (List.filter (fun x => negb (p x)) l) = [].
Proof.
  induction l as [|x l IH]; [done|]. cbn [List.filter].
  destruct (p x) eqn:Hp; cbn [negb List.filter]; [done|]. by rewrite Hp.
Qed.

(** X9.  [#resetHiddenUpsellInputs] on a form: afterwards the fields with
    the upsell prefix are exactly one hidden input per selected variant, in
    order, named prefix + variant id and holding the variant's name; the
    other fields are untouched; and resetting again changes nothing. *)
Theorem resetHiddenUpsellInputs_exact (hidden : gset string) (best : list Selection)
    (controls : list Control) :
  exists controls',
    resetHiddenUpsellInputs hidden best (Some controls) = Some controls'
    /\ List.filter (fun control => is_upsell_key (c_name control)) controls'
       = map hidden_input (selected_variants hidden best)
    /\ List.filter (fun control => negb (is_upsell_key (c_name control))) controls'
       = List.filter (fun control => negb (is_upsell_key (c_name control))) controls
    /\ resetHiddenUpsellInputs hidden best (Some controls') = Some controls'.
Proof.
  unfold resetHiddenUpsellInputs, removeExistingUpsellInputs.
  cbn [fmap option_fmap option_map]. rewrite setHiddenUpsellInputs_appends.
  eexists. split; [done|].
  destruct (filter_upsell_inputs (selected_variants hidden best)) as [Hnone Hall].
  split; [|split].
  - rewrite List.filter_app, Hall, filter_opposite. done.
  - rewrite List.filter_app, Hnone, filter_twice. by rewrite app_nil_r.
  - rewrite setHiddenUpsellInputs_appends. f_equal.
    rewrite List.filter_app, Hnone, filter_twice. by rewrite app_nil_r.
Qed.

End HiddenInputs.

Section SubmittedUpsells.
Import JS ProductForm UpsellForm.

Lemma filter_set (p : string -> bool) (k : string) (v : JVal) (o : JObject) :
  List.filter (fun kv => p (fst kv)) (set k v o)
  = if p k then set k v (List.filter (fun kv => p (fst kv)) o)
    else List.filter (fun kv => p (fst kv)) o.
Proof.
  induction o as [|[k0 v0] o IH]; cbn [set List.filter fst].
  - by destruct (p k).
  - destruct (String.eqb_spec k0 k) as [->|Hne]; cbn [List.filter fst].
    + destruct (p k); [|done]. cbn [set]. by rewrite String.eqb_refl.
    + rewrite IH. destruct (p k0) eqn:Hp0, (p k) eqn:Hp; try done.
      cbn [set]. by rewrite (proj2 (String.eqb_neq k0 k) Hne).
Qed.

Lemma filter_fold_set (p : string -> bool) (l acc : JObject) :
  List.filter (fun kv => p (fst kv))
    (fold_left (fun a kv => set (fst kv) (snd kv) a) l acc)
  = fold_left (fun a kv => set (fst kv) (snd kv) a)
      (List.filter (fun kv => p (fst kv)) l)
      (List.filter (fun kv => p (fst kv)) acc).
Proof.
  revert acc. induction l as [|[k v] l IH]; intros acc; [done|].
  cbn [fold_left List.filter fst snd]. rewrite IH, filter_set.
  by destruct (p k).
Qed.

Lemma form_entries_app (a b : list Control) :
  form_entries (a ++ b) = form_entries a ++ form_entries b.
Proof. unfold form_entries. by rewrite List.filter_app, map_app. Qed.

Lemma form_entries_inputs (vs : list Variant) :
  form_entries (map hidden_input vs) = map upsell_entry vs.
Proof.
  induction vs as [|v vs IH]; [done|]. cbn [map].
  change (form_entries (hidden_input v :: map hidden_input vs))
    with (upsell_entry v :: form_entries (map hidden_input vs)).
  by rewrite IH.
Qed.

Lemma form_entries_plain (controls : list Control) :
  List.filter (fun kv => is_upsell_key (fst kv))
    (form_entries
       (List.filter (fun control => negb (is_upsell_key (c_name control))) controls))
  = [].
Proof.
  induction controls as [|control controls IH]; [done|]. cbn [List.filter].
  destruct (is_upsell_key (c_name control)) eqn:Hkey; cbn [negb]; [done|].
  unfold form_entries in *. cbn [List.filter].
  destruct (c_submits control && truthy (c_name control)); [|done].
  cbn [map List.filter fst]. by rewrite Hkey.
Qed.

Lemma filter_upsell_entries (vs : list Variant) :
  List.filter (fun kv => is_upsell_key (fst kv)) (map upsell_entry vs)
  = map upsell_entry vs.
Proof.
  induction vs as [|v vs IH]; [done|]. cbn [map List.filter].
  assert (Hkey : is_upsell_key (fst (upsell_entry v)) = true) by apply prefix_app.
  by rewrite Hkey, IH.
Qed.

Lemma append_inj_l (p a b : string) : (p ++ a)%string = (p ++ b)%string -> a = b.
Proof. induction p as [|c p IH]; [done|]. simpl. intros Heq. injection Heq as Heq. auto. Qed.

Lemma upsell_entries_nodup (vs : list Variant) :
  NoDup (v_id <$> vs) -> NoDup (keys (map upsell_entry vs)).
Proof.
  induction vs as [|v vs IH]; intros Hnd; [constructor|].
  rewrite fmap_cons in Hnd. apply list.NoDup_cons in Hnd as [Hv Hnd].
  cbn [map keys fst upsell_entry]. apply list.NoDup_cons. split; [|by apply IH].
  intros Hin. apply Hv. apply list_elem_of_In, in_map_iff in Hin as ([k x] & Hk & Hin).
  apply in_map_iff in Hin as (w & Hw & Hin). injection Hw as <- _. cbn in Hk.
  apply append_inj_l in Hk. rewrite <- Hk. apply list_elem_of_fmap.
  exists w. split; [done|]. by apply list_elem_of_In.
Qed.

(** X10.  From the checkboxes to the cart request: when the form has been
    reset for the current selection and is then submitted, the upsell line
    items [#detectUpsellProducts] extracts are, in order, one per selected
    variant, with the variant's id as id, its name as title, quantity 1 and
    the product title as property, whatever other fields the form holds.
    The variant ids are taken to be distinct and the form to hold a
    non-empty product title. *)
Theorem selected_upsells_reach_cart (hidden : gset string) (best : list Selection)
    (controls controls' : list Control) (sections : string)
    (lineItemProperties : JObject) (title : JVal) :
  resetHiddenUpsellInputs hidden best (Some controls) = Some controls' ->
  NoDup (v_id <$> selected_variants hidden best) ->
  get "product-title" (formDataAsJson controls' sections lineItemProperties)
  = Some title ->
  truthy_val (Some title) = true ->
  snd (detectUpsellProducts (formDataAsJson controls' sections lineItemProperties))
  = map (fun v => line_item title (v_id v) (VStr (v_name v)))
      (selected_variants hidden best).
Proof.
  intros Hreset Hnd Htitle Htruthy.
  unfold resetHiddenUpsellInputs, removeExistingUpsellInputs in Hreset.
  cbn [fmap option_fmap option_map] in Hreset.
  rewrite setHiddenUpsellInputs_appends in Hreset. injection Hreset as <-.
  set (vs := selected_variants hidden best) in *.
  match goal with |- context [formDataAsJson ?cs _ _] => set (submitted := cs) in * end.
  assert (Hupsell :
    List.filter (fun kv => is_upsell_key (fst kv))
      (formDataAsJson submitted sections lineItemProperties)
    = map upsell_entry vs).
  { unfold formDataAsJson. rewrite filter_set.
    change (is_upsell_key "properties") with false. cbn iota.
    unfold fromEntries. rewrite filter_fold_set. cbn [List.filter].
    rewrite List.filter_app. cbn [List.filter fst].
    change (is_upsell_key "sections") with false. cbn iota. rewrite app_nil_r.
    unfold submitted. rewrite form_entries_app, List.filter_app, form_entries_plain.
    cbn [app]. rewrite form_entries_inputs, filter_upsell_entries.
    apply fold_set_nodup. by apply upsell_entries_nodup. }
  unfold detectUpsellProducts. rewrite Hupsell, Htitle, Htruthy. cbn [negb].
  destruct vs as [|v vs'] eqn:Hvs; [done|]. rewrite <- Hvs.
  replace (length (map upsell_entry vs) =? 0)%nat with false
    by (rewrite Hvs; reflexivity).
  cbn [snd default from_option id]. rewrite map_map. apply map_ext.
  intros w. unfold line_item, upsell_entry. cbn [fst snd].
  by rewrite remove_first_prefix.
Qed.

End SubmittedUpsells.

Section SubmittedUpsellsExamples.
Import JS ProductForm UpsellForm.

Lemma selected_upsells_reach_cart_witness :
  snd (detectUpsellProducts
         (formDataAsJson
            [ mkControl "id" "41" true; mkControl "product-title" "Canvas" true;
              mkControl "quantity" "1" true;
              hidden_input (sample_variant "g2" ["LARGE"; "red"]) ]
            "cart-items" [("_feature", VStr "editor")]))
  = map (fun v => line_item (VStr "Canvas") (v_id v) (VStr (v_name v)))
      (selected_variants {["u3"]} sample_selection).
Proof.
  apply (selected_upsells_reach_cart {["u3"]} sample_selection sample_form).
  - vm_compute. reflexivity.
  - apply (bool_decide_unpack _). vm_compute. exact I.
  - vm_compute. reflexivity.
  - reflexivity.
Defined.

End SubmittedUpsellsExamples.

Section CartUpdate.
Import JS UpsellProducts UpsellVisibility ProductForm UpsellForm.

Lemma unchecked_twice (it : Item) : unchecked (unchecked it) = unchecked it.
Proof. unfold unchecked. by destruct (checkbox it) as [[|]|] eqn:Hbox; cbn; rewrite ?Hbox. Qed.

Lemma uncheck_items (c : Component) (entry : option string * option nat) (h : nat) :
  items (uncheck c entry) !! h
  = if bool_decide (snd entry = Some h) then unchecked <$> items c !! h
    else items c !! h.
Proof.
  unfold uncheck, element. destruct (snd entry) as [h0|]; cbn [mbind option_bind].
  - destruct (items c !! h0) as [it|] eqn:Hit; cbn [fmap option_fmap option_map].
    + assert (Hlt : h0 < length (items c)) by (by eapply lookup_lt_Some).
      case_bool_decide as Heq.
      * injection Heq as <-. rewrite Hit. cbn [fmap option_fmap option_map].
        unfold unchecked. destruct (checkbox it) as [[|]|]; cbn [items]; try done.
        by apply list_lookup_insert_eq.
      * destruct (checkbox it) as [[|]|]; cbn [items]; try done.
        apply list_lookup_insert_ne. congruence.
    + case_bool_decide as Heq; [|done]. injection Heq as <-. by rewrite Hit.
  - by rewrite bool_decide_eq_false_2.
Qed.

Lemma uncheck_frame (c : Component) (entry : option string * option nat) :
  checkboxes (uncheck c entry) = checkboxes c
  /\ hiddenUpsellProducts (uncheck c entry) = hiddenUpsellProducts c
  /\ originalDisplayValue (uncheck c entry) = originalDisplayValue c.
Proof.
  unfold uncheck. destruct (element c (snd entry)) as [[h it]|]; [|done].
  by destruct (checkbox it) as [[|]|].
Qed.

Lemma unchecks_items (entries : list (option string * option nat)) (c : Component)
    (h : nat) :
  items (fold_left uncheck entries c) !! h
  = if listed entries h then unchecked <$> items c !! h else items c !! h.
Proof.
  revert c. induction entries as [|entry entries IH]; intros c; [done|].
  cbn [fold_left listed existsb]. fold (listed entries h). rewrite IH, uncheck_items.
  destruct (bool_decide (snd entry = Some h)), (listed entries h); cbn [orb]; try done.
  destruct (items c !! h); cbn [fmap option_fmap option_map]; [|done].
  by rewrite unchecked_twice.
Qed.

Lemma unchecks_frame (entries : list (option string * option nat)) (c : Component) :
  hiddenUpsellProducts (fold_left uncheck entries c) = hiddenUpsellProducts c
  /\ originalDisplayValue (fold_left uncheck entries c) = originalDisplayValue c.
Proof.
  revert c. induction entries as [|entry entries IH]; intros c; [done|].
  cbn [fold_left]. destruct (IH (uncheck c entry)) as [-> ->].
  by destruct (uncheck_frame c entry) as (_ & -> & ->).
Qed.

(** X11.  After a cart update, every item a checkbox of the component lies
    in is as before but unchecked, the other items, the hidden set and the
    kept display are unchanged, and the form holds no field with the upsell
    prefix any more while keeping its other fields. *)
Theorem onCartUpdate_clears (c : Component) (form : option (list Control)) :
  (forall h, items (fst (onCartUpdate (c, form))) !! h
             = if listed (checkboxes c) h then unchecked <$> items c !! h
               else items c !! h)
  /\ (forall it, checkbox (unchecked it) <> Some true
                 /\ style_display (unchecked it) = style_display it)
  /\ hiddenUpsellProducts (fst (onCartUpdate (c, form))) = hiddenUpsellProducts c
  /\ originalDisplayValue (fst (onCartUpdate (c, form))) = originalDisplayValue c
  /\ (forall controls, form = Some controls ->
        exists controls',
          snd (onCartUpdate (c, form)) = Some controls'
          /\ List.filter (fun control => is_upsell_key (c_name control)) controls' = []
          /\ List.filter (fun control => negb (is_upsell_key (c_name control))) controls'
             = List.filter (fun control => negb (is_upsell_key (c_name control)))
                 controls).
Proof.
  unfold onCartUpdate, clearCheckedUpsellProducts. cbn [fst snd].
  split; [intros h; apply unchecks_items|].
  split; [intros it; unfold unchecked;
          by destruct (checkbox it) as [[|]|] eqn:Hbox; cbn; rewrite ?Hbox|].
  destruct (unchecks_frame (checkboxes c) c) as [Hhidden Horiginal].
  split; [done|]. split; [done|].
  intros controls ->. unfold removeExistingUpsellInputs.
  cbn [fmap option_fmap option_map]. eexists. split; [done|].
  split; [apply filter_opposite|apply filter_twice].
Qed.

End CartUpdate.

Section CartUpdateExamples.
Import JS UpsellProducts ProductForm UpsellForm.

Lemma onCartUpdate_clears_witness :
  exists controls',
    snd (onCartUpdate (two_items, Some sample_form)) = Some controls'
    /\ List.filter (fun control => is_upsell_key (c_name control)) controls' = []
    /\ List.filter (fun control => negb (is_upsell_key (c_name control))) controls'
       = List.filter (fun control => negb (is_upsell_key (c_name control)))
           sample_form.
Proof.
  apply (onCartUpdate_clears two_items (Some sample_form)). reflexivity.
Defined.

End CartUpdateExamples.

Section ManagerStates.
Import JS ProductForm UdoPaintsEditorManager.

Lemma manager_state_create (te : Method -> string) (ed : option (Method -> Outcome)) :
  manager_state (create te ed).
Proof. unfold create, checkAvailability. destruct ed; [by left|by right]. Qed.

Lemma manager_state_step (b : Bridge) (a : BridgeAction) :
  manager_state b -> manager_state (bridge_act b a).
Proof.
  intros Hstate. destruct a as [m| |ed]; cbn [bridge_act].
  - unfold call, onReady. cbn [fst isReady].
    destruct Hstate as [(Hready & Hqueue & Htimer)|(Hready & Htimer)]; rewrite Hready.
    + by left.
    + by right.
  - unfold tick.
    destruct Hstate as [(Hready & Hqueue & Htimer)|(Hready & Htimer)]; rewrite Htimer.
    + by left.
    + unfold checkAvailability. destruct (editor b); [by left|by right].
  - exact Hstate.
Qed.

Lemma ready_step (b : Bridge) (a : BridgeAction) :
  isReady b = true -> isReady (bridge_act b a) = true.
Proof.
  intros Hready. destruct a as [m| |ed]; cbn [bridge_act]; [| |done].
  - unfold call, onReady. cbn [fst isReady]. by rewrite Hready.
  - unfold tick. destruct (timer_armed b); [|done].
    unfold checkAvailability. by destruct (editor b).
Qed.

(** X12.  From its creation on, whatever is called and whenever the editor
    comes or goes, the manager is either ready with an empty queue and its
    polling stopped, or not ready with its timer armed; and once ready it
    stays ready, even if the editor is taken away. *)
Theorem manager_ready_for_good (te : Method -> string)
    (ed : option (Method -> Outcome)) (before after : list BridgeAction) :
  manager_state (fold_left bridge_act (before ++ after) (create te ed))
  /\ (isReady (fold_left bridge_act before (create te ed)) = true ->
      isReady (fold_left bridge_act (before ++ after) (create te ed)) = true
      /\ readyCallbacks (fold_left bridge_act (before ++ after) (create te ed)) = []
      /\ timer_armed (fold_left bridge_act (before ++ after) (create te ed)) = false).
Proof.
  assert (Hrun : forall actions b, manager_state b ->
            manager_state (fold_left bridge_act actions b)).
  { induction actions as [|a actions IH]; intros b Hb; [done|].
    cbn [fold_left]. by apply IH, manager_state_step. }
  assert (Hready : forall actions b, isReady b = true ->
            isReady (fold_left bridge_act actions b) = true).
  { induction actions as [|a actions IH]; intros b Hb; [done|].
    cbn [fold_left]. by apply IH, ready_step. }
  pose proof (Hrun (before ++ after) (create te ed) (manager_state_create te ed)) as Hstate.
  split; [exact Hstate|]. intros Hbefore.
  assert (Hafter : isReady (fold_left bridge_act (before ++ after) (create te ed)) = true)
    by (rewrite fold_left_app; by apply Hready).
  destruct Hstate as [Hr|[Hr _]]; [done|congruence].
Qed.

Lemma manager_ready_for_good_witness :
  isReady (fold_left bridge_act
             ([SetEditor (Some throwing_editor); Tick]
              ++ [SetEditor None; Call uploadImage; Tick]) (create sample_type_error None)) = true
  /\ readyCallbacks (fold_left bridge_act
                       ([SetEditor (Some throwing_editor); Tick]
                        ++ [SetEditor None; Call uploadImage; Tick]) (create sample_type_error None))
     = []
  /\ timer_armed (fold_left bridge_act
                    ([SetEditor (Some throwing_editor); Tick]
                     ++ [SetEditor None; Call uploadImage; Tick]) (create sample_type_error None))
     = false.
Proof.
  apply (manager_ready_for_good sample_type_error None
           [SetEditor (Some throwing_editor); Tick]
           [SetEditor None; Call uploadImage; Tick]).
  reflexivity.
Defined.

Lemma run_callback_answers (te : Method -> string) (methods : Method -> Outcome)
    (ps : list Promise) (p : nat) (m : Method) :
  ps !! p = Some Pending ->
  run_callback te (Some methods) ps (p, m) !! p = Some (answer methods m).
Proof.
  intros Hp. unfold run_callback, answer.
  destruct (methods m); [by apply resolve_pending..|done|done].
Qed.

Lemma run_callbacks_answer (te : Method -> string) (methods : Method -> Outcome)
    (callbacks : list (nat * Method)) (ps : list Promise) (p : nat) (m : Method) :
  NoDup (fst <$> callbacks) -> (p, m) ∈ callbacks -> ps !! p = Some Pending ->
  fold_left (run_callback te (Some methods)) callbacks ps !! p
  = Some (answer methods m).
Proof.
  revert ps. induction callbacks as [|[q m'] callbacks IH]; intros ps Hnd Hin Hp;
    [by apply elem_of_nil in Hin|].
  rewrite fmap_cons in Hnd. apply list.NoDup_cons in Hnd as [Hq Hnd].
  cbn [fold_left]. apply elem_of_cons in Hin as [Heq|Hin].
  - injection Heq as <- <-. rewrite run_callbacks_other by done.
    by apply run_callback_answers.
  - apply IH; [done|done|]. rewrite run_callback_other; [done|].
    intros <-. apply Hq. apply list_elem_of_fmap. by exists (q, m).
Qed.

(** X13.  When the poll finds the editor, every call that was queued is
    run: its promise is resolved with the editor's own result, unchanged,
    when the method returns one, and with the failure object when it throws
    a value that is not [null] or [undefined]; it stays pending when the
    method throws [null] or [undefined] or its promise never settles; the
    queue is then empty and the manager ready. *)
Theorem queued_calls_answered (b : Bridge) (methods : Method -> Outcome)
    (p : nat) (m : Method) :
  timer_armed b = true -> queue_sound b -> (p, m) ∈ readyCallbacks b ->
  promises (tick (set_editor (Some methods) b)) !! p
  = Some (match methods m with
          | Fulfils result => Resolved result
          | Throws message => Resolved (failure m message)
          | ThrowsNullish => Pending
          | Pends => Pending
          end)
  /\ readyCallbacks (tick (set_editor (Some methods) b)) = []
  /\ isReady (tick (set_editor (Some methods) b)) = true.
Proof.
  intros Harmed [Hnd Hpending] Hin. split.
  - rewrite appear_runs_queue by done.
    apply (run_callbacks_answer (type_error b) methods); [done|done|by eapply Hpending].
  - unfold tick, set_editor. cbn [timer_armed]. by rewrite Harmed.
Qed.

Lemma queued_calls_answered_witness :
  promises (tick (set_editor (Some (fun _ => Fulfils (VObj [("success", VBool true)])))
                    (fst (call onAddToCart
                            (fst (call isReadyToExport
                                    (create sample_type_error None)))))))
    !! 0%nat
  = Some (Resolved (VObj [("success", VBool true)])).
Proof.
  apply (queued_calls_answered
           (fst (call onAddToCart
                   (fst (call isReadyToExport (create sample_type_error None)))))
           (fun _ => Fulfils (VObj [("success", VBool true)])) 0 isReadyToExport).
  - reflexivity.
  - apply queue_sound_call, queue_sound_call, queue_sound_create.
  - apply elem_of_cons. by left.
Defined.

End ManagerStates.

Section SettledPromises.
Import JS ProductForm UdoPaintsEditorManager.

Lemma resolve_keeps_settled (p q : nat) (v : JVal) (ps : list Promise) (x : Promise) :
  ps !! q = Some x -> x <> Pending -> resolve p v ps !! q = Some x.
Proof.
  intros Hq Hx. unfold resolve. destruct (ps !! p) as [[| |]|] eqn:Hp; try done.
  rewrite list_lookup_insert_ne; [done|]. intros ->. congruence.
Qed.

Lemma run_callback_keeps_settled (te : Method -> string)
    (ed : option (Method -> Outcome)) (ps : list Promise)
    (callback : nat * Method) (q : nat) (x : Promise) :
  ps !! q = Some x -> x <> Pending -> run_callback te ed ps callback !! q = Some x.
Proof.
  intros Hq Hx. destruct callback as [p m]. unfold run_callback.
  destruct ed as [methods|]; [|by apply resolve_keeps_settled].
  destruct (methods m); [by apply resolve_keeps_settled..|done|done].
Qed.

Lemma run_callbacks_keep_settled (te : Method -> string)
    (ed : option (Method -> Outcome))
    (callbacks : list (nat * Method)) (ps : list Promise) (q : nat) (x : Promise) :
  ps !! q = Some x -> x <> Pending ->
  fold_left (run_callback te ed) callbacks ps !! q = Some x.
Proof.
  revert ps. induction callbacks as [|callback callbacks IH]; intros ps Hq Hx; [done|].
  cbn [fold_left]. apply IH; [|done]. by apply run_callback_keeps_settled.
Qed.

Lemma bridge_act_keeps_settled (b : Bridge) (a : BridgeAction) (q : nat) (x : Promise) :
  promises b !! q = Some x -> x <> Pending ->
  promises (bridge_act b a) !! q = Some x.
Proof.
  intros Hq Hx. destruct a as [m| |ed]; cbn [bridge_act]; [| |done].
  - unfold call, onReady. cbn [fst isReady promises editor].
    assert (Hq' : (promises b ++ [Pending]) !! q = Some x)
      by (by apply lookup_app_l_Some).
    destruct (isReady b); cbn [promises]; [|done].
    by apply run_callback_keeps_settled.
  - unfold tick. destruct (timer_armed b); [|done].
    unfold checkAvailability. destruct (editor b) as [methods|]; cbn [promises]; [|done].
    by apply run_callbacks_keep_settled.
Qed.

(** X14.  A promise handed out by a wrapper is settled at most once: once
    it holds a value, no later call, poll or change of the editor object
    alters it. *)
Theorem promise_settles_once (b : Bridge) (actions : list BridgeAction)
    (q : nat) (x : Promise) :
  promises b !! q = Some x -> x <> Pending ->
  promises (fold_left bridge_act actions b) !! q = Some x.
Proof.
  revert b. induction actions as [|a actions IH]; intros b Hq Hx; [done|].
  cbn [fold_left]. apply IH; [|done]. by apply bridge_act_keeps_settled.
Qed.

Lemma promise_settles_once_witness :
  promises (fold_left bridge_act
              [SetEditor (Some (fun _ => Fulfils (VBool true))); Call isReadyToExport;
               SetEditor None; Call isReadyToExport]
              (fst (call isReadyToExport (create sample_type_error (Some throwing_editor))))) !! 0%nat
  = Some (Resolved (failure isReadyToExport (Some "boom"))).
Proof.
  apply (promise_settles_once
           (fst (call isReadyToExport (create sample_type_error (Some throwing_editor))))
           [SetEditor (Some (fun _ => Fulfils (VBool true))); Call isReadyToExport;
            SetEditor None; Call isReadyToExport] 0
           (Resolved (failure isReadyToExport (Some "boom")))).
  - reflexivity.
  - discriminate.
Defined.

End SettledPromises.

Section FirstReadyCheck.
Import EditorWait.

(** The checks go on while the manager is not ready and stop at the first
    one that finds it ready. *)
Lemma poll_first_ready (M : nat) (ready : nat -> bool) (k : nat) (d : nat) :
  ready k = true -> k <= M ->
  forall (w : Wait) (fuel : nat),
    status w = Polling -> (attempts w + S d = k)%nat ->
    (forall j, attempts w < j < k -> ready j = false) -> S d <= fuel ->
    poll fuel M ready w
    = {| attempts := k; timers := (timers w + d)%nat; status := Available |}.
Proof.
  intros Hready Hbound.
  induction d as [|d IH]; intros w fuel Hpolling Hleft Hbefore Hfuel;
    (destruct fuel as [|fuel]; [lia|]); cbn [poll]; rewrite Hpolling;
    unfold checkManager.
  - replace (S (attempts w)) with k by lia. rewrite Hready.
    rewrite poll_settled by done. f_equal; lia.
  - rewrite (Hbefore (S (attempts w))) by lia.
    destruct (Nat.leb_spec M (S (attempts w))) as [|_]; [lia|].
    rewrite IH; cbn [attempts timers status]; try done; try lia.
    + f_equal; lia.
    + intros j Hj. apply Hbefore. lia.
Qed.

(** Only the first [M] checks matter for giving up. *)
Lemma poll_gives_up (M : nat) (ready : nat -> bool) (d : nat) :
  forall (w : Wait) (fuel : nat),
    status w = Polling -> (attempts w + S d = M)%nat ->
    (forall j, attempts w < j <= M -> ready j = false) -> S d <= fuel ->
    poll fuel M ready w
    = {| attempts := M; timers := (timers w + d)%nat; status := Unavailable |}.
Proof.
  induction d as [|d IH]; intros w fuel Hpolling Hleft Hnever Hfuel;
    (destruct fuel as [|fuel]; [lia|]); cbn [poll]; rewrite Hpolling;
    unfold checkManager; rewrite Hnever by lia.
  - destruct (Nat.leb_spec M (S (attempts w))) as [_|]; [|lia].
    rewrite poll_settled by done. f_equal; lia.
  - destruct (Nat.leb_spec M (S (attempts w))) as [|_]; [lia|].
    rewrite IH; cbn [attempts timers status]; try done; try lia.
    + f_equal; lia.
    + intros j Hj. apply Hnever. lia.
Qed.

(** X15.  If the manager is first found ready at check number [k]:
    when [k] is at most 50 the wait resolves at that check, after [k - 1]
    timers of 100 ms (the 50th check still counts); when [k] is larger the
    wait has been rejected at check 50, after 49 timers, and the manager's
    later readiness is never seen. *)
Theorem waitForManager_first_ready (ready : nat -> bool) (k fuel : nat) :
  0 < k -> ready k = true -> (forall j, 0 < j < k -> ready j = false) ->
  Nat.min k maxAttempts <= fuel ->
  waitForManager fuel ready
  = (if (k <=? maxAttempts)%nat
     then {| attempts := k; timers := k - 1; status := Available |}
     else {| attempts := maxAttempts; timers := maxAttempts - 1; status := Unavailable |})
  /\ waited (waitForManager fuel ready)
     = ((Nat.min k maxAttempts - 1) * attemptInterval)%nat.
Proof.
  intros Hk Hready Hbefore Hfuel.
  assert (Hresult : waitForManager fuel ready
    = (if (k <=? maxAttempts)%nat
       then {| attempts := k; timers := k - 1; status := Available |}
       else {| attempts := maxAttempts; timers := maxAttempts - 1;
               status := Unavailable |})).
  { unfold waitForManager. destruct (Nat.leb_spec k maxAttempts) as [Hle|Hgt];
      [rewrite Nat.min_l in Hfuel by lia|rewrite Nat.min_r in Hfuel by lia].
    - apply (poll_first_ready maxAttempts ready k (k - 1) Hready Hle);
        cbn [attempts timers status]; [done|lia| |lia].
      intros j Hj. apply Hbefore. lia.
    - apply (poll_gives_up maxAttempts ready (maxAttempts - 1));
        cbn [attempts timers status];
        [done|reflexivity| |unfold maxAttempts in *; lia].
      intros j Hj. apply Hbefore. lia. }
  split; [exact Hresult|]. rewrite Hresult. unfold waited.
  destruct (Nat.leb_spec k maxAttempts) as [Hle|Hgt]; cbn [timers].
  - by rewrite Nat.min_l by lia.
  - by rewrite Nat.min_r by lia.
Qed.

End FirstReadyCheck.

Section FirstReadyCheckExamples.
Import EditorWait.

Lemma waitForManager_first_ready_witness :
  waitForManager 10 (fun j => (3 <=? j)%nat)
  = {| attempts := 3; timers := 2; status := Available |}
  /\ waited (waitForManager 10 (fun j => (3 <=? j)%nat)) = 200%nat.
Proof.
  apply (waitForManager_first_ready (fun j => (3 <=? j)%nat) 3 10).
  - lia.
  - reflexivity.
  - intros j Hj. apply Nat.leb_gt. lia.
  - vm_compute. lia.
Defined.

(** The 50th check still resolves the wait; the 51st is never made. *)
Example waitForManager_boundary :
  status (waitForManager 60 (fun j => (50 <=? j)%nat)) = Available
  /\ status (waitForManager 60 (fun j => (51 <=? j)%nat)) = Unavailable.
Proof. by vm_compute. Qed.

End FirstReadyCheckExamples.

Section ExportCheck.
Import JS ProductForm UdoPaintsEditorManager EditorWait.

Lemma failure_success (m : Method) (message : option string) :
  exists o, failure m message = VObj o /\ get "success" o = Some (VBool false).
Proof. destruct m; eexists; (split; [reflexivity|reflexivity]). Qed.

Lemma ready_call_promise (b : Bridge) (m : Method) :
  isReady b = true ->
  promises (fst (call m b)) !! snd (call m b)
  = Some (match editor b with
          | Some methods => answer methods m
          | None => Resolved (failure m (Some (type_error b m)))
          end).
Proof.
  intros Hready. unfold call, onReady. cbn [fst snd isReady promises editor].
  rewrite Hready. cbn [promises type_error editor].
  assert (Hfresh : (promises b ++ [Pending]) !! length (promises b) = Some Pending)
    by apply call_promise_fresh.
  unfold run_callback, answer. destruct (editor b) as [methods|].
  - destruct (methods m); [by apply resolve_pending..|done|done].
  - by apply resolve_pending.
Qed.

Lemma checkReadyToExport_on_unfold (current : bool) (b : Bridge) :
  checkReadyToExport_on current b
  = if isReady b then
      match editor b with
      | None => Some (false, false)
      | Some methods =>
          match methods isReadyToExport with
          | Fulfils (VObj o) =>
              match get "success" o with
              | Some (VBool true) => Some (true, true)
              | _ => Some (false, false)
              end
          | Fulfils _ => Some (false, false)
          | Throws _ => Some (false, false)
          | ThrowsNullish => None
          | Pends => None
          end
      end
    else Some (current, false).
Proof.
  unfold checkReadyToExport_on. destruct (isReady b) eqn:Hready; [|done].
  pose proof (ready_call_promise b isReadyToExport Hready) as Hpromise.
  destruct (call isReadyToExport b) as [b' p] eqn:Hcall.
  cbn [fst snd] in Hpromise. rewrite Hpromise.
  unfold checkReadyToExport. cbn [negb from_option id].
  destruct (editor b) as [methods|].
  - unfold answer. destruct (methods isReadyToExport) as [result|message| |].
    + destruct result as [s|x|o]; [done|done|].
      cbv beta iota zeta. by destruct (get "success" o) as [[s|[|]|o']|].
    + by destruct (failure_success isReadyToExport message) as (o & -> & ->).
    + done.
    + done.
  - by destruct (failure_success isReadyToExport (Some (type_error b isReadyToExport)))
      as (o & -> & ->).
Qed.

(** X16.  The upsell component's export check against the manager: with
    the manager not ready it answers false and leaves its own flag alone;
    with the manager ready it answers true exactly when the editor's
    [isReadyToExport] returns an object whose [success] is [true]; an
    editor that has gone away, or that throws a value other than [null] or
    [undefined], gives false, not an exception; and the check stays
    unanswered exactly when the manager is ready and the editor's promise
    never settles or the editor throws [null] or [undefined]. *)
Theorem checkReadyToExport_on_manager (current : bool) (b : Bridge) :
  (isReady b = false -> checkReadyToExport_on current b = Some (current, false))
  /\ (isReady b = true ->
      (checkReadyToExport_on current b = Some (true, true) <->
       exists methods o, editor b = Some methods
         /\ methods isReadyToExport = Fulfils (VObj o)
         /\ get "success" o = Some (VBool true)))
  /\ (isReady b = true ->
      (editor b = None \/
       exists methods message, editor b = Some methods
         /\ methods isReadyToExport = Throws message) ->
      checkReadyToExport_on current b = Some (false, false))
  /\ (checkReadyToExport_on current b = None <->
      isReady b = true
      /\ exists methods, editor b = Some methods
           /\ (methods isReadyToExport = Pends
               \/ methods isReadyToExport = ThrowsNullish)).
Proof.
  rewrite checkReadyToExport_on_unfold. split; [|split; [|split]].
  - by intros ->.
  - intros ->. split.
    + destruct (editor b) as [methods|]; [|done].
      destruct (methods isReadyToExport) as [[s|x|o]| | |] eqn:Hmethod; try done.
      destruct (get "success" o) as [[s|[|]|o']|] eqn:Hsuccess; try done.
      intros _. by exists methods, o.
    + intros (methods & o & -> & -> & ->). done.
  - intros -> [->|(methods & message & -> & ->)]; done.
  - split.
    + destruct (isReady b); [|done]. destruct (editor b) as [methods|]; [|done].
      destruct (methods isReadyToExport) as [[s|x|o]| | |] eqn:Hmethod; try done.
      * by destruct (get "success" o) as [[s|[|]|o']|].
      * intros _. split; [done|]. exists methods. split; [done|by right].
      * intros _. split; [done|]. exists methods. split; [done|by left].
    + intros (-> & methods & -> & [->| ->]); done.
Qed.

Lemma checkReadyToExport_on_manager_witness :
  checkReadyToExport_on true (create sample_type_error (Some throwing_editor))
  = Some (false, false).
Proof.
  apply (checkReadyToExport_on_manager true
           (create sample_type_error (Some throwing_editor))).
  - reflexivity.
  - right. by exists throwing_editor, (Some "boom").
Defined.

(** An editor that rejects with no value leaves the check unanswered. *)
Example checkReadyToExport_on_nullish :
  checkReadyToExport_on true (create sample_type_error (Some nullish_editor)) = None.
Proof. vm_compute. reflexivity. Qed.

End ExportCheck.

Section CartUpsellDom.
Import JS CartUpsellComponent CartUpsellItems.

Lemma all_hidden_spec (l : list bool) :
  forallb id l = true <-> forall j, j < length l -> l !! j = Some true.
Proof.
  induction l as [|x l IH]; cbn [forallb length].
  - split; [intros _ j Hj; lia|done].
  - rewrite andb_true_iff, IH. split.
    + intros [Hx Hl] [|j] Hj; [by destruct x|]. cbn. apply Hl. lia.
    + intros Hall. split.
      * specialize (Hall 0 ltac:(lia)). cbn in Hall. by injection Hall as ->.
      * intros j Hj. apply (Hall (S j)). lia.
Qed.

Lemma checkAndHideComponent_frame (c : CartUpsell) :
  cu_items (checkAndHideComponent c) = cu_items c
  /\ cu_buttons (checkAndHideComponent c) = cu_buttons c
  /\ cu_session (checkAndHideComponent c) = cu_session c
  /\ cu_hidden (checkAndHideComponent c) = cu_hidden c || forallb id (cu_items c).
Proof.
  unfold checkAndHideComponent. destruct (forallb id (cu_items c)); cbn.
  - by rewrite orb_true_r.
  - by rewrite orb_false_r.
Qed.

Lemma hideItem_frame (i : nat) (c : CartUpsell) :
  cu_items (hideItem i c) = <[i := true]> (cu_items c)
  /\ cu_buttons (hideItem i c) = cu_buttons c
  /\ cu_session (hideItem i c) = cu_session c
  /\ cu_hidden (hideItem i c) = cu_hidden c || forallb id (<[i := true]> (cu_items c)).
Proof.
  unfold hideItem.
  match goal with |- context [checkAndHideComponent ?x] =>
    destruct (checkAndHideComponent_frame x) as (-> & -> & -> & ->) end.
  done.
Qed.

Lemma insert_true_lookup (l : list bool) (i j : nat) :
  <[i := true]> l !! j = Some true <-> l !! j = Some true \/ (i = j /\ j < length l).
Proof.
  destruct (decide (i = j)) as [->|Hne].
  - destruct (decide (j < length l)) as [Hlt|Hge].
    + rewrite list_lookup_insert_eq by done. split; [intros _; by right|done].
    + rewrite list_insert_ge by lia. split; [by left|]. intros [?|[_ ?]]; [done|lia].
  - rewrite list_lookup_insert_ne by done. split; [by left|]. intros [?|[? _]]; done.
Qed.

(** What one pass over the dismiss buttons does. *)
Lemma hide_dismissed_fold (buttons : list DismissButton) :
  forall c : CartUpsell,
    cu_buttons (fold_left hide_if_dismissed buttons c) = cu_buttons c
    /\ cu_session (fold_left hide_if_dismissed buttons c) = cu_session c
    /\ length (cu_items (fold_left hide_if_dismissed buttons c)) = length (cu_items c)
    /\ (forall j, cu_items (fold_left hide_if_dismissed buttons c) !! j = Some true <->
          cu_items c !! j = Some true
          \/ (j < length (cu_items c)
              /\ exists button, button ∈ buttons /\ hides_item (cu_session c) j button))
    /\ (cu_hidden c = true -> cu_hidden (fold_left hide_if_dismissed buttons c) = true)
    /\ (cu_hidden (fold_left hide_if_dismissed buttons c) = true ->
        cu_hidden c = true
        \/ forallb id (cu_items (fold_left hide_if_dismissed buttons c)) = true).
Proof.
  induction buttons as [|button buttons IH]; intros c.
  - cbn [fold_left]. repeat split; try done.
    + by left.
    + intros [?|(_ & button & Hin & _)]; [done|]. by apply elem_of_nil in Hin.
    + by left.
  - cbn [fold_left].
    destruct (IH (hide_if_dismissed c button)) as (Hb & Hs & Hlen & Hitems & Hup & Hdown).
    assert (Hstep : cu_buttons (hide_if_dismissed c button) = cu_buttons c
      /\ cu_session (hide_if_dismissed c button) = cu_session c
      /\ length (cu_items (hide_if_dismissed c button)) = length (cu_items c)
      /\ (forall j, cu_items (hide_if_dismissed c button) !! j = Some true <->
            cu_items c !! j = Some true
            \/ (j < length (cu_items c) /\ hides_item (cu_session c) j button))
      /\ (cu_hidden c = true -> cu_hidden (hide_if_dismissed c button) = true)
      /\ (cu_hidden (hide_if_dismissed c button) = true ->
          cu_hidden c = true
          \/ forallb id (cu_items (hide_if_dismissed c button)) = true)).
    { unfold hide_if_dismissed, hides_item.
      destruct (truthy (db_product button)) eqn:Htruthy; cbn [andb];
        [destruct (isDismissed (db_product button) (cu_session c)) eqn:Hdismissed;
         [destruct (db_item button) as [i|] eqn:Hitem|]|].
      - destruct (hideItem_frame i c) as (Hi & Hbs & Hss & Hh).
        rewrite Hi, Hbs, Hss, Hh, length_insert. repeat split; try done.
        + rewrite insert_true_lookup. intros [?|[-> ?]]; [by left|by right].
        + rewrite insert_true_lookup. intros [?|(? & _ & _ & [= ->])]; [by left|by right].
        + intros ->. done.
        + intros [?|?]%orb_true_iff; [by left|by right].
      - repeat split; try done; [by left| |by left].
        intros [?|(_ & _ & _ & ?)]; done.
      - repeat split; try done; [by left| |by left].
        intros [?|(_ & _ & ? & _)]; done.
      - repeat split; try done; [by left| |by left].
        intros [?|(_ & ? & _)]; done. }
    destruct Hstep as (Hb1 & Hs1 & Hlen1 & Hitems1 & Hup1 & Hdown1).
    split; [congruence|]. split; [congruence|]. split; [congruence|].
    split; [|split].
    + intros j. rewrite Hitems, Hitems1, Hs1, Hlen1. split.
      * intros [[?|[Hj Hhides]]|(Hj & other & Hin & Hhides)].
        -- by left.
        -- right. split; [done|]. exists button. split; [|done].
           apply elem_of_cons. by left.
        -- right. split; [done|]. exists other. split; [|done].
           apply elem_of_cons. by right.
      * intros [?|(Hj & other & Hin & Hhides)]; [by left; left|].
        apply elem_of_cons in Hin as [->|Hin].
        -- left. by right.
        -- right. split; [done|]. by exists other.
    + intros Hc. by apply Hup, Hup1.
    + intros Hhidden. destruct (Hdown Hhidden) as [Hmid|?]; [|by right].
      destruct (Hdown1 Hmid) as [?|Hall]; [by left|]. right.
      apply all_hidden_spec. intros j Hj. apply Hitems. left.
      apply (proj1 (all_hidden_spec _) Hall). by rewrite <- Hlen.
Qed.

(** X17.  What [hideDismissedItems] leaves behind: an item is hidden
    exactly when it was hidden before or a dismiss button inside it names a
    product recorded as dismissed; no item is added, removed or shown
    again; and the component itself ends hidden exactly when it was hidden
    before or no item is left visible. *)
Theorem hideDismissedItems_hides (c : CartUpsell) :
  (forall j, cu_items (hideDismissedItems c) !! j = Some true <->
     cu_items c !! j = Some true
     \/ (j < length (cu_items c)
         /\ exists button, button ∈ cu_buttons c /\ hides_item (cu_session c) j button))
  /\ length (cu_items (hideDismissedItems c)) = length (cu_items c)
  /\ cu_hidden (hideDismissedItems c)
     = cu_hidden c || forallb id (cu_items (hideDismissedItems c))
  /\ cu_session (hideDismissedItems c) = cu_session c.
Proof.
  unfold hideDismissedItems.
  destruct (hide_dismissed_fold (cu_buttons c) c) as (Hb & Hs & Hlen & Hitems & Hup & Hdown).
  destruct (checkAndHideComponent_frame (fold_left hide_if_dismissed (cu_buttons c) c))
    as (Hi & _ & Hss & Hh).
  rewrite Hi, Hss, Hh. split; [done|]. split; [done|]. split; [|done].
  destruct (forallb id (cu_items (fold_left hide_if_dismissed (cu_buttons c) c)))
    eqn:Hall.
  - by rewrite !orb_true_r.
  - rewrite !orb_false_r.
    destruct (cu_hidden c) eqn:Hc; [by apply Hup|].
    destruct (cu_hidden (fold_left hide_if_dismissed (cu_buttons c) c)) eqn:Hf; [|done].
    destruct (Hdown eq_refl); congruence.
Qed.

Lemma stored_decides (s s' : Session) (productId : string) :
  stored s = stored s' -> isDismissed productId s = isDismissed productId s'.
Proof. intros Hs. unfold isDismissed, getDismissedProducts. by rewrite Hs. Qed.

Lemma updateFlagElement_stored (s : Session) :
  stored (updateFlagElement s) = stored s
  /\ storage_full (updateFlagElement s) = storage_full s.
Proof. unfold updateFlagElement. by destruct (flag s). Qed.

Lemma saveDismissedState_dismisses (productId : string) (s : Session) :
  storage_full s = false -> isDismissed productId (saveDismissedState productId s) = true.
Proof.
  intros Hfull. unfold saveDismissedState.
  destruct (bool_decide (productId ∈ getDismissedProducts s)) eqn:Hin; [done|].
  unfold isDismissed.
  assert (Hstored : getDismissedProducts
            (updateFlagElement (setDismissedProducts (getDismissedProducts s ++ [productId]) s))
          = getDismissedProducts s ++ [productId]).
  { unfold getDismissedProducts at 1.
    destruct (updateFlagElement_stored
                (setDismissedProducts (getDismissedProducts s ++ [productId]) s)) as [-> _].
    unfold setDismissedProducts. by rewrite Hfull. }
  rewrite Hstored. apply bool_decide_eq_true. apply elem_of_app. right.
  apply elem_of_cons. by left.
Qed.

Lemma saveDismissedState_full (productId : string) (s : Session) :
  storage_full s = true -> stored (saveDismissedState productId s) = stored s.
Proof.
  intros Hfull. unfold saveDismissedState.
  destruct (bool_decide (productId ∈ getDismissedProducts s)); [done|].
  destruct (updateFlagElement_stored
              (setDismissedProducts (getDismissedProducts s ++ [productId]) s)) as [-> _].
  unfold setDismissedProducts. by rewrite Hfull.
Qed.

Lemma ensureFlagElement_stored (s : Session) :
  stored (ensureFlagElement s) = stored s.
Proof.
  unfold ensureFlagElement.
  match goal with |- stored (updateFlagElement ?x) = _ =>
    destruct (updateFlagElement_stored x) as [-> _] end.
  by destruct (flag s).
Qed.

(** X18.  A dismissal survives a reload of the page: after a click on the
    dismiss button of a product (a non-empty id, inside an item), with
    session storage accepting the write, the product is recorded, and any
    later instance of the component reading the same storage hides, as soon
    as it is connected, every item holding a dismiss button of that product.
    When session storage refuses the write, what is stored does not
    change. *)
Theorem dismissal_survives_reload (c : CartUpsell) (productId : string) (i : nat) :
  truthy productId = true ->
  (storage_full (cu_session c) = false ->
   isDismissed productId (cu_session (handleDismiss (Some productId) (Some i) c)) = true
   /\ forall (later : CartUpsell) (button : DismissButton) (j : nat),
        stored (cu_session later)
        = stored (cu_session (handleDismiss (Some productId) (Some i) c)) ->
        button ∈ cu_buttons later -> db_product button = productId ->
        db_item button = Some j -> j < length (cu_items later) ->
        cu_items (connectedCallback later) !! j = Some true)
  /\ (storage_full (cu_session c) = true ->
      stored (cu_session (handleDismiss (Some productId) (Some i) c))
      = stored (cu_session c)).
Proof.
  intros Htruthy. unfold handleDismiss. rewrite Htruthy. cbn [save cu_session].
  destruct (hideItem_frame i c) as (_ & _ & -> & _). split.
  - intros Hfull.
    pose proof (saveDismissedState_dismisses productId (cu_session c) Hfull) as Hdismissed.
    split; [done|]. intros later button j Hstored Hin Hproduct Hitem Hj.
    unfold connectedCallback, hideDismissedItems.
    match goal with |- cu_items (checkAndHideComponent ?x) !! _ = _ =>
      destruct (checkAndHideComponent_frame x) as (-> & _) end.
    match goal with |- cu_items (fold_left _ ?bs ?x) !! _ = _ =>
      destruct (hide_dismissed_fold bs x) as (_ & _ & _ & Hitems & _) end.
    apply Hitems. right. cbn [cu_items cu_buttons cu_session]. split; [done|].
    exists button. split; [done|]. unfold hides_item. rewrite Hproduct.
    repeat split; [done| |done].
    rewrite <- Hdismissed. apply stored_decides.
    by rewrite ensureFlagElement_stored.
  - apply saveDismissedState_full.
Qed.

Lemma dismissal_survives_reload_witness :
  isDismissed "22" (cu_session (handleDismiss (Some "22") (Some 1) sample_cart_upsell))
  = true
  /\ forall (later : CartUpsell) (button : DismissButton) (j : nat),
       stored (cu_session later)
       = stored (cu_session (handleDismiss (Some "22") (Some 1) sample_cart_upsell)) ->
       button ∈ cu_buttons later -> db_product button = "22" ->
       db_item button = Some j -> j < length (cu_items later) ->
       cu_items (connectedCallback later) !! j = Some true.
Proof.
  apply (dismissal_survives_reload sample_cart_upsell "22" 1); reflexivity.
Defined.

(** Both items dismissed one after the other: the component hides itself
    with the second. *)
Example dismiss_all_hides_component :
  cu_hidden (handleDismiss (Some "11") (Some 0) sample_cart_upsell) = false
  /\ cu_hidden (handleDismiss (Some "22") (Some 1)
                  (handleDismiss (Some "11") (Some 0) sample_cart_upsell)) = true.
Proof. by vm_compute. Qed.

(** X19.  Adding an upsell from the cart has the effect of dismissing it:
    when both ids are present and the request goes through, the component
    ends as after a click on a dismiss button of that product in the same
    item; when an id is missing or empty, or the request fails, nothing is
    hidden and nothing is recorded. *)
Theorem handleAddToCart_dismisses (added : bool) (productId variantId : option string)
    (item : option nat) (c : CartUpsell) :
  handleAddToCart added productId variantId item c
  = if added && truthy_opt productId && truthy_opt variantId
    then handleDismiss productId item c
    else c.
Proof.
  unfold handleAddToCart, handleDismiss, processAddToCart.
  destruct productId as [id|]; cbn [truthy_opt negb orb andb].
  - destruct (truthy id) eqn:Hid; cbn [negb orb andb].
    + destruct (truthy_opt variantId); cbn [negb andb].
      * rewrite andb_true_r. by destruct item, added.
      * by rewrite andb_false_r.
    + by rewrite andb_false_r.
  - by rewrite andb_false_r.
Qed.

End CartUpsellDom.

Section AppBlockAtSubmit.
Import JS ProductForm UdoPaintsEditorManager AppBlock.



(** X21.  Detection is stable: run on the payload it returns, the
    detection step returns that payload unchanged and no upsell line item,
    so nothing is extracted twice. *)
Theorem detectUpsellProducts_stable (formJsonData : JObject) :
  detectUpsellProducts (fst (detectUpsellProducts formJsonData))
  = (fst (detectUpsellProducts formJsonData), []).
Proof.
  unfold detectUpsellProducts at 2 3.
  destruct (length (List.filter (fun kv => is_upsell_key (fst kv)) formJsonData) =? 0)%nat
    eqn:Hnone; cbn [fst].
  - unfold detectUpsellProducts. by rewrite Hnone.
  - destruct (truthy_val (get "product-title" formJsonData)) eqn:Htitle; cbn [negb fst].
    + unfold detectUpsellProducts.
      rewrite filter_set.
      change (is_upsell_key "properties") with false. cbv beta iota.
      unfold fromEntries at 1 2 3. rewrite !filter_fold_set, !filter_opposite. done.
    + unfold detectUpsellProducts. by rewrite Hnone, Htitle.
Qed.

End AppBlockAtSubmit.
